(** * mm.c: an explicit free list allocator with first fit placement

    A shallow embedding of [src/mm.c] and the verification of its
    specification.  The heap is a byte addressed memory, the allocator's two
    globals and the heap provider's three form the state, and every C
    function is a computation in a state monad that can fault (an access
    outside the provider's region) or run forever (a cyclic free list). *)

From Stdlib Require Import ZArith List Bool Lia.
Import ListNotations.
Open Scope Z_scope.

(* ================================================================== *)
(** * Part I: the program *)
(* ================================================================== *)

(** ** Machine integers *)

(** [size_t] and pointers are 64 bits wide, [unsigned int] is 32 bits wide
    (the minimum block of 24 bytes holds a 4 byte header, two 8 byte links
    and a 4 byte footer). *)
Definition u64 (x : Z) : Z := x mod 2 ^ 64.
Definition u32 (x : Z) : Z := x mod 2 ^ 32.

(** ** Basic constants and macros *)

Definition WSIZE : Z := 4.
Definition DSIZE : Z := 8.
Definition CHUNKSIZE : Z := Z.shiftl 1 12.
Definition MINIMUM : Z := 24.
Definition ALIGNMENT : Z := 8.
Definition NULL : Z := 0.

Definition MAX (x y : Z) : Z := if x >? y then x else y.

(** [PACK(size, alloc)  ((size) | (alloc))] *)
Definition PACK (size alloc : Z) : Z := Z.lor size alloc.

(** [~0x7] is the [int] -8; against an [unsigned int] it is converted to
    [0xFFFFFFF8], against a [size_t] to [0xFFFFFFFFFFFFFFF8]. *)
Definition size_of_word (w : Z) : Z := Z.land w (u32 (Z.lnot 7)).
Definition alloc_of_word (w : Z) : Z := Z.land w 1.

(** [ALIGN(size) (((size) + (ALIGNMENT-1)) & ~0x7)] on a [size_t]. *)
Definition ALIGN (size : Z) : Z :=
  Z.land (u64 (size + (ALIGNMENT - 1))) (u64 (Z.lnot 7)).

(** [HDRP(bp) ((void * )(bp) - WSIZE)].  Addresses are integers; an address
    computed outside the region faults when it is dereferenced. *)
Definition HDRP (bp : Z) : Z := bp - WSIZE.

(** ** Memory *)

(** A memory maps every address to a byte.  Multi-byte values are little
    endian. *)
Definition memory := Z -> Z.

Definition upd (m : memory) (a b : Z) : memory :=
  fun x => if x =? a then b else m x.

Fixpoint load (n : nat) (m : memory) (a : Z) : Z :=
  match n with
  | O => 0
  | S k => (m a) mod 256 + 256 * load k m (a + 1)
  end.

Fixpoint store (n : nat) (m : memory) (a v : Z) : memory :=
  match n with
  | O => m
  | S k => store k (upd m a (v mod 256)) (a + 1) (v / 256)
  end.

(** [memcpy] and [memset] of the C library, on [n] bytes. *)
Definition mem_copy (m : memory) (dst src n : Z) : memory :=
  fun x => if (dst <=? x) && (x <? dst + n) then m (src + (x - dst)) else m x.

Definition mem_fill (m : memory) (dst c n : Z) : memory :=
  fun x => if (dst <=? x) && (x <? dst + n) then c mod 256 else m x.

(** ** State *)

(** The provider's private variables ([mem_heap], [mem_brk],
    [mem_max_addr]) and the allocator's globals ([heap_listp],
    [free_listp]). *)
Record state : Type := mkState {
  mem : memory;
  mem_heap : Z;
  mem_brk : Z;
  mem_max_addr : Z;
  heap_listp : Z;
  free_listp : Z
}.

Definition with_mem (st : state) (m : memory) : state :=
  mkState m (mem_heap st) (mem_brk st) (mem_max_addr st)
          (heap_listp st) (free_listp st).
Definition with_brk (st : state) (b : Z) : state :=
  mkState (mem st) (mem_heap st) b (mem_max_addr st)
          (heap_listp st) (free_listp st).
Definition with_heap_listp (st : state) (p : Z) : state :=
  mkState (mem st) (mem_heap st) (mem_brk st) (mem_max_addr st)
          p (free_listp st).
Definition with_free_listp (st : state) (p : Z) : state :=
  mkState (mem st) (mem_heap st) (mem_brk st) (mem_max_addr st)
          (heap_listp st) p.

(** ** The monad *)

Inductive outcome (A : Type) : Type :=
| Ok (a : A) (st : state)
| Fault
| Diverge.
Arguments Ok {A} a st.
Arguments Fault {A}.
Arguments Diverge {A}.

Definition M (A : Type) : Type := state -> outcome A.

Definition ret {A} (a : A) : M A := fun st => Ok a st.

Definition bind {A B} (m : M A) (f : A -> M B) : M B :=
  fun st =>
    match m st with
    | Ok a st' => f a st'
    | Fault => Fault
    | Diverge => Diverge
    end.

Notation "x <- m ;; k" := (bind m (fun x => k))
  (at level 61, m at next level, right associativity).
Notation "m ;; k" := (bind m (fun _ => k))
  (at level 61, right associativity).

Definition get_heap_listp : M Z := fun st => Ok (heap_listp st) st.
Definition get_free_listp : M Z := fun st => Ok (free_listp st) st.
Definition set_heap_listp (p : Z) : M unit :=
  fun st => Ok tt (with_heap_listp st p).
Definition set_free_listp (p : Z) : M unit :=
  fun st => Ok tt (with_free_listp st p).

(** An access of [n] bytes at [a] is defined inside the region handed out
    by the provider, and nowhere else. *)
Definition valid (st : state) (a n : Z) : bool :=
  (mem_heap st <=? a) && (a + n <=? mem_brk st).

Definition load_at (n : nat) (a : Z) : M Z :=
  fun st =>
    if valid st a (Z.of_nat n) then Ok (load n (mem st) a) st else Fault.

Definition store_at (n : nat) (a v : Z) : M unit :=
  fun st =>
    if valid st a (Z.of_nat n)
    then Ok tt (with_mem st (store n (mem st) a v))
    else Fault.

(** [GET(p) ( *(unsigned int * )(p))] and [PUT(p, val)]. *)
Definition GET (p : Z) : M Z := load_at 4 p.
Definition PUT (p val : Z) : M unit := store_at 4 p val.

(** [SUCC(bp) ( *(void ** )(bp+DSIZE))] and [PRED(bp) ( *(void ** )(bp))],
    read and assigned. *)
Definition SUCC (bp : Z) : M Z := load_at 8 (bp + DSIZE).
Definition PRED (bp : Z) : M Z := load_at 8 bp.
Definition SET_SUCC (bp v : Z) : M unit := store_at 8 (bp + DSIZE) v.
Definition SET_PRED (bp v : Z) : M unit := store_at 8 bp v.

Definition GET_SIZE (p : Z) : M Z := w <- GET p ;; ret (size_of_word w).
Definition GET_ALLOC (p : Z) : M Z := w <- GET p ;; ret (alloc_of_word w).

(** [FTRP(bp) ((void * )(bp) + GET_SIZE(HDRP(bp)) - DSIZE)] *)
Definition FTRP (bp : Z) : M Z :=
  s <- GET_SIZE (HDRP bp) ;; ret (bp + s - DSIZE).

(** [NEXT_BLKP(bp) ((void * )(bp) + GET_SIZE(((bp) - WSIZE)))] and
    [PREV_BLKP(bp) ((void * )(bp) - GET_SIZE(((bp) - DSIZE)))] *)
Definition NEXT_BLKP (bp : Z) : M Z :=
  s <- GET_SIZE (bp - WSIZE) ;; ret (bp + s).
Definition PREV_BLKP (bp : Z) : M Z :=
  s <- GET_SIZE (bp - DSIZE) ;; ret (bp - s).

(** ** The heap provider *)

Definition SBRK_FAILED : Z := 2 ^ 64 - 1.

(** Modelled from the spec: [mem_sbrk] is defined in memlib.c, which is not
    under src/.  The spec gives its interface as
    [extend(n_bytes) -> old_break_address | error_sentinel]: the heap grows
    contiguously by [n_bytes], the old break is returned and existing
    contents are preserved.  The error sentinel is [(void * )-1], the value
    [extend_heap] tests the result against. *)
Definition mem_sbrk (incr : Z) : M Z :=
  fun st =>
    if (incr <? 0) || (mem_max_addr st <? mem_brk st + incr)
    then Ok SBRK_FAILED st
    else Ok (mem_brk st) (with_brk st (mem_brk st + incr)).

(** [memcpy] and [memset]: nothing is accessed when [n] is 0. *)
Definition memcpy (dst src n : Z) : M unit :=
  fun st =>
    if n =? 0 then Ok tt st
    else if valid st dst n && valid st src n
    then Ok tt (with_mem st (mem_copy (mem st) dst src n))
    else Fault.

Definition memset (dst c n : Z) : M unit :=
  fun st =>
    if n =? 0 then Ok tt st
    else if valid st dst n
    then Ok tt (with_mem st (mem_fill (mem st) dst c n))
    else Fault.

(** ** The free list *)

(** [fcons]: push the free block onto the head of the free list. *)
Definition fcons (bp : Z) : M unit :=
  fl <- get_free_listp ;;
  SET_SUCC bp fl ;;
  fl <- get_free_listp ;;
  SET_PRED fl bp ;;
  SET_PRED bp NULL ;;
  set_free_listp bp.

(** [fremove]: unlink the free block from the free list. *)
Definition fremove (bp : Z) : M unit :=
  p <- PRED bp ;;
  (if negb (p =? 0)
   then (p <- PRED bp ;; s <- SUCC bp ;; SET_SUCC p s)
   else (s <- SUCC bp ;; set_free_listp s)) ;;
  s <- SUCC bp ;;
  p <- PRED bp ;;
  SET_PRED s p.

(** ** Coalescing *)

Definition coalesce (bp : Z) : M Z :=
  pa <- (pv <- PREV_BLKP bp ;; f <- FTRP pv ;; GET_ALLOC f) ;;
  prev_alloc <-
    (if negb (pa =? 0) then ret true
     else pv <- PREV_BLKP bp ;; ret (pv =? bp)) ;;
  nx <- NEXT_BLKP bp ;;
  na <- GET_ALLOC (HDRP nx) ;;
  let next_alloc := negb (na =? 0) in
  size <- GET_SIZE (HDRP bp) ;;
  if prev_alloc && next_alloc then                       (* Case 1 *)
    fcons bp ;; ret bp
  else
    bp <-
      (if prev_alloc && negb next_alloc then             (* Case 2 *)
         nx <- NEXT_BLKP bp ;;
         ns <- GET_SIZE (HDRP nx) ;;
         let size := u64 (size + ns) in
         nx <- NEXT_BLKP bp ;;
         fremove nx ;;
         PUT (HDRP bp) (PACK size 0) ;;
         f <- FTRP bp ;;
         PUT f (PACK size 0) ;;
         ret bp
       else if negb prev_alloc && next_alloc then        (* Case 3 *)
         pv <- PREV_BLKP bp ;;
         ps <- GET_SIZE (HDRP pv) ;;
         let size := u64 (size + ps) in
         bp <- PREV_BLKP bp ;;
         fremove bp ;;
         PUT (HDRP bp) (PACK size 0) ;;
         f <- FTRP bp ;;
         PUT f (PACK size 0) ;;
         ret bp
       else                                              (* Case 4 *)
         pv <- PREV_BLKP bp ;;
         ps <- GET_SIZE (HDRP pv) ;;
         nx <- NEXT_BLKP bp ;;
         ns <- GET_SIZE (HDRP nx) ;;
         let size := u64 (size + u32 (ps + ns)) in
         pv <- PREV_BLKP bp ;;
         fremove pv ;;
         nx <- NEXT_BLKP bp ;;
         fremove nx ;;
         bp <- PREV_BLKP bp ;;
         PUT (HDRP bp) (PACK size 0) ;;
         f <- FTRP bp ;;
         PUT f (PACK size 0) ;;
         ret bp) ;;
    fcons bp ;;
    ret bp.

(** ** Heap extension *)

Definition extend_heap (words : Z) : M Z :=
  let size :=
    if negb (words mod 2 =? 0)
    then u64 ((words + 1) * WSIZE) else u64 (words * WSIZE) in
  let size := if size <? MINIMUM then MINIMUM else size in
  bp <- mem_sbrk size ;;
  if bp =? SBRK_FAILED then ret NULL
  else
    PUT (HDRP bp) (PACK size 0) ;;
    f <- FTRP bp ;;
    PUT f (PACK size 0) ;;
    nx <- NEXT_BLKP bp ;;
    PUT (HDRP nx) (PACK 0 1) ;;
    coalesce bp.

(** ** Initialisation *)

Definition mm_init : M Z :=
  p <- mem_sbrk (2 * MINIMUM) ;;
  set_heap_listp p ;;
  if p =? NULL then ret (-1)
  else
    hl <- get_heap_listp ;;
    PUT hl 0 ;;
    PUT (hl + WSIZE) (PACK MINIMUM 1) ;;
    PUT (hl + DSIZE) 0 ;;
    PUT (hl + DSIZE + WSIZE) 0 ;;
    PUT (hl + MINIMUM) (PACK MINIMUM 1) ;;
    PUT (hl + MINIMUM + WSIZE) (PACK 0 1) ;;
    set_free_listp (hl + DSIZE) ;;
    r <- extend_heap (CHUNKSIZE / WSIZE) ;;
    if r =? NULL then ret (-1) else ret 0.

(** ** Placement and first fit *)

Definition place (bp asize : Z) : M unit :=
  csize <- GET_SIZE (HDRP bp) ;;
  if u64 (csize - asize) >=? MINIMUM then
    PUT (HDRP bp) (PACK asize 1) ;;
    f <- FTRP bp ;;
    PUT f (PACK asize 1) ;;
    fremove bp ;;
    bp <- NEXT_BLKP bp ;;
    PUT (HDRP bp) (PACK (u64 (csize - asize)) 0) ;;
    f <- FTRP bp ;;
    PUT f (PACK (u64 (csize - asize)) 0) ;;
    _ <- coalesce bp ;;
    ret tt
  else
    PUT (HDRP bp) (PACK csize 1) ;;
    f <- FTRP bp ;;
    PUT f (PACK csize 1) ;;
    fremove bp.

(** The loop of [find_fit].  It reads and never writes, so its only state is
    [bp]; [fuel] bounds the number of iterations and [Diverge] is the
    outcome of a run that exhausts it. *)
Fixpoint find_fit_loop (fuel : nat) (asize bp : Z) : M Z :=
  match fuel with
  | O => fun _ => Diverge
  | S fuel' =>
      a <- GET_ALLOC (HDRP bp) ;;
      if a =? 0 then
        s <- GET_SIZE (HDRP bp) ;;
        if asize <=? s then ret bp
        else nx <- SUCC bp ;; find_fit_loop fuel' asize nx
      else ret NULL
  end.

(** Every iteration dereferences [HDRP(bp)] inside the region, so a run of
    more iterations than the region has bytes visits some [bp] twice and
    never ends. *)
Definition find_fit (asize : Z) : M Z :=
  fun st =>
    (bp <- get_free_listp ;;
     find_fit_loop (S (Z.to_nat (mem_brk st - mem_heap st))) asize bp) st.

(** ** The public operations *)

Definition mm_malloc (size : Z) : M Z :=
  if size <=? 0 then ret NULL
  else
    let asize := MAX (u64 (ALIGN size + DSIZE)) MINIMUM in
    bp <- find_fit asize ;;
    if negb (bp =? NULL) then
      place bp asize ;; ret bp
    else
      let extendsize := MAX asize CHUNKSIZE in
      bp <- extend_heap (extendsize / WSIZE) ;;
      if bp =? NULL then ret NULL
      else place bp asize ;; ret bp.

Definition mm_free (bp : Z) : M unit :=
  if bp =? 0 then ret tt
  else
    size <- GET_SIZE (HDRP bp) ;;
    PUT (HDRP bp) (PACK size 0) ;;
    f <- FTRP bp ;;
    PUT f (PACK size 0) ;;
    _ <- coalesce bp ;;
    ret tt.

Definition mm_realloc (ptr size : Z) : M Z :=
  if size <=? 0 then mm_free ptr ;; ret 0
  else if ptr =? NULL then mm_malloc size
  else
    oldsize <- GET_SIZE (HDRP ptr) ;;
    let asize := MAX (u64 (ALIGN size + DSIZE)) MINIMUM in
    if oldsize =? asize then ret ptr
    else if asize <? oldsize then
      if u64 (oldsize - asize) <=? MINIMUM then ret ptr
      else
        PUT (HDRP ptr) (PACK asize 1) ;;
        f <- FTRP ptr ;;
        PUT f (PACK asize 1) ;;
        nx <- NEXT_BLKP ptr ;;
        PUT (HDRP nx) (PACK (u64 (oldsize - asize)) 1) ;;
        nx <- NEXT_BLKP ptr ;;
        mm_free nx ;;
        ret ptr
    else
      newptr <- mm_malloc size ;;
      if newptr =? 0 then ret 0
      else
        let oldsize := if size <? oldsize then size else oldsize in
        memcpy newptr ptr oldsize ;;
        mm_free ptr ;;
        ret newptr.

Definition mm_calloc (nmemb size : Z) : M Z :=
  hl <- get_heap_listp ;;
  (if hl =? 0 then _ <- mm_init ;; ret tt else ret tt) ;;
  ptr <- mm_malloc (u64 (nmemb * size)) ;;
  memset ptr 0 (u64 (nmemb * size)) ;;
  ret ptr.

(** ** The consistency checker *)

(** What the checker writes to the diagnostic channel. *)
Inductive message : Type :=
| HeapBanner (p : Z)
| BadPrologueHeader
| BadEpilogueHeader
| NotAligned (p : Z)
| HeaderFooterMismatch.

(** [printblock]: its prints are commented out in the source; the header
    is still read. *)
Definition printblock (bp : Z) : M (list message) :=
  _ <- GET_SIZE (HDRP bp) ;; ret [].

Definition checkblock (bp : Z) : M (list message) :=
  let o1 := if negb (bp mod 8 =? 0) then [NotAligned bp] else [] in
  h <- GET (HDRP bp) ;;
  f <- FTRP bp ;;
  w <- GET f ;;
  ret (o1 ++ (if negb (h =? w) then [HeaderFooterMismatch] else [])).

(** The checker's loop, bounded like the loop of [find_fit]; it returns the
    block it stopped at and the messages. *)
Fixpoint checkheap_loop (fuel : nat) (verbose : bool) (bp : Z)
  : M (Z * list message) :=
  match fuel with
  | O => fun _ => Diverge
  | S fuel' =>
      s <- GET_SIZE (HDRP bp) ;;
      if s >? 0 then
        o1 <- (if verbose then printblock bp else ret []) ;;
        o2 <- checkblock bp ;;
        nx <- NEXT_BLKP bp ;;
        r <- checkheap_loop fuel' verbose nx ;;
        ret (fst r, o1 ++ o2 ++ snd r)
      else ret (bp, [])
  end.

(** The test guarding [printf("Bad prologue header\n")], on the header
    word. *)
Definition bad_prologue (w : Z) : bool :=
  negb (size_of_word w =? DSIZE) || (alloc_of_word w =? 0).

Definition bad_epilogue (w : Z) : bool :=
  negb (size_of_word w =? 0) || (alloc_of_word w =? 0).

Definition mm_checkheap (verbose : bool) : M (list message) :=
  fun st =>
    (hl <- get_heap_listp ;;
     let o0 := if verbose then [HeapBanner hl] else [] in
     w <- GET (HDRP hl) ;;
     let o1 := if bad_prologue w then [BadPrologueHeader] else [] in
     o2 <- checkblock hl ;;
     r <- checkheap_loop (S (Z.to_nat (mem_brk st - mem_heap st))) verbose hl ;;
     let bp := fst r in
     o3 <- (if verbose then printblock bp else ret []) ;;
     w <- GET (HDRP bp) ;;
     let o4 := if bad_epilogue w then [BadEpilogueHeader] else [] in
     ret (o0 ++ o1 ++ o2 ++ snd r ++ o3 ++ o4)) st.


(* ================================================================== *)
(** * Part II: the heap as a sequence of blocks *)
(* ================================================================== *)

(** ** Outcomes *)

(** [wp m Q st]: from [st], the computation [m] returns and [Q] holds of its
    result and final state. *)
Definition wp {A} (m : M A) (Q : A -> state -> Prop) (st : state) : Prop :=
  match m st with
  | Ok a st' => Q a st'
  | Fault => False
  | Diverge => False
  end.

(** ** Blocks *)

(** A block is allocated or free; [KRaw] is a block between two stores of a
    split, whose boundary tags are not written yet. *)
Inductive kind : Type := KAlloc | KFree | KRaw.

(** Payload address, size (header and footer included) and kind. *)
Abbreviation block := (Z * Z * kind)%type.
Definition baddr (b : block) : Z := fst (fst b).
Definition bsize (b : block) : Z := snd (fst b).
Definition bkind (b : block) : kind := snd b.

Definition tag (sz : Z) (k : kind) : Z :=
  match k with KAlloc => sz + 1 | _ => sz end.

Definition block_ok (m : memory) (b : block) : Prop :=
  MINIMUM <= bsize b /\ bsize b mod 8 = 0 /\
  (bkind b <> KRaw ->
   load 4 m (baddr b - 4) = tag (bsize b) (bkind b) /\
   load 4 m (baddr b + bsize b - 8) = tag (bsize b) (bkind b)).

(** The blocks of [bs] tile the addresses from [p] to [q]. *)
Fixpoint chain (p : Z) (bs : list block) (q : Z) : Prop :=
  match bs with
  | [] => p = q
  | b :: bs' => baddr b = p /\ chain (p + bsize b) bs' q
  end.

(** Sizes are multiples of the double word, and at least the minimum. *)
Definition sized (bs : list block) : Prop :=
  Forall (fun b => MINIMUM <= bsize b /\ bsize b mod 8 = 0) bs.

(** The heap of [st] is laid out as the prologue, the blocks [bs] and the
    epilogue header. *)
Record layout (st : state) (bs : list block) : Prop := {
  L_heap : 0 < mem_heap st <= heap_listp st;
  L_align : heap_listp st mod 8 = 0;
  L_brk : mem_brk st <= mem_max_addr st;
  L_max : mem_max_addr st < 2 ^ 64 - 1;
  L_small : mem_max_addr st - heap_listp st < 2 ^ 32;
  L_prologue_hdr : load 4 (mem st) (heap_listp st + 4) = MINIMUM + 1;
  L_prologue_ftr : load 4 (mem st) (heap_listp st + 24) = MINIMUM + 1;
  L_gap : size_of_word (load 4 (mem st) (heap_listp st + 40)) = 0;
  L_chain : chain (heap_listp st + 48) bs (mem_brk st);
  L_blocks : Forall (block_ok (mem st)) bs;
  L_epilogue : load 4 (mem st) (mem_brk st - 4) = 1
}.

(** ** The free list *)

(** The nodes of [l] are doubly linked: [prev] is the predecessor of the
    first and [nxt] the successor of the last. *)
Fixpoint dlist (m : memory) (prev : Z) (l : list Z) (nxt : Z) : Prop :=
  match l with
  | [] => True
  | x :: l' =>
      load 8 m x = prev /\ load 8 m (x + 8) = hd nxt l' /\ dlist m x l' nxt
  end.

(** The free list of [st] holds the nodes [l], in this order, and ends at
    the prologue. *)
Record links (st : state) (l : list Z) : Prop := {
  K_head : free_listp st = hd (heap_listp st + 8) l;
  K_dlist : dlist (mem st) 0 l (heap_listp st + 8);
  K_nodup : NoDup l
}.

Definition nodes (l : list Z) (bs : list block) : Prop :=
  forall x, In x l -> exists sz k, In (x, sz, k) bs.

Record R (st : state) (bs : list block) (l : list Z) : Prop := {
  R_layout : layout st bs;
  R_links : links st l;
  R_nodes : nodes l bs
}.

(** What no operation changes: the provider's bounds, [heap_listp], and the
    memory below the first block except the prologue's predecessor slot. *)
Record frame (st st' : state) : Prop := {
  F_heap : mem_heap st' = mem_heap st;
  F_max : mem_max_addr st' = mem_max_addr st;
  F_listp : heap_listp st' = heap_listp st;
  F_brk : mem_brk st <= mem_brk st';
  F_mem : forall a,
      a < heap_listp st + 8 \/ heap_listp st + 16 <= a < heap_listp st + 44 ->
      mem st' a = mem st a
}.

(** [kept bs l st st']: the bytes of the allocated blocks of [bs] (header,
    payload and footer), those at the addresses [l] apart, are in [st'] what
    they are in [st]. *)
Definition kept (bs : list block) (l : list Z) (st st' : state) : Prop :=
  forall x s a,
    In (x, s, KAlloc) bs -> ~ In x l -> x - WSIZE <= a < x + s - WSIZE ->
    mem st' a = mem st a.

(** What is left of a region from [p] to [e] when a block is carved at its
    start: nothing, or a block whose tags are still to be written. *)
Definition raw_rest (p e : Z) : list block :=
  if p =? e then [] else [(p, e - p, KRaw)].

(** ** What coalescing does to the blocks and to the free list *)

Definition is_free (k : kind) : bool :=
  match k with KFree => true | _ => false end.

Definition kind_bit (k : kind) : Z :=
  match k with KAlloc => 1 | _ => 0 end.

(** The neighbours of the block at [b] of size [sz], between [pre] and
    [post]; the first block has no predecessor and the last is followed by
    the epilogue header, both of which count as allocated. *)
Definition prev_block (pre : list block) (b : Z) : block :=
  last pre (b, 0, KAlloc).
Definition next_block (b sz : Z) (post : list block) : block :=
  hd (b + sz, 0, KAlloc) post.

(** The blocks, the free list and the result of [coalesce] on the free block
    [(b, sz)] in the heap [pre ++ (b, sz) :: post] with free list [l]. *)
Definition coalesced (pre : list block) (b sz : Z) (post : list block)
           (l : list Z) : list block * list Z * Z :=
  let pv := prev_block pre b in
  let nx := next_block b sz post in
  match is_free (bkind pv), is_free (bkind nx) with
  | false, false =>
      (pre ++ (b, sz, KFree) :: post, b :: l, b)
  | false, true =>
      (pre ++ (b, sz + bsize nx, KFree) :: tl post,
       b :: remove Z.eq_dec (baddr nx) l, b)
  | true, false =>
      (removelast pre ++ (baddr pv, bsize pv + sz, KFree) :: post,
       baddr pv :: remove Z.eq_dec (baddr pv) l, baddr pv)
  | true, true =>
      (removelast pre ++
         (baddr pv, bsize pv + sz + bsize nx, KFree) :: tl post,
       baddr pv ::
         remove Z.eq_dec (baddr nx) (remove Z.eq_dec (baddr pv) l),
       baddr pv)
  end.

(** What [find_fit] returns: [NULL] when no free block is large enough, or
    the first node of the free list that is. *)
Definition fit_result (bs : list block) (l : list Z) (asize r : Z) : Prop :=
  (r = NULL /\ forall x s, In (x, s, KFree) bs -> s < asize) \/
  (exists l1 l2 c,
      l = l1 ++ r :: l2 /\ In (r, c, KFree) bs /\ asize <= c /\
      forall x s, In x l1 -> In (x, s, KFree) bs -> s < asize).

(** The blocks and the free list after [place] of [asize] bytes in the free
    block [(b, c)]. *)
Definition placed (pre : list block) (b c : Z) (post : list block)
           (l : list Z) (asize : Z) : list block * list Z :=
  if c - asize >=? MINIMUM then
    fst (coalesced (pre ++ [(b, asize, KAlloc)]) (b + asize) (c - asize) post
                   (remove Z.eq_dec b l))
  else (pre ++ (b, c, KAlloc) :: post, remove Z.eq_dec b l).

(** The adjusted block size of a request, as [mm_malloc] and [mm_realloc]
    compute it. *)
Definition asize_of (size : Z) : Z := MAX (u64 (ALIGN size + DSIZE)) MINIMUM.

(** ** Invariants *)

(** Every block is tagged, and the free list holds exactly the free
    blocks. *)
Definition good (bs : list block) (l : list Z) : Prop :=
  forall x sz k, In (x, sz, k) bs -> k <> KRaw /\ (k = KFree <-> In x l).

(** [good], but for the block at [b]. *)
Definition good_but (b : Z) (bs : list block) (l : list Z) : Prop :=
  forall x sz k,
    In (x, sz, k) bs -> x <> b -> k <> KRaw /\ (k = KFree <-> In x l).

Fixpoint no_adj (bs : list block) : Prop :=
  match bs with
  | b1 :: ((b2 :: _) as tl) =>
      ~ (bkind b1 = KFree /\ bkind b2 = KFree) /\ no_adj tl
  | _ => True
  end.

Definition set_kind (k : kind) (b : block) : block := (baddr b, bsize b, k).

Definition allocated (bs : list block) (p : Z) : Prop :=
  exists sz, In (p, sz, KAlloc) bs.

(** [live] are the payloads handed out and not yet given back. *)
Definition Inv (st : state) (live : list Z) : Prop :=
  exists bs l,
    R st bs l /\ good bs l /\ no_adj bs /\
    forall p, In p live <-> allocated bs p.

(** ** Reading the heap back from the state *)

Definition hdr_size (st : state) (bp : Z) : Z :=
  size_of_word (load 4 (mem st) (HDRP bp)).
Definition hdr_alloc (st : state) (bp : Z) : Z :=
  alloc_of_word (load 4 (mem st) (HDRP bp)).

(** The payload addresses met by walking the heap with [NEXT_BLKP] from the
    first block, 2 * MINIMUM bytes above [heap_listp]; the walk stops at the
    epilogue header, whose size is 0. *)
Inductive heap_block (st : state) : Z -> Prop :=
| hb_first : heap_block st (heap_listp st + 2 * MINIMUM)
| hb_next bp :
    heap_block st bp -> 0 < hdr_size st bp ->
    heap_block st (bp + hdr_size st bp).

(** ** Traces of public operations *)

Inductive call : Type :=
| Malloc (size : Z)
| Free (ptr : Z)
| Realloc (ptr size : Z)
| Calloc (nmemb size : Z).

Definition exec (c : call) : M Z :=
  match c with
  | Malloc size => mm_malloc size
  | Free ptr => mm_free ptr ;; ret NULL
  | Realloc ptr size => mm_realloc ptr size
  | Calloc nmemb size => mm_calloc nmemb size
  end.

Definition is_size (n : Z) : Prop := 0 <= n < 2 ^ 64.

(** The caller's side of the contract: sizes are [size_t] values and a
    pointer given back is [NULL] or live. *)
Definition valid_call (live : list Z) (c : call) : Prop :=
  match c with
  | Malloc size => is_size size
  | Free ptr => ptr = NULL \/ In ptr live
  | Realloc ptr size => is_size size /\ (ptr = NULL \/ In ptr live)
  | Calloc nmemb size => is_size nmemb /\ is_size size
  end.

Definition add_live (r : Z) (live : list Z) : list Z :=
  if r =? NULL then live else r :: live.

Definition live_after (c : call) (r : Z) (live : list Z) : list Z :=
  match c with
  | Malloc _ => add_live r live
  | Free ptr => remove Z.eq_dec ptr live
  | Realloc ptr size =>
      if size =? 0 then remove Z.eq_dec ptr live
      else if r =? NULL then live
      else r :: remove Z.eq_dec ptr live
  | Calloc _ _ => add_live r live
  end.

(** The state [mm_init] starts from: nothing allocated yet, the provider's
    break double-word aligned and not [NULL], less than 4 GiB to hand out,
    and the word 8 bytes below the first block (which no store of [mm_init]
    reaches and [coalesce] reads through [PREV_BLKP]) of size 0, as in zero
    filled memory. *)
Record fresh (st : state) : Prop := {
  fresh_heap : 0 < mem_heap st <= mem_brk st;
  fresh_align : mem_brk st mod 8 = 0;
  fresh_brk : mem_brk st <= mem_max_addr st;
  fresh_max : mem_max_addr st < 2 ^ 64 - 1;
  fresh_small : mem_max_addr st - mem_brk st < 2 ^ 32;
  fresh_gap : size_of_word (load 4 (mem st) (mem_brk st + 40)) = 0
}.

(** The states of a run: [mm_init] succeeds, then the caller makes valid
    calls and, in between, stores bytes into the payloads it holds. *)
Inductive reachable : state -> list Z -> Prop :=
| reach_init st0 st :
    fresh st0 -> mm_init st0 = Ok 0 st -> reachable st []
| reach_call st live c r st' :
    reachable st live -> valid_call live c -> exec c st = Ok r st' ->
    reachable st' (live_after c r live)
| reach_store st live p off v :
    reachable st live -> In p live ->
    0 <= off < hdr_size st p - DSIZE ->
    reachable (with_mem st (upd (mem st) (p + off) v)) live.

(** What a call that returns establishes. *)
Definition returned (c : call) (r : Z) (live' : list Z) : Prop :=
  match c with
  | Free _ => r = NULL
  | _ => r = NULL \/ In r live'
  end.

Definition is_calloc (c : call) : Prop :=
  match c with Calloc _ _ => True | _ => False end.

(** The number of bytes [extend_heap] asks the provider for. *)
Definition extend_size (words : Z) : Z :=
  let size :=
    if negb (words mod 2 =? 0)
    then u64 ((words + 1) * WSIZE) else u64 (words * WSIZE) in
  if size <? MINIMUM then MINIMUM else size.

(** No free block of the heap is followed by a free block. *)
Definition no_adjacent_free (st : state) : Prop :=
  forall bp,
    heap_block st bp -> 0 < hdr_size st bp -> hdr_alloc st bp = 0 ->
    hdr_alloc st (bp + hdr_size st bp) = 1.

(** ** Concrete runs *)

(** A provider whose heap starts at address 4096, with [used] bytes handed
    out already and [room] bytes left, all memory zero. *)
Definition provider (used room : Z) : state :=
  mkState (fun _ => 0) 4096 (4096 + used) (4096 + used + room) 0 0.

(** The state a computation ends in ([st] itself when it does not return). *)
Definition after {A : Type} (m : M A) (st : state) : state :=
  match m st with Ok _ st' => st' | _ => st end.

Definition demo_init : state := after mm_init (provider 0 (20 * 2 ^ 20)).
Definition demo_one : state := after (mm_malloc 1) demo_init.

(** ** The prologue block *)

Definition bytes_at (m : memory) (a : Z) (n : nat) : list Z :=
  map (fun i => m (a + Z.of_nat i)) (seq 0 n).

(** Header, payload and footer of the prologue: the MINIMUM bytes from
    [heap_listp + WSIZE]. *)
Definition prologue_block (st : state) : list Z :=
  bytes_at (mem st) (heap_listp st + WSIZE) 24.
Definition prologue_header (st : state) : list Z :=
  bytes_at (mem st) (heap_listp st + WSIZE) 4.
Definition prologue_footer (st : state) : list Z :=
  bytes_at (mem st) (heap_listp st + MINIMUM) 4.
(** The eight bytes [SUCC] reads at the prologue's payload,
    [heap_listp + DSIZE]. *)
Definition prologue_succ (st : state) : list Z :=
  bytes_at (mem st) (heap_listp st + DSIZE + DSIZE) 8.

(** ** Scenarios *)

Definition scenario_reuse : M (Z * Z * Z * Z) :=
  r <- mm_init ;;
  p1 <- mm_malloc 1 ;;
  p2 <- mm_malloc 1 ;;
  mm_free p1 ;;
  p3 <- mm_malloc 1 ;;
  ret (r, p1, p2, p3).

(** The growing case of resize as the specification words it: allocate
    afresh, copy min(size, c - 2 words) bytes, free the old block. *)
Definition realloc_grow_described (ptr size : Z) : M Z :=
  c <- GET_SIZE (HDRP ptr) ;;
  newptr <- mm_malloc size ;;
  if newptr =? 0 then ret 0
  else
    memcpy newptr ptr (Z.min size (c - 2 * WSIZE)) ;;
    mm_free ptr ;;
    ret newptr.

(** ** The free list, read back from the state *)

(** [free_list_is st bp l]: the loop of [find_fit], started at [bp], visits
    the nodes [l] in this order, following [SUCC] while the allocated bit of
    the header is clear, and stops at a block whose bit is set. *)
Fixpoint free_list_is (st : state) (bp : Z) (l : list Z) : Prop :=
  match l with
  | [] => hdr_alloc st bp <> 0
  | x :: l' =>
      bp = x /\ hdr_alloc st x = 0 /\
      free_list_is st (load 8 (mem st) (x + DSIZE)) l'
  end.

(** The first node of [l] whose block holds [asize] bytes, [NULL] when
    there is none. *)
Definition first_fit (st : state) (asize : Z) (l : list Z) : Z :=
  match find (fun x => asize <=? hdr_size st x) l with
  | Some x => x
  | None => NULL
  end.

(** A free block met by the walk over the heap. *)
Definition free_block (st : state) (bp : Z) : Prop :=
  heap_block st bp /\ 0 < hdr_size st bp /\ hdr_alloc st bp = 0.

Definition demo_pair : state := after (mm_malloc 1) demo_one.

(* ================================================================== *)
(** * Part III: the words of the block format *)
(* ================================================================== *)

Lemma u64_small x : 0 <= x < 2 ^ 64 -> u64 x = x.
Proof. intros H. unfold u64. apply Z.mod_small. exact H. Qed.

Lemma u32_small x : 0 <= x < 2 ^ 32 -> u32 x = x.
Proof. intros H. unfold u32. apply Z.mod_small. exact H. Qed.

Lemma land_minus8 w : Z.land w (Z.lnot 7) = 8 * (w / 8).
Proof.
  rewrite <- Z.ldiff_land.
  change 7 with (Z.ones 3).
  rewrite Z.ldiff_ones_r by lia.
  rewrite Z.shiftl_mul_pow2, Z.shiftr_div_pow2 by lia.
  change (2 ^ 3) with 8. lia.
Qed.

Lemma land_mask k w :
  0 <= k -> 0 <= w < 2 ^ k ->
  Z.land w ((Z.lnot 7) mod 2 ^ k) = 8 * (w / 8).
Proof.
  intros Hk Hw.
  rewrite <- Z.land_ones by lia.
  rewrite Z.land_assoc, (Z.land_comm w (Z.lnot 7)), <- Z.land_assoc.
  rewrite Z.land_ones, Z.mod_small by lia.
  rewrite Z.land_comm. apply land_minus8.
Qed.

Lemma size_of_word_eq w : 0 <= w < 2 ^ 32 -> size_of_word w = 8 * (w / 8).
Proof. intros H. unfold size_of_word, u32. apply land_mask; lia. Qed.

Lemma alloc_of_word_eq w : alloc_of_word w = w mod 2.
Proof.
  unfold alloc_of_word. change 1 with (Z.ones 1).
  rewrite Z.land_ones by lia. reflexivity.
Qed.

Lemma ALIGN_eq s :
  0 <= s -> s + 7 < 2 ^ 64 -> ALIGN s = 8 * ((s + 7) / 8).
Proof.
  intros H0 H1. unfold ALIGN, ALIGNMENT.
  replace (s + (8 - 1)) with (s + 7) by lia.
  rewrite (u64_small (s + 7)) by lia.
  unfold u64. apply land_mask; lia.
Qed.

Lemma ALIGN_range s : 0 <= ALIGN s < 2 ^ 64 /\ ALIGN s mod 8 = 0.
Proof.
  unfold ALIGN.
  set (x := u64 (s + (ALIGNMENT - 1))).
  assert (H : 0 <= x < 2 ^ 64)
    by (unfold x, u64; apply Z.mod_pos_bound; lia).
  unfold u64. rewrite land_mask by lia.
  pose proof (Z.mul_div_le x 8).
  pose proof (Z.div_pos x 8).
  rewrite (Z.mul_comm 8), Z_mod_mult. lia.
Qed.

Lemma PACK_0 sz : PACK sz 0 = sz.
Proof. unfold PACK. apply Z.lor_0_r. Qed.

Lemma PACK_1 sz : sz mod 2 = 0 -> PACK sz 1 = sz + 1.
Proof.
  intros H. unfold PACK.
  rewrite <- Z.lxor_lor, <- Z.add_nocarry_lxor; try reflexivity;
    change 1 with (Z.ones 1); rewrite Z.land_ones by lia; exact H.
Qed.

(** ** Loads and stores *)

Lemma load_range n m a : 0 <= load n m a < 256 ^ Z.of_nat n.
Proof.
  revert a. induction n as [|k IH]; intros a.
  - simpl. lia.
  - rewrite Nat2Z.inj_succ, Z.pow_succ_r by lia.
    cbn [load]. specialize (IH (a + 1)).
    pose proof (Z.mod_pos_bound (m a) 256). lia.
Qed.

Lemma store_outside n m a v x :
  x < a \/ a + Z.of_nat n <= x -> store n m a v x = m x.
Proof.
  revert m a v. induction n as [|k IH]; intros m a v H.
  - reflexivity.
  - cbn [store]. rewrite IH by lia.
    unfold upd. destruct (Z.eqb_spec x a); [lia | reflexivity].
Qed.

Lemma load_ext n m m' a :
  (forall x, a <= x < a + Z.of_nat n -> m' x = m x) ->
  load n m' a = load n m a.
Proof.
  revert a. induction n as [|k IH]; intros a H.
  - reflexivity.
  - cbn [load]. rewrite H by lia. rewrite IH; [reflexivity |].
    intros x Hx. apply H. lia.
Qed.

Lemma load_store_disj k n m a v b :
  a + Z.of_nat n <= b \/ b + Z.of_nat k <= a ->
  load k (store n m a v) b = load k m b.
Proof.
  intros H. apply load_ext. intros x Hx. apply store_outside. lia.
Qed.

Lemma load_store_same n m a v :
  load n (store n m a v) a = v mod 256 ^ Z.of_nat n.
Proof.
  revert m a v. induction n as [|k IH]; intros m a v.
  - simpl. rewrite Z.mod_1_r. reflexivity.
  - rewrite Nat2Z.inj_succ, Z.pow_succ_r by lia.
    rewrite Z.rem_mul_r by lia.
    cbn [load store]. rewrite IH.
    rewrite store_outside by lia.
    unfold upd. rewrite Z.eqb_refl.
    rewrite Z.mod_mod by lia. reflexivity.
Qed.

Lemma load4_store4 m a v :
  0 <= v < 2 ^ 32 -> load 4 (store 4 m a v) a = v.
Proof. intros H. rewrite load_store_same. apply Z.mod_small. exact H. Qed.

Lemma load8_store8 m a v :
  0 <= v < 2 ^ 64 -> load 8 (store 8 m a v) a = v.
Proof. intros H. rewrite load_store_same. apply Z.mod_small. exact H. Qed.

Lemma load_copy_disj k m dst src n b :
  dst + n <= b \/ b + Z.of_nat k <= dst ->
  load k (mem_copy m dst src n) b = load k m b.
Proof.
  intros H. apply load_ext. intros x Hx. unfold mem_copy.
  destruct (Z.leb_spec dst x), (Z.ltb_spec x (dst + n)); simpl;
    try reflexivity; lia.
Qed.

Lemma load_fill_disj k m dst c n b :
  dst + n <= b \/ b + Z.of_nat k <= dst ->
  load k (mem_fill m dst c n) b = load k m b.
Proof.
  intros H. apply load_ext. intros x Hx. unfold mem_fill.
  destruct (Z.leb_spec dst x), (Z.ltb_spec x (dst + n)); simpl;
    try reflexivity; lia.
Qed.

(** ** Running computations *)

Ltac slia := cbn [Z.of_nat Pos.of_succ_nat Pos.succ]; lia.

Lemma wp_ret A (a : A) (Q : A -> state -> Prop) st : Q a st -> wp (ret a) Q st.
Proof. intros H. exact H. Qed.

Lemma wp_bind A B (m : M A) (f : A -> M B) (Q : B -> state -> Prop) st :
  wp m (fun a s => wp (f a) Q s) st -> wp (bind m f) Q st.
Proof. unfold wp, bind. destruct (m st); auto. Qed.

Lemma wp_mono A (m : M A) (P Q : A -> state -> Prop) st :
  wp m P st -> (forall a s, P a s -> Q a s) -> wp m Q st.
Proof. unfold wp. destruct (m st); auto. Qed.

Lemma wp_run A (m : M A) (Q : A -> state -> Prop) st a st' :
  m st = Ok a st' -> Q a st' -> wp m Q st.
Proof. unfold wp. intros ->. auto. Qed.

Lemma wp_bind_run A B (m : M A) (f : A -> M B) (Q : B -> state -> Prop)
      st a st' :
  m st = Ok a st' -> wp (f a) Q st' -> wp (bind m f) Q st.
Proof. unfold wp, bind. intros ->. auto. Qed.

Lemma wp_inv A (m : M A) (Q : A -> state -> Prop) st :
  wp m Q st -> exists a st', m st = Ok a st' /\ Q a st'.
Proof. unfold wp. destruct (m st); try tauto. eauto. Qed.

Lemma bind_run A B (m : M A) (f : A -> M B) st a st' :
  m st = Ok a st' -> bind m f st = f a st'.
Proof. unfold bind. intros ->. reflexivity. Qed.

Lemma valid_true st a n :
  mem_heap st <= a -> a + n <= mem_brk st -> valid st a n = true.
Proof.
  intros H1 H2. unfold valid.
  apply andb_true_intro. split; apply Z.leb_le; assumption.
Qed.

Lemma run_load n a st :
  mem_heap st <= a -> a + Z.of_nat n <= mem_brk st ->
  load_at n a st = Ok (load n (mem st) a) st.
Proof. intros H1 H2. unfold load_at. rewrite valid_true; auto. Qed.

Lemma run_store n a v st :
  mem_heap st <= a -> a + Z.of_nat n <= mem_brk st ->
  store_at n a v st = Ok tt (with_mem st (store n (mem st) a v)).
Proof. intros H1 H2. unfold store_at. rewrite valid_true; auto. Qed.

Lemma run_GET p st :
  mem_heap st <= p -> p + 4 <= mem_brk st ->
  GET p st = Ok (load 4 (mem st) p) st.
Proof. intros. apply run_load; slia. Qed.

Lemma run_PUT p v st :
  mem_heap st <= p -> p + 4 <= mem_brk st ->
  PUT p v st = Ok tt (with_mem st (store 4 (mem st) p v)).
Proof. intros. apply run_store; slia. Qed.

Lemma run_GET_SIZE p st :
  mem_heap st <= p -> p + 4 <= mem_brk st ->
  GET_SIZE p st = Ok (size_of_word (load 4 (mem st) p)) st.
Proof.
  intros. unfold GET_SIZE. erewrite bind_run by (apply run_GET; assumption).
  reflexivity.
Qed.

Lemma run_GET_ALLOC p st :
  mem_heap st <= p -> p + 4 <= mem_brk st ->
  GET_ALLOC p st = Ok (alloc_of_word (load 4 (mem st) p)) st.
Proof.
  intros. unfold GET_ALLOC. erewrite bind_run by (apply run_GET; assumption).
  reflexivity.
Qed.

Lemma run_PRED bp st :
  mem_heap st <= bp -> bp + 8 <= mem_brk st ->
  PRED bp st = Ok (load 8 (mem st) bp) st.
Proof. intros. apply run_load; slia. Qed.

Lemma run_SUCC bp st :
  mem_heap st <= bp + 8 -> bp + 16 <= mem_brk st ->
  SUCC bp st = Ok (load 8 (mem st) (bp + 8)) st.
Proof. intros. apply run_load; unfold DSIZE; slia. Qed.

Lemma run_SET_PRED bp v st :
  mem_heap st <= bp -> bp + 8 <= mem_brk st ->
  SET_PRED bp v st = Ok tt (with_mem st (store 8 (mem st) bp v)).
Proof. intros. apply run_store; slia. Qed.

Lemma run_SET_SUCC bp v st :
  mem_heap st <= bp + 8 -> bp + 16 <= mem_brk st ->
  SET_SUCC bp v st = Ok tt (with_mem st (store 8 (mem st) (bp + 8) v)).
Proof. intros. apply run_store; unfold DSIZE; slia. Qed.

Ltac simpl_st :=
  cbn [mem mem_heap mem_brk mem_max_addr heap_listp free_listp
       with_mem with_brk with_heap_listp with_free_listp] in *.

(** ** Tag words *)

Lemma mod8_div sz : sz mod 8 = 0 -> 8 * (sz / 8) = sz.
Proof. intros H. pose proof (Z.div_mod sz 8). lia. Qed.

Lemma mod8_add a b : a mod 8 = 0 -> b mod 8 = 0 -> (a + b) mod 8 = 0.
Proof.
  intros Ha Hb. rewrite Z.add_mod, Ha, Hb by lia. reflexivity.
Qed.

Lemma mod8_sub a b : a mod 8 = 0 -> b mod 8 = 0 -> (a - b) mod 8 = 0.
Proof.
  intros Ha Hb. rewrite Zminus_mod, Ha, Hb. reflexivity.
Qed.

Lemma mod8_mod2 a : a mod 8 = 0 -> a mod 2 = 0.
Proof.
  intros H. apply mod8_div in H. rewrite <- H.
  replace (8 * (a / 8)) with ((4 * (a / 8)) * 2) by lia.
  apply Z_mod_mult.
Qed.

Lemma size_of_tag sz k :
  0 <= sz < 2 ^ 32 -> sz mod 8 = 0 -> size_of_word (tag sz k) = sz.
Proof.
  intros Hr Hm. pose proof (mod8_div sz Hm) as Hd.
  assert (Hle : sz <= 2 ^ 32 - 8) by lia.
  destruct k; cbn [tag]; rewrite size_of_word_eq by lia; try exact Hd.
  replace (sz + 1) with (1 + (sz / 8) * 8) by lia.
  rewrite Z.div_add by lia. change (1 / 8) with 0. lia.
Qed.

Lemma alloc_of_tag sz k :
  sz mod 8 = 0 ->
  alloc_of_word (tag sz k) = match k with KAlloc => 1 | _ => 0 end.
Proof.
  intros Hm. pose proof (mod8_mod2 sz Hm) as H2.
  rewrite alloc_of_word_eq.
  destruct k; cbn [tag]; try exact H2.
  rewrite Z.add_mod, H2 by lia. reflexivity.
Qed.

Lemma PACK_alloc sz : sz mod 8 = 0 -> PACK sz 1 = tag sz KAlloc.
Proof. intros H. apply PACK_1. apply mod8_mod2. exact H. Qed.

Lemma PACK_free sz : PACK sz 0 = tag sz KFree.
Proof. apply PACK_0. Qed.

Lemma tag_range sz k : 0 <= sz < 2 ^ 32 -> sz mod 8 = 0 -> 0 <= tag sz k < 2 ^ 32.
Proof.
  intros Hr Hm. pose proof (mod8_div sz Hm).
  destruct k; cbn [tag]; lia.
Qed.

(** ** Chains of blocks *)

Lemma blocks_sized m bs : Forall (block_ok m) bs -> sized bs.
Proof.
  unfold sized. apply Forall_impl. intros b (H1 & H2 & _). auto.
Qed.

Lemma sized_in bs b :
  sized bs -> In b bs -> MINIMUM <= bsize b /\ bsize b mod 8 = 0.
Proof. intros Hs Hin. exact (proj1 (Forall_forall _ _) Hs _ Hin). Qed.

Lemma sized_app xs ys : sized (xs ++ ys) <-> sized xs /\ sized ys.
Proof. unfold sized. apply Forall_app. Qed.

Lemma chain_app p xs ys q :
  chain p (xs ++ ys) q <-> exists r, chain p xs r /\ chain r ys q.
Proof.
  revert p. induction xs as [|b xs IH]; intros p; simpl.
  - split.
    + intros H. exists p. auto.
    + intros (r & -> & H). exact H.
  - rewrite IH. split.
    + intros (Hb & r & H1 & H2). exists r. auto.
    + intros (r & (Hb & H1) & H2). split; [exact Hb|]. exists r. auto.
Qed.

Lemma chain_fun p bs q q' : chain p bs q -> chain p bs q' -> q = q'.
Proof.
  revert p. induction bs as [|b bs IH]; intros p; simpl.
  - intros <- <-. reflexivity.
  - intros (_ & H1) (_ & H2). eauto.
Qed.

Lemma chain_le p bs q : sized bs -> chain p bs q -> p <= q.
Proof.
  unfold MINIMUM. revert p. induction bs as [|b bs IH]; intros p Hs; simpl.
  - lia.
  - intros (Hb & H). inversion Hs; subst.
    apply IH in H; auto. unfold MINIMUM in *. lia.
Qed.

Lemma chain_mod8 p bs q : sized bs -> chain p bs q -> (q - p) mod 8 = 0.
Proof.
  revert p. induction bs as [|b bs IH]; intros p Hs; simpl.
  - intros <-. rewrite Z.sub_diag. reflexivity.
  - intros (Hb & H). inversion Hs as [|? ? (H1 & H2) Hs']; subst.
    apply IH in H; auto.
    replace (q - baddr b) with ((q - (baddr b + bsize b)) + bsize b) by lia.
    apply mod8_add; auto.
Qed.

Lemma chain_cons_le p b bs q :
  sized (b :: bs) -> chain p (b :: bs) q -> p + MINIMUM <= q.
Proof.
  intros Hs (Hb & H). inversion Hs as [|? ? (H1 & H2) Hs']; subst.
  apply chain_le in H; auto. lia.
Qed.

Lemma chain_split p xs b ys q :
  chain p (xs ++ b :: ys) q ->
  chain p xs (baddr b) /\ chain (baddr b + bsize b) ys q.
Proof.
  rewrite chain_app. intros (r & H1 & H2 & H3). subst r. auto.
Qed.

Lemma chain_in p bs q b :
  sized bs -> chain p bs q -> In b bs ->
  p <= baddr b /\ baddr b + bsize b <= q.
Proof.
  intros Hs Hc Hin. apply in_split in Hin. destruct Hin as (xs & ys & ->).
  apply sized_app in Hs. destruct Hs as (Hx & Hy).
  inversion Hy as [|? ? Hb Hy']; subst.
  apply chain_split in Hc. destruct Hc as (H1 & H2).
  apply chain_le in H1; auto. apply chain_le in H2; auto.
Qed.

Lemma chain_sep p bs q b1 b2 :
  sized bs -> chain p bs q -> In b1 bs -> In b2 bs ->
  b1 = b2 \/ baddr b1 + bsize b1 <= baddr b2
  \/ baddr b2 + bsize b2 <= baddr b1.
Proof.
  intros Hs Hc Hi1 Hi2. apply in_split in Hi1. destruct Hi1 as (xs & ys & ->).
  apply sized_app in Hs. destruct Hs as (Hx & Hy).
  inversion Hy as [|? ? Hb Hy']; subst.
  apply chain_split in Hc. destruct Hc as (Hc1 & Hc2).
  apply in_app_or in Hi2. destruct Hi2 as [H2 | [H2 | H2]].
  - right. right. eapply chain_in in Hc1; eauto. lia.
  - left. exact H2.
  - right. left. eapply chain_in in Hc2; eauto. lia.
Qed.

(** ** Blocks of a laid out heap *)

Lemma layout_sized st bs : layout st bs -> sized bs.
Proof. intros H. eapply blocks_sized, L_blocks; eauto. Qed.

Lemma layout_in st bs x sz k :
  layout st bs -> In (x, sz, k) bs ->
  heap_listp st + 48 <= x /\ x + sz <= mem_brk st /\
  MINIMUM <= sz /\ sz mod 8 = 0 /\ sz < 2 ^ 32 /\ x mod 8 = 0.
Proof.
  intros HL Hin. pose proof (layout_sized _ _ HL) as Hs.
  pose proof (chain_in _ _ _ _ Hs (L_chain _ _ HL) Hin) as (H1 & H2).
  cbn [baddr bsize fst snd] in *.
  pose proof (proj1 (Forall_forall _ _) Hs _ Hin) as (H3 & H4).
  cbn [bsize fst snd] in *.
  pose proof (L_heap _ _ HL). pose proof (L_brk _ _ HL).
  pose proof (L_small _ _ HL).
  repeat split; try lia.
  apply in_split in Hin. destruct Hin as (xs & ys & ->).
  pose proof (L_chain _ _ HL) as Hc. apply chain_split in Hc.
  destruct Hc as (Hc & _). cbn [baddr fst] in Hc.
  apply sized_app in Hs. destruct Hs as (Hs & _).
  pose proof (chain_mod8 _ _ _ Hs Hc) as Hm.
  pose proof (L_align _ _ HL) as Ha.
  replace x with ((x - (heap_listp st + 48)) + (heap_listp st + 48)) by lia.
  apply mod8_add; auto. apply mod8_add; auto.
Qed.

Lemma layout_brk st bs : layout st bs -> heap_listp st + 48 <= mem_brk st.
Proof.
  intros HL. eapply chain_le; [eapply layout_sized | eapply L_chain]; eauto.
Qed.

Lemma layout_sep st bs x1 s1 k1 x2 s2 k2 :
  layout st bs -> In (x1, s1, k1) bs -> In (x2, s2, k2) bs ->
  (x1 = x2 /\ s1 = s2 /\ k1 = k2) \/ x1 + s1 <= x2 \/ x2 + s2 <= x1.
Proof.
  intros HL H1 H2.
  destruct (chain_sep _ _ _ _ _ (layout_sized _ _ HL) (L_chain _ _ HL) H1 H2)
    as [E | [E | E]]; cbn [baddr bsize fst snd] in E.
  - left. inversion E. auto.
  - right. left. exact E.
  - right. right. exact E.
Qed.

Lemma layout_tags st bs x sz k :
  layout st bs -> In (x, sz, k) bs -> k <> KRaw ->
  load 4 (mem st) (x - 4) = tag sz k /\
  load 4 (mem st) (x + sz - 8) = tag sz k.
Proof.
  intros HL Hin Hk.
  pose proof (proj1 (Forall_forall _ _) (L_blocks _ _ HL) _ Hin)
    as (_ & _ & H).
  apply H. exact Hk.
Qed.

(** ** Stores that leave the layout alone *)

Lemma layout_globals st bs st' :
  layout st bs ->
  mem st' = mem st -> mem_heap st' = mem_heap st ->
  mem_brk st' = mem_brk st -> mem_max_addr st' = mem_max_addr st ->
  heap_listp st' = heap_listp st ->
  layout st' bs.
Proof.
  intros [] Hm Hh Hb Hx Hl.
  constructor; rewrite ?Hm, ?Hh, ?Hb, ?Hx, ?Hl; assumption.
Qed.

Lemma frame_refl st : frame st st.
Proof. constructor; auto. lia. Qed.

Lemma frame_trans st1 st2 st3 : frame st1 st2 -> frame st2 st3 -> frame st1 st3.
Proof.
  intros H1 H2.
  pose proof (F_heap _ _ H1). pose proof (F_heap _ _ H2).
  pose proof (F_max _ _ H1). pose proof (F_max _ _ H2).
  pose proof (F_listp _ _ H1) as E1. pose proof (F_listp _ _ H2).
  pose proof (F_brk _ _ H1). pose proof (F_brk _ _ H2).
  constructor; try congruence; try lia.
  intros a Ha. rewrite (F_mem _ _ H2) by (rewrite E1; exact Ha).
  apply (F_mem _ _ H1). exact Ha.
Qed.

Lemma frame_globals st st' :
  mem st' = mem st -> mem_heap st' = mem_heap st ->
  mem_brk st' = mem_brk st -> mem_max_addr st' = mem_max_addr st ->
  heap_listp st' = heap_listp st ->
  frame st st'.
Proof. intros Hm Hh Hb Hx Hl. constructor; try congruence. lia. Qed.

(** ** Payloads that are left alone *)

Lemma kept_refl bs l st : kept bs l st st.
Proof. intros x s a _ _ _. reflexivity. Qed.

Lemma kept_trans bs l st1 st2 st3 :
  kept bs l st1 st2 -> kept bs l st2 st3 -> kept bs l st1 st3.
Proof.
  intros H1 H2 x s a Hin Hl Ha.
  rewrite (H2 x s a Hin Hl Ha). exact (H1 x s a Hin Hl Ha).
Qed.

Lemma kept_globals bs l st st' : mem st' = mem st -> kept bs l st st'.
Proof. intros E x s a _ _ _. rewrite E. reflexivity. Qed.

Lemma kept_weaken bs l bs' l' st st' :
  kept bs' l' st st' ->
  (forall x s, In (x, s, KAlloc) bs -> ~ In x l ->
               In (x, s, KAlloc) bs' /\ ~ In x l') ->
  kept bs l st st'.
Proof.
  intros H Hw x s a Hin Hl Ha. destruct (Hw x s Hin Hl) as (H1 & H2).
  exact (H x s a H1 H2 Ha).
Qed.

(** The side condition of [kept_weaken] on explicit lists. *)
Ltac kept_side :=
  let x := fresh "x" in
  let s := fresh "s" in
  let Hx := fresh "Hx" in
  let Hl := fresh "Hl" in
  let C := fresh "C" in
  intros x s Hx Hl; split;
  [ rewrite ?in_app_iff in *; cbn [In] in *;
    intuition (discriminate || congruence)
  | intros C; apply Hl; cbn [In] in C |- *;
    first
      [ contradiction
      | destruct C as [C | C];
        [ first [ left; exact C | right; rewrite <- C; assumption ]
        | right; repeat (apply in_remove in C; destruct C as (C & _));
          exact C ]
      | repeat (apply in_remove in C; destruct C as (C & _));
        first [ exact C | right; exact C ] ] ].

Ltac kept_via W := eapply kept_weaken; [exact W | kept_side].

(** A store inside a block that is not allocated, or is set apart. *)
Lemma kept_store_block st bs l n w v y sy ky :
  layout st bs -> In (y, sy, ky) bs -> ky <> KAlloc \/ In y l ->
  y - 4 <= w -> w + Z.of_nat n <= y + sy - 4 ->
  kept bs l st (with_mem st (store n (mem st) w v)).
Proof.
  intros HL Hy Hk H1 H2 x s a Hx Hl Ha. cbn [mem with_mem].
  apply store_outside. unfold WSIZE in Ha.
  destruct (layout_sep _ _ _ _ _ _ _ _ HL Hx Hy) as [(E1 & _ & E3) | E].
  - exfalso. subst. destruct Hk as [Hk | Hk]; [apply Hk; reflexivity|].
    apply Hl. exact Hk.
  - lia.
Qed.

(** A store below the first block. *)
Lemma kept_store_low st bs l n w v :
  layout st bs -> w + Z.of_nat n <= heap_listp st + 44 ->
  kept bs l st (with_mem st (store n (mem st) w v)).
Proof.
  intros HL Hw x s a Hx _ Ha. cbn [mem with_mem]. unfold WSIZE in Ha.
  apply store_outside.
  pose proof (layout_in _ _ _ _ _ HL Hx) as (A1 & _). lia.
Qed.


(** A store of [n] bytes at [w] that misses the prologue's tags, the word
    below the first block, the epilogue header and every boundary tag. *)
Lemma layout_store st bs n w v :
  layout st bs ->
  heap_listp st + 8 <= w ->
  w + Z.of_nat n <= heap_listp st + 16 \/ heap_listp st + 44 <= w ->
  w + Z.of_nat n <= mem_brk st - 4 ->
  (forall x sz k, In (x, sz, k) bs -> k <> KRaw ->
     (w + Z.of_nat n <= x - 4 \/ x <= w) /\
     (w + Z.of_nat n <= x + sz - 8 \/ x + sz - 4 <= w)) ->
  layout (with_mem st (store n (mem st) w v)) bs /\
  frame st (with_mem st (store n (mem st) w v)).
Proof.
  intros HL H1 H2 H3 H4. split.
  - pose proof (L_blocks _ _ HL) as HB.
    destruct HL. constructor; simpl_st; auto;
      try (rewrite load_store_disj by slia; assumption).
    rewrite Forall_forall in *. intros [[x sz] k] Hin.
    specialize (HB _ Hin). destruct HB as (Ha & Hb & Hc).
    unfold block_ok. cbn [baddr bsize bkind fst snd] in *.
    split; [exact Ha|]. split; [exact Hb|]. intros Hk.
    specialize (H4 _ _ _ Hin Hk).
    rewrite !load_store_disj by slia. auto.
  - constructor; simpl_st; auto; try lia.
    intros a Ha. apply store_outside. lia.
Qed.

Lemma layout_link_store st bs x sz k w v :
  layout st bs -> In (x, sz, k) bs -> w = x \/ w = x + 8 ->
  layout (with_mem st (store 8 (mem st) w v)) bs /\
  frame st (with_mem st (store 8 (mem st) w v)).
Proof.
  intros HL Hin Hw.
  pose proof (layout_in _ _ _ _ _ HL Hin) as (A1 & A2 & A3 & A4 & A5 & A6).
  unfold MINIMUM in *.
  apply layout_store; auto; try slia.
  intros y sy ky Hy Hk.
  pose proof (layout_in _ _ _ _ _ HL Hy) as (B1 & B2 & B3 & B4 & B5 & B6).
  unfold MINIMUM in *.
  destruct (layout_sep _ _ _ _ _ _ _ _ HL Hin Hy) as [(E1 & E2 & E3) | E];
    subst; slia.
Qed.

Lemma layout_pro_store st bs v :
  layout st bs ->
  layout (with_mem st (store 8 (mem st) (heap_listp st + 8) v)) bs /\
  frame st (with_mem st (store 8 (mem st) (heap_listp st + 8) v)).
Proof.
  intros HL. pose proof (layout_brk _ _ HL).
  apply layout_store; auto; try slia.
  intros y sy ky Hy Hk.
  pose proof (layout_in _ _ _ _ _ HL Hy) as (B1 & B2 & B3 & B4 & B5 & B6).
  unfold MINIMUM in *. slia.
Qed.

(** ** Doubly linked lists *)

Lemma last_cons (a : Z) l d : last (a :: l) d = last l a.
Proof.
  revert a d. induction l as [|b l IH]; intros a d; [reflexivity|].
  change (last (a :: b :: l) d) with (last (b :: l) d).
  rewrite (IH b d), (IH b a). reflexivity.
Qed.

Lemma hd_app (q : Z) l1 l2 : hd q (l1 ++ l2) = hd (hd q l2) l1.
Proof. destruct l1; reflexivity. Qed.

Lemma dlist_app m p l1 l2 q :
  dlist m p (l1 ++ l2) q <->
  dlist m p l1 (hd q l2) /\ dlist m (last l1 p) l2 q.
Proof.
  revert p. induction l1 as [|a l1 IH]; intros p.
  - simpl. tauto.
  - rewrite last_cons. cbn [app dlist]. rewrite IH, hd_app. tauto.
Qed.

Lemma dlist_ext m m' p l q :
  dlist m p l q ->
  (forall x, In x l ->
     load 8 m' x = load 8 m x /\ load 8 m' (x + 8) = load 8 m (x + 8)) ->
  dlist m' p l q.
Proof.
  revert p. induction l as [|a l IH]; intros p; cbn [dlist]; auto.
  intros (H1 & H2 & H3) H.
  destruct (H a (or_introl eq_refl)) as (E1 & E2).
  rewrite E1, E2. repeat split; auto.
  apply IH; auto. intros x Hx. apply H. right. exact Hx.
Qed.

Lemma dlist_store m p l q n w v :
  dlist m p l q ->
  (forall x, In x l -> w + Z.of_nat n <= x \/ x + 16 <= w) ->
  dlist (store n m w v) p l q.
Proof.
  intros H Hd. eapply dlist_ext; eauto.
  intros x Hx. specialize (Hd x Hx).
  rewrite !load_store_disj by slia. auto.
Qed.

Lemma links_store st l n w v :
  links st l ->
  (forall x, In x l -> w + Z.of_nat n <= x \/ x + 16 <= w) ->
  links (with_mem st (store n (mem st) w v)) l.
Proof.
  intros [] Hd. constructor; simpl_st; auto.
  apply dlist_store; auto.
Qed.

Lemma remove_middle (x : Z) l1 l2 :
  ~ In x l1 -> ~ In x l2 ->
  remove Z.eq_dec x (l1 ++ x :: l2) = l1 ++ l2.
Proof.
  intros H1 H2. rewrite remove_app, remove_cons.
  rewrite !notin_remove; auto.
Qed.

(** ** Nodes of the free list *)

Lemma nodes_in st bs l x :
  layout st bs -> nodes l bs -> In x l ->
  heap_listp st + 48 <= x /\ x + MINIMUM <= mem_brk st.
Proof.
  intros HL HN Hx. destruct (HN x Hx) as (sz & k & Hin).
  pose proof (layout_in _ _ _ _ _ HL Hin). lia.
Qed.

Lemma blocks_apart st bs x sx kx y sy ky :
  layout st bs -> In (x, sx, kx) bs -> In (y, sy, ky) bs -> x <> y ->
  x + MINIMUM <= y \/ y + MINIMUM <= x.
Proof.
  intros HL Hx Hy Hne.
  pose proof (layout_in _ _ _ _ _ HL Hx).
  pose proof (layout_in _ _ _ _ _ HL Hy).
  destruct (layout_sep _ _ _ _ _ _ _ _ HL Hx Hy) as [(E & _) | E]; lia.
Qed.

Lemma nodes_apart st bs l x y :
  layout st bs -> nodes l bs -> In x l -> In y l -> x <> y ->
  x + MINIMUM <= y \/ y + MINIMUM <= x.
Proof.
  intros HL HN Hx Hy Hne.
  destruct (HN x Hx) as (sx & kx & Hbx).
  destruct (HN y Hy) as (sy & ky & Hby).
  eapply blocks_apart; eauto.
Qed.

Lemma node_block_apart st bs l x y sy ky :
  layout st bs -> nodes l bs -> In x l -> In (y, sy, ky) bs -> x <> y ->
  x + MINIMUM <= y \/ y + MINIMUM <= x.
Proof.
  intros HL HN Hx Hy Hne.
  destruct (HN x Hx) as (sx & kx & Hbx).
  eapply blocks_apart; eauto.
Qed.

(** ** Insertion at the head of the free list *)

Lemma layout_bounds st bs :
  layout st bs ->
  0 < mem_heap st /\ mem_heap st <= heap_listp st /\
  heap_listp st + 48 <= mem_brk st /\ mem_brk st < 2 ^ 64 - 1.
Proof.
  intros HL. pose proof (layout_brk _ _ HL).
  pose proof (L_heap _ _ HL). pose proof (L_brk _ _ HL).
  pose proof (L_max _ _ HL). lia.
Qed.

Lemma hd_cases (q : Z) l : (l = [] /\ hd q l = q) \/ exists l', l = hd q l :: l'.
Proof. destruct l as [|a l']; [left; auto | right; exists l'; reflexivity]. Qed.

Lemma fcons_spec st bs l b sz k (Q : unit -> state -> Prop) :
  R st bs l -> In (b, sz, k) bs -> ~ In b l ->
  (forall st',
      R st' bs (b :: l) -> frame st st' -> mem_brk st' = mem_brk st ->
      kept bs (b :: l) st st' -> Q tt st') ->
  wp (fcons b) Q st.
Proof.
  intros [HL HK HN] Hb Hnin HQ.
  pose proof (layout_in _ _ _ _ _ HL Hb) as (B1 & B2 & B3 & B4 & B5 & B6).
  pose proof (layout_bounds _ _ HL) as (G1 & G2 & G3 & G4).
  unfold MINIMUM in *.
  destruct HK as [Khd Kdl Knd].
  unfold fcons.
  eapply wp_bind_run; [reflexivity|]. rewrite Khd.
  remember (hd (heap_listp st + 8) l) as fl eqn:Efl.
  eapply wp_bind_run; [apply run_SET_SUCC; lia|].
  eapply wp_bind_run; [reflexivity|]. simpl_st. rewrite Khd.
  destruct (layout_link_store _ _ _ _ _ (b + 8) fl HL Hb (or_intror eq_refl))
    as (HL1 & HF1).
  pose proof (kept_store_block st bs (b :: l) 8 (b + 8) fl b sz k HL Hb
                (or_intror (or_introl eq_refl)) ltac:(lia) ltac:(slia)) as W1.
  set (m1 := store 8 (mem st) (b + 8) fl) in *.
  assert (Hfl : heap_listp st + 8 <= fl /\ fl + 16 <= mem_brk st /\
                (fl + 16 <= b \/ b + 24 <= fl) /\
                (forall y, In y l -> y <> fl -> fl + 8 <= y \/ y + 16 <= fl) /\
                exists m2,
                  layout (with_mem (with_mem st m1) m2) bs /\
                  frame (with_mem st m1) (with_mem (with_mem st m1) m2) /\
                  m2 = store 8 m1 fl b).
  { destruct (hd_cases (heap_listp st + 8) l) as [(El & Efl') | (l' & El)].
    - rewrite <- Efl in Efl'. rewrite Efl'. repeat split; try lia.
      + intros y Hy. subst l. destruct Hy.
      + destruct (layout_pro_store _ _ b HL1) as (HL2 & HF2). simpl_st.
        eexists. split; [exact HL2|]. split; [exact HF2|]. reflexivity.
    - rewrite <- Efl in El.
      assert (Hin : In fl l) by (rewrite El; left; reflexivity).
      pose proof (nodes_in _ _ _ _ HL HN Hin) as (N1 & N2).
      destruct (HN fl Hin) as (sf & kf & Hbf).
      assert (Hne : fl <> b) by (intros E; apply Hnin; rewrite <- E; exact Hin).
      pose proof (blocks_apart _ _ _ _ _ _ _ _ HL Hbf Hb Hne).
      unfold MINIMUM in *. repeat split; try lia.
      + intros y Hy Hyne.
        pose proof (nodes_apart _ _ _ _ _ HL HN Hy Hin Hyne).
        unfold MINIMUM in *. lia.
      + destruct (layout_link_store _ _ _ _ _ fl b HL1 Hbf (or_introl eq_refl))
          as (HL2 & HF2). simpl_st.
        eexists. split; [exact HL2|]. split; [exact HF2|]. reflexivity. }
  destruct Hfl as (F1 & F2 & F3 & F4 & m2 & HL2 & HF2 & Em2).
  assert (W2 : kept bs (b :: l) (with_mem st m1)
                    (with_mem (with_mem st m1) m2)).
  { rewrite Em2.
    destruct (hd_cases (heap_listp st + 8) l) as [(El & Efl') | (l' & El)].
    - rewrite <- Efl in Efl'. rewrite Efl'.
      apply (kept_store_low (with_mem st m1) bs (b :: l) 8 _ b HL1).
      simpl_st. slia.
    - rewrite <- Efl in El.
      assert (Hin : In fl l) by (rewrite El; left; reflexivity).
      destruct (HN fl Hin) as (sf & kf & Hbf).
      pose proof (layout_in _ _ _ _ _ HL Hbf) as (_ & _ & C3 & _).
      unfold MINIMUM in C3.
      apply (kept_store_block (with_mem st m1) bs (b :: l) 8 fl b fl sf kf
                              HL1 Hbf);
        [right; right; exact Hin | lia | slia]. }
  eapply wp_bind_run; [apply run_SET_PRED; simpl_st; lia|]. simpl_st.
  fold m1. rewrite <- Em2.
  eapply wp_bind_run; [apply run_SET_PRED; simpl_st; lia|]. simpl_st.
  destruct (layout_link_store _ _ _ _ _ b NULL HL2 Hb (or_introl eq_refl))
    as (HL3 & HF3). simpl_st.
  pose proof (kept_store_block _ bs (b :: l) 8 b NULL b sz k HL2 Hb
                (or_intror (or_introl eq_refl)) ltac:(lia) ltac:(slia)) as W3.
  simpl_st.
  set (m3 := store 8 m2 b NULL) in *.
  unfold set_free_listp, wp. simpl_st.
  apply HQ; simpl_st; auto.
  - constructor.
    + eapply layout_globals; [exact HL3 | reflexivity ..].
    + constructor; simpl_st.
      * reflexivity.
      * cbn [dlist]. split; [|split].
        -- unfold m3. apply load8_store8. unfold NULL. lia.
        -- unfold m3, NULL. rewrite load_store_disj by slia.
           rewrite Em2. rewrite load_store_disj by slia.
           unfold m1. rewrite load8_store8 by lia. exact Efl.
        -- destruct l as [|h l']; [exact I|].
           cbn [hd] in Efl. subst fl. cbn [dlist] in Kdl |- *.
           destruct Kdl as (K1 & K2 & K3).
           assert (Hh : In h (h :: l')) by (left; reflexivity).
           assert (Hhb : h <> b) by (intros E; apply Hnin; rewrite <- E; exact Hh).
           split; [|split].
           ++ unfold m3. rewrite load_store_disj by slia.
              rewrite Em2. apply load8_store8. lia.
           ++ unfold m3. rewrite load_store_disj by slia.
              rewrite Em2. rewrite load_store_disj by slia.
              unfold m1. rewrite load_store_disj by slia. exact K2.
           ++ pose proof (proj1 (NoDup_cons_iff _ _) Knd) as (Hnh & Knd').
              unfold m3. apply dlist_store.
              2:{ intros y Hy.
                  assert (Hyl : In y (h :: l')) by (right; exact Hy).
                  assert (Hyb : y <> b)
                    by (intros E; apply Hnin; rewrite <- E; exact Hyl).
                  pose proof (node_block_apart _ _ _ _ _ _ _ HL HN Hyl Hb Hyb).
                  unfold MINIMUM in *. slia. }
              rewrite Em2. apply dlist_store.
              2:{ intros y Hy.
                  assert (Hyl : In y (h :: l')) by (right; exact Hy).
                  assert (Hyh : y <> h) by (intros E; subst y; contradiction).
                  specialize (F4 y Hyl Hyh). slia. }
              unfold m1. apply dlist_store; [exact K3|].
              intros y Hy.
              assert (Hyl : In y (h :: l')) by (right; exact Hy).
              assert (Hyb : y <> b)
                by (intros E; apply Hnin; rewrite <- E; exact Hyl).
              pose proof (node_block_apart _ _ _ _ _ _ _ HL HN Hyl Hb Hyb).
              unfold MINIMUM in *. slia.
      * constructor; assumption.
    + intros x [<- | Hx]; [eauto | apply HN; exact Hx].
  - eapply frame_trans; [exact HF1|].
    eapply frame_trans; [exact HF2|].
    eapply frame_trans; [exact HF3|].
    apply frame_globals; reflexivity.
  - eapply kept_trans; [exact W1|].
    eapply kept_trans; [exact W2|].
    eapply kept_trans; [exact W3|].
    apply kept_globals; reflexivity.
Qed.

(** ** Removal from the free list *)

Lemma list_last_cases (l : list Z) : l = [] \/ exists l' y, l = l' ++ [y].
Proof.
  destruct l as [|a l]; [left; reflexivity | right].
  destruct (exists_last (l := a :: l)) as (l' & y & E); [discriminate|].
  eauto.
Qed.

Lemma layout_node_store st bs w v :
  layout st bs ->
  (w = heap_listp st + 8 \/ exists sz k, In (w, sz, k) bs) ->
  layout (with_mem st (store 8 (mem st) w v)) bs /\
  frame st (with_mem st (store 8 (mem st) w v)).
Proof.
  intros HL [-> | (sz & k & Hin)].
  - apply layout_pro_store; auto.
  - eapply layout_link_store; eauto.
Qed.

Lemma kept_node_store st bs l s w v :
  layout st bs ->
  s = heap_listp st + 8 \/ (In s l /\ exists sz k, In (s, sz, k) bs) ->
  w = s \/ w = s + 8 ->
  kept bs l st (with_mem st (store 8 (mem st) w v)).
Proof.
  intros HL [-> | (Hs & sz & k & Hin)] Hw.
  - apply kept_store_low; [exact HL | slia].
  - pose proof (layout_in _ _ _ _ _ HL Hin) as (_ & _ & A3 & _).
    unfold MINIMUM in A3.
    apply (kept_store_block st bs l 8 w v s sz k HL Hin);
      [right; exact Hs | lia | slia].
Qed.

(** The successor of a node is the prologue or another node. *)
Lemma succ_cases st bs l x (l2 : list Z) s :
  layout st bs -> nodes l bs -> NoDup l -> In x l ->
  (forall y, In y l2 -> In y l /\ y <> x) ->
  s = hd (heap_listp st + 8) l2 ->
  (s = heap_listp st + 8 \/ exists sz k, In (s, sz, k) bs) /\
  heap_listp st + 8 <= s /\ s + 16 <= mem_brk st /\
  (s + 16 <= x \/ x + 24 <= s) /\
  (l2 = [] \/ exists l2', l2 = s :: l2') /\
  (forall y, In y l -> y <> s -> s + 8 <= y \/ y + 16 <= s).
Proof.
  intros HL HN Hnd Hx H2 Es.
  pose proof (layout_bounds _ _ HL) as (G1 & G2 & G3 & G4).
  pose proof (nodes_in _ _ _ _ HL HN Hx) as (X1 & X2). unfold MINIMUM in *.
  destruct l2 as [|z l2']; cbn [hd] in Es; subst s.
  - split; [left; reflexivity|].
    split; [lia|]. split; [lia|]. split; [lia|].
    split; [left; reflexivity|].
    intros y Hy _. pose proof (nodes_in _ _ _ _ HL HN Hy). lia.
  - destruct (H2 z (or_introl eq_refl)) as (Hz & Hzx).
    pose proof (nodes_in _ _ _ _ HL HN Hz) as (Z1 & Z2).
    pose proof (nodes_apart _ _ _ _ _ HL HN Hz Hx Hzx).
    unfold MINIMUM in *.
    split; [right; apply HN; exact Hz|].
    split; [lia|]. split; [lia|]. split; [lia|].
    split; [right; eauto|].
    intros y Hy Hyz.
    pose proof (nodes_apart _ _ _ _ _ HL HN Hy Hz Hyz).
    unfold MINIMUM in *. lia.
Qed.

Lemma fremove_spec st bs l x (Q : unit -> state -> Prop) :
  R st bs l -> In x l ->
  (forall st',
      R st' bs (remove Z.eq_dec x l) -> frame st st' ->
      mem_brk st' = mem_brk st -> kept bs l st st' -> Q tt st') ->
  wp (fremove x) Q st.
Proof.
  intros [HL HK HN] Hx HQ.
  destruct HK as [Khd Kdl Knd].
  pose proof (layout_bounds _ _ HL) as (G1 & G2 & G3 & G4).
  pose proof (nodes_in _ _ _ _ HL HN Hx) as (X1 & X2). unfold MINIMUM in *.
  destruct (in_split _ _ Hx) as (l1 & l2 & El).
  pose proof Knd as Knd0. rewrite El in Knd.
  apply NoDup_remove in Knd. destruct Knd as (Knd & Hxn).
  assert (Hx1 : ~ In x l1) by (intros H; apply Hxn, in_or_app; auto).
  assert (Hx2 : ~ In x l2) by (intros H; apply Hxn, in_or_app; auto).
  rewrite El in Kdl. apply dlist_app in Kdl. destruct Kdl as (D1 & D2).
  cbn [hd dlist] in D1, D2. destruct D2 as (P1 & S1 & D2).
  remember (hd (heap_listp st + 8) l2) as s eqn:Es.
  assert (H2 : forall y, In y l2 -> In y l /\ y <> x).
  { intros y Hy. split.
    - rewrite El. apply in_or_app. right. right. exact Hy.
    - intros E. subst y. contradiction. }
  assert (H1 : forall y, In y l1 -> In y l).
  { intros y Hy. rewrite El. apply in_or_app. left. exact Hy. }
  destruct (succ_cases _ _ _ _ _ _ HL HN Knd0 Hx H2 Es)
    as (Sb & S2 & S3 & S4 & S5 & S6).
  assert (Sl : s = heap_listp st + 8 \/
               (In s l /\ exists sz k, In (s, sz, k) bs)).
  { destruct S5 as [-> | (l2' & ->)]; [left; exact Es|].
    right. assert (Hs : In s l) by (apply H2; left; reflexivity).
    split; [exact Hs | apply HN; exact Hs]. }
  assert (Erem : remove Z.eq_dec x l = l1 ++ l2)
    by (rewrite El; apply remove_middle; assumption).
  assert (HN' : nodes (l1 ++ l2) bs).
  { intros y Hy. apply HN. rewrite El.
    apply in_app_or in Hy. apply in_or_app. destruct Hy; [left | right; right]; auto. }
  unfold fremove.
  eapply wp_bind_run; [apply run_PRED; lia|]. rewrite P1.
  destruct (list_last_cases l1) as [E1 | (l1' & y & E1)]; subst l1.
  - (* the node is the head of the list *)
    cbn [last app hd] in *.
    change (negb (0 =? 0)) with false. cbv iota.
    apply wp_bind.
    eapply wp_bind_run; [apply run_SUCC; lia|]. rewrite S1.
    unfold set_free_listp, wp.
    eapply wp_bind_run; [apply run_SUCC; simpl_st; lia|]. simpl_st. rewrite S1.
    eapply wp_bind_run; [apply run_PRED; simpl_st; lia|]. simpl_st. rewrite P1.
    destruct (layout_node_store _ _ s 0 HL Sb) as (HL1 & HF1).
    pose proof (kept_node_store st bs l s s 0 HL Sl (or_introl eq_refl)) as W1.
    eapply wp_run; [apply run_SET_PRED; simpl_st; lia|]. simpl_st.
    apply HQ; simpl_st; auto.
    + rewrite Erem. constructor.
      * eapply layout_globals; [exact HL1 | reflexivity ..].
      * constructor; simpl_st; [exact Es | | exact Knd].
        destruct S5 as [-> | (l2' & ->)]; [exact I|].
        cbn [dlist] in D2 |- *. destruct D2 as (D3 & D4 & D5).
        split; [|split].
        -- apply load8_store8. lia.
        -- rewrite load_store_disj by slia. exact D4.
        -- apply dlist_store; [exact D5|].
           intros z Hz. apply NoDup_cons_iff in Knd. destruct Knd as (Hsn & _).
           assert (Hzs : z <> s) by (intros E; subst z; contradiction).
           assert (Hzl : In z l) by (apply H2; right; exact Hz).
           specialize (S6 z Hzl Hzs). slia.
      * exact HN'.
    + eapply frame_trans; [exact HF1|]. apply frame_globals; reflexivity.
  - (* the node has a predecessor [y] *)
    rewrite last_last in P1 |- *.
    assert (Hy : In y l)
      by (apply H1, in_or_app; right; left; reflexivity).
    assert (Hyx : y <> x)
      by (intros E; apply Hx1; rewrite <- E; apply in_or_app; right; left;
          reflexivity).
    pose proof (nodes_in _ _ _ _ HL HN Hy) as (Y1 & Y2).
    pose proof (nodes_apart _ _ _ _ _ HL HN Hy Hx Hyx) as Hyx'.
    unfold MINIMUM in *.
    pose proof Knd as KA. rewrite <- app_assoc in KA. cbn [app] in KA.
    pose proof (NoDup_remove_2 _ _ _ KA) as Hyn.
    assert (Hy1 : ~ In y l1') by (intros H; apply Hyn, in_or_app; auto).
    assert (Hy2 : ~ In y l2) by (intros H; apply Hyn, in_or_app; auto).
    assert (Hs1 : forall z, In z l1' -> z <> s).
    { intros z Hz E. subst z. destruct S5 as [-> | (l2' & ->)].
      - cbn [hd] in Es.
        assert (Hzl : In s l) by (apply H1, in_or_app; left; exact Hz).
        pose proof (nodes_in _ _ _ _ HL HN Hzl). lia.
      - apply NoDup_remove_2 in KA.
        apply (NoDup_remove_2 _ _ _ Knd).
        apply in_or_app. left. apply in_or_app. left. exact Hz. }
    assert (Hys : y <> s).
    { intros E. destruct S5 as [-> | (l2' & ->)].
      - cbn [hd] in Es. lia.
      - apply Hy2. left. symmetry. exact E. }
    pose proof (S6 y Hy Hys) as Sy.
    replace (y =? 0) with false by (symmetry; apply Z.eqb_neq; lia).
    cbn [negb].
    apply wp_bind.
    eapply wp_bind_run; [apply run_PRED; lia|]. rewrite P1.
    eapply wp_bind_run; [apply run_SUCC; lia|]. rewrite S1.
    destruct (HN y Hy) as (sy & ky & Hby).
    destruct (layout_link_store _ _ _ _ _ (y + 8) s HL Hby (or_intror eq_refl))
      as (HL1 & HF1).
    pose proof (kept_node_store st bs l y (y + 8) s HL
                  (or_intror (conj Hy (ex_intro _ sy (ex_intro _ ky Hby))))
                  (or_intror eq_refl)) as W1.
    eapply wp_run; [apply run_SET_SUCC; lia|].
    remember (store 8 (mem st) (y + 8) s) as m1 eqn:Em1.
    assert (S1' : load 8 m1 (x + 8) = s)
      by (rewrite Em1, load_store_disj by slia; exact S1).
    assert (P1' : load 8 m1 x = y)
      by (rewrite Em1, load_store_disj by slia; exact P1).
    eapply wp_bind_run; [apply run_SUCC; simpl_st; lia|]. simpl_st. rewrite S1'.
    eapply wp_bind_run; [apply run_PRED; simpl_st; lia|]. simpl_st. rewrite P1'.
    destruct (layout_node_store _ _ s y HL1 Sb) as (HL2 & HF2). simpl_st.
    pose proof (kept_node_store _ bs l s s y HL1 Sl (or_introl eq_refl)) as W2.
    simpl_st.
    eapply wp_run; [apply run_SET_PRED; simpl_st; lia|]. simpl_st.
    apply HQ; simpl_st; auto.
    + rewrite Erem. constructor.
      * exact HL2.
      * constructor; simpl_st; [| | exact Knd].
        { rewrite Khd, El. rewrite <- !app_assoc. rewrite !hd_app.
          reflexivity. }
        rewrite <- app_assoc. cbn [app].
        apply dlist_app in D1. destruct D1 as (D0 & D1).
        cbn [hd dlist] in D0, D1. destruct D1 as (D1 & _).
        apply dlist_app. cbn [hd dlist]. split; [|split; [|split]].
        -- apply dlist_store.
           2:{ intros z Hz.
               assert (Hzl : In z l) by (apply H1, in_or_app; left; exact Hz).
               specialize (S6 z Hzl (Hs1 z Hz)). slia. }
           rewrite Em1. apply dlist_store; [exact D0|].
           intros z Hz.
           assert (Hzl : In z l) by (apply H1, in_or_app; left; exact Hz).
           assert (Hzy : z <> y) by (intros E; subst z; contradiction).
           pose proof (nodes_apart _ _ _ _ _ HL HN Hzl Hy Hzy).
           unfold MINIMUM in *. slia.
        -- rewrite load_store_disj by slia.
           rewrite Em1, load_store_disj by slia. exact D1.
        -- rewrite load_store_disj by slia.
           rewrite Em1, load8_store8 by lia.
           destruct S5 as [-> | (l2' & ->)]; [exact Es | reflexivity].
        -- destruct S5 as [-> | (l2' & ->)]; [exact I|].
           cbn [dlist] in D2 |- *. destruct D2 as (D3 & D4 & D5).
           split; [|split].
           ++ apply load8_store8. lia.
           ++ rewrite load_store_disj by slia.
              rewrite Em1, load_store_disj by slia. exact D4.
           ++ assert (Hd : forall z, In z l2' -> In z l /\ z <> s /\ z <> y).
              { intros z Hz. split; [|split].
                - apply H2. right. exact Hz.
                - intros E. subst z.
                  pose proof (NoDup_app_remove_l _ _ Knd) as Kn2.
                  apply NoDup_cons_iff in Kn2. destruct Kn2 as (Hn & _).
                  contradiction.
                - intros E. subst z. apply Hy2. right. exact Hz. }
              apply dlist_store.
              2:{ intros z Hz. destruct (Hd z Hz) as (Hzl & Hzs & Hzy).
                  specialize (S6 z Hzl Hzs). slia. }
              rewrite Em1. apply dlist_store; [exact D5|].
              intros z Hz. destruct (Hd z Hz) as (Hzl & Hzs & Hzy).
              pose proof (nodes_apart _ _ _ _ _ HL HN Hzl Hy Hzy).
              unfold MINIMUM in *. slia.
      * exact HN'.
    + eapply frame_trans; [exact HF1|]. exact HF2.
    + eapply kept_trans; [exact W1|]. exact W2.
Qed.

(** ** Reading boundary tags *)

Lemma run_FTRP bp st :
  mem_heap st <= bp - 4 -> bp <= mem_brk st ->
  FTRP bp st =
  Ok (bp + size_of_word (load 4 (mem st) (bp - 4)) - 8) st.
Proof.
  intros H1 H2. unfold FTRP, HDRP, WSIZE, DSIZE.
  erewrite bind_run by (apply run_GET_SIZE; lia). reflexivity.
Qed.

Lemma run_NEXT_BLKP bp st :
  mem_heap st <= bp - 4 -> bp <= mem_brk st ->
  NEXT_BLKP bp st = Ok (bp + size_of_word (load 4 (mem st) (bp - 4))) st.
Proof.
  intros H1 H2. unfold NEXT_BLKP, WSIZE.
  erewrite bind_run by (apply run_GET_SIZE; lia). reflexivity.
Qed.

Lemma run_PREV_BLKP bp st :
  mem_heap st <= bp - 8 -> bp - 4 <= mem_brk st ->
  PREV_BLKP bp st = Ok (bp - size_of_word (load 4 (mem st) (bp - 8))) st.
Proof.
  intros H1 H2. unfold PREV_BLKP, DSIZE.
  erewrite bind_run by (apply run_GET_SIZE; lia). reflexivity.
Qed.

Lemma layout_hdr_size st bs x sz k :
  layout st bs -> In (x, sz, k) bs -> k <> KRaw ->
  size_of_word (load 4 (mem st) (x - 4)) = sz /\
  size_of_word (load 4 (mem st) (x + sz - 8)) = sz /\
  alloc_of_word (load 4 (mem st) (x - 4)) =
    match k with KAlloc => 1 | _ => 0 end /\
  alloc_of_word (load 4 (mem st) (x + sz - 8)) =
    match k with KAlloc => 1 | _ => 0 end.
Proof.
  intros HL Hin Hk.
  pose proof (layout_in _ _ _ _ _ HL Hin) as (A1 & A2 & A3 & A4 & A5 & A6).
  destruct (layout_tags _ _ _ _ _ HL Hin Hk) as (T1 & T2).
  unfold MINIMUM in *.
  rewrite T1, T2, size_of_tag, alloc_of_tag by (auto; lia). auto.
Qed.

(** ** Writing the boundary tags of a block *)

Lemma block_ok_ext m m' b :
  block_ok m b ->
  (bkind b <> KRaw ->
   load 4 m' (baddr b - 4) = load 4 m (baddr b - 4) /\
   load 4 m' (baddr b + bsize b - 8) = load 4 m (baddr b + bsize b - 8)) ->
  block_ok m' b.
Proof.
  intros (H1 & H2 & H3) H. split; [exact H1|]. split; [exact H2|].
  intros Hk. destruct (H Hk) as (E1 & E2). rewrite E1, E2. auto.
Qed.

Lemma chain_raw_rest p e post q :
  chain e post q -> chain p (raw_rest p e ++ post) q.
Proof.
  intros H. unfold raw_rest. destruct (Z.eqb_spec p e) as [-> | Hne].
  - exact H.
  - cbn [app chain baddr bsize fst snd]. split; [reflexivity|].
    replace (p + (e - p)) with e by lia. exact H.
Qed.

Lemma in_raw_rest b p e : In b (raw_rest p e) -> p <> e /\ b = (p, e - p, KRaw).
Proof.
  unfold raw_rest. destruct (Z.eqb_spec p e) as [-> | Hne]; cbn [In].
  - tauto.
  - intros [<- | []]. auto.
Qed.

Lemma retag_spec st pre mid post l b sz e k B (cont : M B)
      (Q : B -> state -> Prop) :
  R st (pre ++ mid ++ post) l ->
  mid <> [] -> chain b mid e ->
  MINIMUM <= sz -> sz mod 8 = 0 ->
  (b + sz = e \/ b + sz + MINIMUM <= e) ->
  k <> KRaw ->
  (forall x s' k', In x l -> In (x, s', k') mid -> x = b) ->
  (forall st',
      R st' (pre ++ (b, sz, k) :: raw_rest (b + sz) e ++ post) l ->
      frame st st' -> mem_brk st' = mem_brk st ->
      free_listp st' = free_listp st ->
      kept (pre ++ post) [] st st' ->
      (forall a, a < b - 4 \/ b <= a < b + sz - 8 \/ b + sz - 4 <= a ->
                 mem st' a = mem st a) ->
      wp cont Q st') ->
  wp (PUT (HDRP b) (tag sz k) ;; f <- FTRP b ;; PUT f (tag sz k) ;; cont) Q st.
Proof.
  intros [HL HK HN] Hmid Hcm Hsz Hm8 He Hk Hl HQ.
  pose proof (layout_bounds _ _ HL) as (G1 & G2 & G3 & G4).
  pose proof (L_small _ _ HL) as G5. pose proof (L_brk _ _ HL) as G6.
  pose proof (layout_sized _ _ HL) as Hs.
  apply sized_app in Hs. destruct Hs as (Hs1 & Hs).
  apply sized_app in Hs. destruct Hs as (Hs2 & Hs3).
  pose proof (L_chain _ _ HL) as Hc.
  apply chain_app in Hc. destruct Hc as (r1 & Hc1 & Hc).
  apply chain_app in Hc. destruct Hc as (r2 & Hc2 & Hc3).
  assert (r1 = b).
  { destruct mid as [|m0 mid']; [contradiction|].
    destruct Hc2 as (E1 & _). destruct Hcm as (E2 & _). congruence. }
  subst r1.
  assert (r2 = e) by (eapply chain_fun; eauto). subst r2.
  pose proof (chain_le _ _ _ Hs1 Hc1) as O1.
  pose proof (chain_le _ _ _ Hs3 Hc3) as O3.
  assert (O2 : b + MINIMUM <= e).
  { destruct mid as [|m0 mid']; [contradiction|].
    eapply chain_cons_le; eauto. }
  pose proof (chain_mod8 _ _ _ Hs2 Hc2) as M2.
  unfold MINIMUM in *.
  assert (Ht : 0 <= tag sz k < 2 ^ 32) by (apply tag_range; [lia | exact Hm8]).
  unfold HDRP, WSIZE.
  eapply wp_bind_run; [apply run_PUT; lia|].
  remember (store 4 (mem st) (b - 4) (tag sz k)) as m1 eqn:Em1.
  assert (Hh1 : load 4 m1 (b - 4) = tag sz k)
    by (rewrite Em1; apply load4_store4; exact Ht).
  eapply wp_bind_run; [apply run_FTRP; simpl_st; lia|]. simpl_st.
  rewrite Hh1, size_of_tag by (auto; lia).
  eapply wp_bind_run; [apply run_PUT; simpl_st; lia|]. simpl_st.
  remember (store 4 m1 (b + sz - 8) (tag sz k)) as m2 eqn:Em2.
  assert (Hfar : forall a,
             a + 4 <= b - 4 \/ b + sz - 4 <= a ->
             load 4 m2 a = load 4 (mem st) a).
  { intros a Ha. rewrite Em2, load_store_disj by slia.
    rewrite Em1, load_store_disj by slia. reflexivity. }
  assert (Hfar8 : forall a,
             a + 8 <= b - 4 \/ b + sz - 4 <= a \/
             (b <= a /\ a + 8 <= b + sz - 8) ->
             load 8 m2 a = load 8 (mem st) a).
  { intros a Ha. rewrite Em2, load_store_disj by slia.
    rewrite Em1, load_store_disj by slia. reflexivity. }
  apply HQ; simpl_st; auto.
  - constructor.
    + (* layout *)
      pose proof (L_blocks _ _ HL) as HB.
      apply Forall_app in HB. destruct HB as (HB1 & HB).
      apply Forall_app in HB. destruct HB as (HB2 & HB3).
      constructor; simpl_st;
        try (destruct HL; assumption);
        try (rewrite Hfar by lia; destruct HL; assumption).
      * apply chain_app. exists b. split; [exact Hc1|].
        cbn [chain baddr bsize fst snd]. split; [reflexivity|].
        apply chain_raw_rest. exact Hc3.
      * apply Forall_app. split; [|constructor; [|apply Forall_app; split]].
        -- rewrite Forall_forall in *. intros blk Hin.
           pose proof (chain_in _ _ _ _ Hs1 Hc1 Hin) as (I1 & I2).
           destruct (sized_in _ _ Hs1 Hin) as (I3 & I4). unfold MINIMUM in *.
           eapply block_ok_ext; [apply HB1; exact Hin|]. intros _.
           rewrite !Hfar by lia. auto.
        -- split; [exact Hsz|]. split; [exact Hm8|]. intros _.
           cbn [baddr bsize bkind fst snd]. split.
           ++ rewrite Em2, load_store_disj by slia. exact Hh1.
           ++ rewrite Em2. apply load4_store4. exact Ht.
        -- rewrite Forall_forall. intros blk Hin.
           apply in_raw_rest in Hin. destruct Hin as (Hne & ->).
           split; [|split]; cbn [baddr bsize bkind fst snd].
           ++ unfold MINIMUM. lia.
           ++ replace (e - (b + sz)) with ((e - b) - sz) by lia.
              apply mod8_sub; auto.
           ++ intros C. contradiction.
        -- rewrite Forall_forall in *. intros blk Hin.
           pose proof (chain_in _ _ _ _ Hs3 Hc3 Hin) as (I1 & I2).
           destruct (sized_in _ _ Hs3 Hin) as (I3 & I4). unfold MINIMUM in *.
           eapply block_ok_ext; [apply HB3; exact Hin|]. intros _.
           rewrite !Hfar by lia. auto.
    + (* links *)
      destruct HK as [Khd Kdl Knd]. constructor; simpl_st; auto.
      eapply dlist_ext; [exact Kdl|]. intros x Hx.
      destruct (HN x Hx) as (sx & kx & Hin).
      apply in_app_or in Hin. destruct Hin as [Hin | Hin];
        [| apply in_app_or in Hin; destruct Hin as [Hin | Hin]].
      * pose proof (chain_in _ _ _ _ Hs1 Hc1 Hin) as (I1 & I2).
        destruct (sized_in _ _ Hs1 Hin) as (I3 & I4).
        cbn [baddr bsize fst snd] in *. unfold MINIMUM in *.
        rewrite !Hfar8 by lia. auto.
      * pose proof (Hl _ _ _ Hx Hin). subst x.
        rewrite !Hfar8 by lia. auto.
      * pose proof (chain_in _ _ _ _ Hs3 Hc3 Hin) as (I1 & I2).
        destruct (sized_in _ _ Hs3 Hin) as (I3 & I4).
        cbn [baddr bsize fst snd] in *. unfold MINIMUM in *.
        rewrite !Hfar8 by lia. auto.
    + (* nodes *)
      intros x Hx. destruct (HN x Hx) as (sx & kx & Hin).
      apply in_app_or in Hin. destruct Hin as [Hin | Hin];
        [| apply in_app_or in Hin; destruct Hin as [Hin | Hin]].
      * exists sx, kx. apply in_or_app. left. exact Hin.
      * pose proof (Hl _ _ _ Hx Hin). subst x.
        exists sz, k. apply in_or_app. right. left. reflexivity.
      * exists sx, kx. apply in_or_app. right. right.
        apply in_or_app. right. exact Hin.
  - constructor; simpl_st; auto; try lia.
    intros a Ha. rewrite Em2, store_outside by slia.
    rewrite Em1, store_outside by slia. reflexivity.
  - intros x s a Hin _ Ha. unfold WSIZE in Ha. simpl_st.
    assert (Hout : a < b - 4 \/ b + sz - 4 <= a).
    { apply in_app_or in Hin. destruct Hin as [Hin | Hin].
      - pose proof (chain_in _ _ _ _ Hs1 Hc1 Hin) as (I1 & I2).
        cbn [baddr bsize fst snd] in *. lia.
      - pose proof (chain_in _ _ _ _ Hs3 Hc3 Hin) as (I1 & I2).
        cbn [baddr bsize fst snd] in *. lia. }
    rewrite Em2, store_outside by slia.
    rewrite Em1, store_outside by slia. reflexivity.
  - intros a Ha. rewrite Em2, store_outside by slia.
    rewrite Em1, store_outside by slia. reflexivity.
Qed.

(** ** The neighbours of a block *)

Lemma prev_cases (pre : list block) b :
  (pre = [] /\ prev_block pre b = (b, 0, KAlloc)) \/
  (pre <> [] /\ pre = removelast pre ++ [prev_block pre b]).
Proof.
  destruct pre as [|a pre]; [left; auto | right].
  split; [discriminate|]. apply app_removelast_last. discriminate.
Qed.

Lemma next_cases b sz (post : list block) :
  (post = [] /\ next_block b sz post = (b + sz, 0, KAlloc)) \/
  (post = next_block b sz post :: tl post).
Proof. destruct post; [left; auto | right; reflexivity]. Qed.

Lemma layout_prev st pre b sz k post :
  layout st (pre ++ (b, sz, k) :: post) -> pre <> [] ->
  In (prev_block pre b) (pre ++ (b, sz, k) :: post) /\
  baddr (prev_block pre b) + bsize (prev_block pre b) = b.
Proof.
  intros HL Hne.
  destruct (prev_cases pre b) as [(E & _) | (_ & E)]; [contradiction|].
  remember (prev_block pre b) as pv eqn:Epv in *.
  remember (removelast pre) as pre' eqn:Epre in *.
  clear Epv Epre. subst pre.
  split.
  - apply in_or_app. left. apply in_or_app. right. left.
    reflexivity.
  - pose proof (L_chain _ _ HL) as Hc.
    rewrite <- app_assoc in Hc. cbn [app] in Hc.
    apply chain_split in Hc. destruct Hc as (_ & Hc).
    destruct Hc as (Hc & _). cbn [baddr fst] in Hc. lia.
Qed.

Lemma layout_first st b sz k post :
  layout st ((b, sz, k) :: post) -> b = heap_listp st + 48.
Proof.
  intros HL. pose proof (L_chain _ _ HL) as (Hc & _).
  cbn [baddr fst] in Hc. congruence.
Qed.

Lemma layout_next st pre b sz k post :
  layout st (pre ++ (b, sz, k) :: post) ->
  (post = [] /\ b + sz = mem_brk st) \/
  (post = next_block b sz post :: tl post /\
   In (next_block b sz post) (pre ++ (b, sz, k) :: post) /\
   baddr (next_block b sz post) = b + sz).
Proof.
  intros HL. pose proof (L_chain _ _ HL) as Hc.
  apply chain_split in Hc. destruct Hc as (_ & Hc).
  cbn [baddr bsize fst snd] in Hc.
  destruct post as [|n post']; [left | right].
  - split; [reflexivity | exact Hc].
  - cbn [next_block hd tl]. split; [reflexivity|]. split.
    + apply in_or_app. right. right. left. reflexivity.
    + destruct Hc as (Hc & _). exact Hc.
Qed.

Lemma block_eta (b : block) : b = (baddr b, bsize b, bkind b).
Proof. destruct b as [[x s] k]. reflexivity. Qed.

(** ** What [coalesce] reads *)

Section Reads.

Variables (st : state) (pre post : list block) (b sz : Z).
Hypothesis HL : layout st (pre ++ (b, sz, KFree) :: post).
Hypothesis Hpv : bkind (prev_block pre b) <> KRaw.
Hypothesis Hnx : bkind (next_block b sz post) <> KRaw.

Lemma in_self : In (b, sz, KFree) (pre ++ (b, sz, KFree) :: post).
Proof. apply in_or_app. right. left. reflexivity. Qed.

Lemma self_facts :
  heap_listp st + 48 <= b /\ b + sz <= mem_brk st /\
  MINIMUM <= sz /\ sz mod 8 = 0 /\ sz < 2 ^ 32 /\ b mod 8 = 0 /\
  0 < mem_heap st /\ mem_heap st <= heap_listp st /\
  mem_brk st < 2 ^ 64 - 1.
Proof.
  pose proof (layout_in _ _ _ _ _ HL in_self).
  pose proof (layout_bounds _ _ HL). tauto.
Qed.

Lemma run_self_size : GET_SIZE (HDRP b) st = Ok sz st.
Proof.
  pose proof self_facts as (A1 & A2 & A3 & A4 & A5 & A6 & A7 & A8 & A9).
  unfold MINIMUM in *.
  destruct (layout_hdr_size _ _ _ _ _ HL in_self) as (E1 & _); [discriminate|].
  unfold HDRP, WSIZE. rewrite run_GET_SIZE by lia. rewrite E1. reflexivity.
Qed.

Lemma run_self_next : NEXT_BLKP b st = Ok (b + sz) st.
Proof.
  pose proof self_facts as (A1 & A2 & A3 & A4 & A5 & A6 & A7 & A8 & A9).
  unfold MINIMUM in *.
  destruct (layout_hdr_size _ _ _ _ _ HL in_self) as (E1 & _); [discriminate|].
  rewrite run_NEXT_BLKP by lia. rewrite E1. reflexivity.
Qed.

Lemma run_prev : PREV_BLKP b st = Ok (baddr (prev_block pre b)) st.
Proof.
  pose proof self_facts as (A1 & A2 & A3 & A4 & A5 & A6 & A7 & A8 & A9).
  unfold MINIMUM in *.
  rewrite run_PREV_BLKP by lia.
  destruct (prev_cases pre b) as [(E & Ep) | (Hne & E)].
  - rewrite Ep. cbn [baddr fst]. subst pre. cbn [app] in HL.
    rewrite (layout_first _ _ _ _ _ HL).
    replace (heap_listp st + 48 - 8) with (heap_listp st + 40) by lia.
    rewrite (L_gap _ _ HL). f_equal. lia.
  - destruct (layout_prev _ _ _ _ _ _ HL Hne) as (Hin & Hb).
    rewrite (block_eta (prev_block pre b)) in Hin.
    destruct (layout_hdr_size _ _ _ _ _ HL Hin Hpv) as (_ & E2 & _).
    replace (b - 8)
      with (baddr (prev_block pre b) + bsize (prev_block pre b) - 8) by lia.
    rewrite E2. f_equal. lia.
Qed.

Lemma run_prev_size :
  pre <> [] ->
  GET_SIZE (HDRP (baddr (prev_block pre b))) st =
  Ok (bsize (prev_block pre b)) st.
Proof.
  intros Hne.
  destruct (layout_prev _ _ _ _ _ _ HL Hne) as (Hin & Hb).
  rewrite (block_eta (prev_block pre b)) in Hin.
  pose proof (layout_in _ _ _ _ _ HL Hin) as (B1 & B2 & B3 & B4 & B5 & B6).
  pose proof (layout_bounds _ _ HL) as (G1 & G2 & G3 & G4).
  destruct (layout_hdr_size _ _ _ _ _ HL Hin Hpv) as (E1 & _).
  unfold HDRP, WSIZE, MINIMUM in *.
  rewrite run_GET_SIZE by lia. rewrite E1. reflexivity.
Qed.

Lemma run_prev_alloc :
  exists pa,
    (pv <- PREV_BLKP b ;; f <- FTRP pv ;; GET_ALLOC f) st = Ok pa st /\
    (if negb (pa =? 0) then ret true
     else pv <- PREV_BLKP b ;; ret (pv =? b)) st =
    Ok (negb (is_free (bkind (prev_block pre b)))) st.
Proof.
  pose proof self_facts as (A1 & A2 & A3 & A4 & A5 & A6 & A7 & A8 & A9).
  unfold MINIMUM in *.
  erewrite bind_run by (apply run_prev).
  destruct (prev_cases pre b) as [(E & Ep) | (Hne & E)].
  - rewrite Ep. cbn [baddr bkind fst snd is_free negb].
    destruct (layout_hdr_size _ _ _ _ _ HL in_self) as (E1 & E2 & E3 & E4);
      [discriminate|].
    exists 0. split.
    + erewrite bind_run by (apply run_FTRP; lia). rewrite E1.
      rewrite run_GET_ALLOC by lia. rewrite E4. reflexivity.
    + cbn [Z.eqb negb]. erewrite bind_run by (apply run_prev).
      rewrite Ep. cbn [baddr fst]. unfold ret. rewrite Z.eqb_refl.
      reflexivity.
  - destruct (layout_prev _ _ _ _ _ _ HL Hne) as (Hin & Hb).
    rewrite (block_eta (prev_block pre b)) in Hin.
    pose proof (layout_in _ _ _ _ _ HL Hin) as (B1 & B2 & B3 & B4 & B5 & B6).
    destruct (layout_hdr_size _ _ _ _ _ HL Hin Hpv) as (E1 & E2 & E3 & E4).
    unfold MINIMUM in *.
    exists (kind_bit (bkind (prev_block pre b))). split.
    + erewrite bind_run by (apply run_FTRP; lia). rewrite E1.
      rewrite run_GET_ALLOC by lia. rewrite E4.
      destruct (bkind (prev_block pre b)); reflexivity.
    + pose proof run_prev as Hrun.
      destruct (bkind (prev_block pre b)); try contradiction;
        cbn [kind_bit Z.eqb negb is_free]; [reflexivity|].
      erewrite bind_run by (exact Hrun). unfold ret.
      replace (baddr (prev_block pre b) =? b) with false; [reflexivity|].
      symmetry. apply Z.eqb_neq. lia.
Qed.

Lemma run_next_alloc :
  GET_ALLOC (HDRP (b + sz)) st =
  Ok (kind_bit (bkind (next_block b sz post))) st.
Proof.
  pose proof self_facts as (A1 & A2 & A3 & A4 & A5 & A6 & A7 & A8 & A9).
  unfold MINIMUM, HDRP, WSIZE in *.
  destruct (layout_next _ _ _ _ _ _ HL) as [(E & Eb) | (E & Hin & Ea)].
  - rewrite run_GET_ALLOC by lia. subst post. cbn [next_block hd bkind snd].
    rewrite Eb, (L_epilogue _ _ HL). reflexivity.
  - rewrite (block_eta (next_block b sz post)) in Hin.
    pose proof (layout_in _ _ _ _ _ HL Hin) as (B1 & B2 & B3 & B4 & B5 & B6).
    destruct (layout_hdr_size _ _ _ _ _ HL Hin Hnx) as (E1 & E2 & E3 & E4).
    unfold MINIMUM in *.
    rewrite run_GET_ALLOC by lia. rewrite <- Ea, E3.
    destruct (bkind (next_block b sz post)); reflexivity.
Qed.

Lemma run_next_size :
  post <> [] ->
  GET_SIZE (HDRP (b + sz)) st = Ok (bsize (next_block b sz post)) st.
Proof.
  intros Hne.
  pose proof self_facts as (A1 & A2 & A3 & A4 & A5 & A6 & A7 & A8 & A9).
  destruct (layout_next _ _ _ _ _ _ HL) as [(E & Eb) | (E & Hin & Ea)];
    [contradiction|].
  rewrite (block_eta (next_block b sz post)) in Hin.
  pose proof (layout_in _ _ _ _ _ HL Hin) as (B1 & B2 & B3 & B4 & B5 & B6).
  destruct (layout_hdr_size _ _ _ _ _ HL Hin Hnx) as (E1 & E2 & E3 & E4).
  unfold MINIMUM, HDRP, WSIZE in *.
  rewrite run_GET_SIZE by lia. rewrite <- Ea, E1. reflexivity.
Qed.

End Reads.

(** ** Coalescing, case by case *)

Lemma prev_block_last pre' (pvb : block) b : prev_block (pre' ++ [pvb]) b = pvb.
Proof. unfold prev_block. apply last_last. Qed.

Lemma raw_rest_same p : raw_rest p p = [].
Proof. unfold raw_rest. rewrite Z.eqb_refl. reflexivity. Qed.

Lemma kind_bit_test k : negb (kind_bit k =? 0) = negb (is_free k) \/ k = KRaw.
Proof. destruct k; auto. Qed.

(** The reads at the head of [coalesce]. *)
Ltac coalesce_reads HL Hpv Hnx :=
  unfold coalesce;
  let pa := fresh "pa" in
  let E1 := fresh "E" in
  let E2 := fresh "E" in
  destruct (run_prev_alloc _ _ _ _ _ HL Hpv) as (pa & E1 & E2);
  (eapply wp_bind_run; [exact E1|]);
  (eapply wp_bind_run; [exact E2|]);
  (eapply wp_bind_run; [exact (run_self_next _ _ _ _ _ HL)|]);
  (eapply wp_bind_run; [exact (run_next_alloc _ _ _ _ _ HL Hnx)|]);
  (eapply wp_bind_run; [exact (run_self_size _ _ _ _ _ HL)|]);
  clear pa E1 E2.

Lemma coalesce_case1 st pre b sz post l (Q : Z -> state -> Prop) :
  R st (pre ++ (b, sz, KFree) :: post) l -> ~ In b l ->
  bkind (prev_block pre b) = KAlloc ->
  bkind (next_block b sz post) = KAlloc ->
  (forall st',
      R st' (pre ++ (b, sz, KFree) :: post) (b :: l) ->
      frame st st' -> mem_brk st' = mem_brk st ->
      kept (pre ++ (b, sz, KFree) :: post) (b :: l) st st' -> Q b st') ->
  wp (coalesce b) Q st.
Proof.
  intros HR Hnb Kp Kn HQ. pose proof (R_layout _ _ _ HR) as HL.
  assert (Hpv : bkind (prev_block pre b) <> KRaw) by (rewrite Kp; discriminate).
  assert (Hnx : bkind (next_block b sz post) <> KRaw)
    by (rewrite Kn; discriminate).
  coalesce_reads HL Hpv Hnx. rewrite Kp, Kn.
  cbn [is_free negb kind_bit Z.eqb andb].
  apply wp_bind. eapply fcons_spec; [exact HR | apply in_self | exact Hnb |].
  intros st' HR' HF Hb HW. apply wp_ret. apply HQ; assumption.
Qed.

Lemma coalesce_case2 st pre b sz n ns post' l (Q : Z -> state -> Prop) :
  R st (pre ++ (b, sz, KFree) :: (n, ns, KFree) :: post') l ->
  ~ In b l -> In n l ->
  bkind (prev_block pre b) = KAlloc ->
  (forall st',
      R st' (pre ++ (b, sz + ns, KFree) :: post')
        (b :: remove Z.eq_dec n l) ->
      frame st st' -> mem_brk st' = mem_brk st ->
      kept (pre ++ (b, sz, KFree) :: (n, ns, KFree) :: post') (b :: l)
           st st' ->
      Q b st') ->
  wp (coalesce b) Q st.
Proof.
  intros HR Hnb Hn Kp HQ. pose proof (R_layout _ _ _ HR) as HL.
  assert (Hpv : bkind (prev_block pre b) <> KRaw) by (rewrite Kp; discriminate).
  assert (Hnx : bkind (next_block b sz ((n, ns, KFree) :: post')) <> KRaw)
    by (cbn; discriminate).
  pose proof (self_facts _ _ _ _ _ HL)
    as (A1 & A2 & A3 & A4 & A5 & A6 & A7 & A8 & A9).
  assert (Hin : In (n, ns, KFree)
                   (pre ++ (b, sz, KFree) :: (n, ns, KFree) :: post'))
    by (apply in_or_app; right; right; left; reflexivity).
  pose proof (layout_in _ _ _ _ _ HL Hin) as (B1 & B2 & B3 & B4 & B5 & B6).
  assert (En : n = b + sz).
  { destruct (layout_next _ _ _ _ _ _ HL) as [(E & _) | (_ & _ & E)];
      [discriminate | exact E]. }
  pose proof (L_small _ _ HL) as G5. pose proof (L_brk _ _ HL) as G6.
  unfold MINIMUM in *.
  coalesce_reads HL Hpv Hnx. rewrite Kp.
  cbn [next_block hd bkind snd is_free negb kind_bit Z.eqb andb].
  apply wp_bind.
  eapply wp_bind_run; [exact (run_self_next _ _ _ _ _ HL)|].
  eapply wp_bind_run;
    [apply (run_next_size _ _ _ _ _ HL Hnx); discriminate|].
  cbn [next_block hd bsize fst snd].
  eapply wp_bind_run; [exact (run_self_next _ _ _ _ _ HL)|].
  rewrite <- En. rewrite u64_small by lia. rewrite PACK_free.
  apply wp_bind. eapply fremove_spec; [exact HR | exact Hn |].
  intros st1 HR1 HF1 Hb1 W1.
  eapply (retag_spec st1 pre [(b, sz, KFree); (n, ns, KFree)] post' _
                     b (sz + ns) (b + (sz + ns)) KFree).
  - exact HR1.
  - discriminate.
  - cbn [chain baddr bsize fst snd]. repeat split; lia.
  - unfold MINIMUM. lia.
  - apply mod8_add; assumption.
  - left. reflexivity.
  - discriminate.
  - intros x s' k' Hx [E | [E | []]]; inversion E; subst; auto.
    exfalso. eapply remove_In. exact Hx.
  - intros st2 HR2 HF2 Hb2 Hf2 W2 _.
    rewrite raw_rest_same in HR2. cbn [app] in HR2.
    apply wp_ret. apply wp_bind. eapply fcons_spec; [exact HR2 | | |].
    + apply in_or_app. right. left. reflexivity.
    + intros H. apply in_remove in H. tauto.
    + intros st3 HR3 HF3 Hb3 W3. apply wp_ret. apply HQ; auto.
      * eapply frame_trans; [exact HF1|]. eapply frame_trans; eauto.
      * congruence.
      * eapply kept_trans; [kept_via W1|].
        eapply kept_trans; [kept_via W2 | kept_via W3].
Qed.

Lemma coalesce_case3 st pre' p ps b sz post l (Q : Z -> state -> Prop) :
  R st ((pre' ++ [(p, ps, KFree)]) ++ (b, sz, KFree) :: post) l ->
  ~ In b l -> In p l ->
  bkind (next_block b sz post) = KAlloc ->
  (forall st',
      R st' (pre' ++ (p, ps + sz, KFree) :: post)
        (p :: remove Z.eq_dec p l) ->
      frame st st' -> mem_brk st' = mem_brk st ->
      kept ((pre' ++ [(p, ps, KFree)]) ++ (b, sz, KFree) :: post) (b :: l)
           st st' ->
      Q p st') ->
  wp (coalesce b) Q st.
Proof.
  intros HR Hnb Hp Kn HQ. pose proof (R_layout _ _ _ HR) as HL.
  assert (Ep : prev_block (pre' ++ [(p, ps, KFree)]) b = (p, ps, KFree))
    by apply prev_block_last.
  assert (Hpv : bkind (prev_block (pre' ++ [(p, ps, KFree)]) b) <> KRaw)
    by (rewrite Ep; discriminate).
  assert (Hnx : bkind (next_block b sz post) <> KRaw)
    by (rewrite Kn; discriminate).
  assert (Hne : pre' ++ [(p, ps, KFree)] <> [])
    by (intros E; apply app_eq_nil in E; destruct E; discriminate).
  pose proof (self_facts _ _ _ _ _ HL)
    as (A1 & A2 & A3 & A4 & A5 & A6 & A7 & A8 & A9).
  destruct (layout_prev _ _ _ _ _ _ HL Hne) as (Hin & Eb).
  rewrite Ep in Hin, Eb. cbn [baddr bsize fst snd] in Eb.
  pose proof (layout_in _ _ _ _ _ HL Hin) as (B1 & B2 & B3 & B4 & B5 & B6).
  pose proof (L_small _ _ HL) as G5. pose proof (L_brk _ _ HL) as G6.
  unfold MINIMUM in *.
  coalesce_reads HL Hpv Hnx. rewrite Ep, Kn.
  cbn [bkind snd is_free negb kind_bit Z.eqb andb].
  apply wp_bind.
  eapply wp_bind_run; [exact (run_prev _ _ _ _ _ HL Hpv)|].
  eapply wp_bind_run; [exact (run_prev_size _ _ _ _ _ HL Hpv Hne)|].
  eapply wp_bind_run; [exact (run_prev _ _ _ _ _ HL Hpv)|].
  rewrite Ep. cbn [baddr bsize fst snd].
  rewrite u64_small by lia. rewrite PACK_free.
  replace (sz + ps) with (ps + sz) by lia.
  apply wp_bind. eapply fremove_spec; [exact HR | exact Hp |].
  intros st1 HR1 HF1 Hb1 W1.
  rewrite <- app_assoc in HR1. cbn [app] in HR1.
  eapply (retag_spec st1 pre' [(p, ps, KFree); (b, sz, KFree)] post _
                     p (ps + sz) (p + (ps + sz)) KFree).
  - exact HR1.
  - discriminate.
  - cbn [chain baddr bsize fst snd]. repeat split; lia.
  - unfold MINIMUM. lia.
  - apply mod8_add; assumption.
  - left. reflexivity.
  - discriminate.
  - intros x s' k' Hx [E | [E | []]]; inversion E; subst; auto.
    exfalso. apply in_remove in Hx. tauto.
  - intros st2 HR2 HF2 Hb2 Hf2 W2 _.
    rewrite raw_rest_same in HR2. cbn [app] in HR2.
    apply wp_ret. apply wp_bind. eapply fcons_spec; [exact HR2 | | |].
    + apply in_or_app. right. left. reflexivity.
    + intros H. apply in_remove in H. tauto.
    + intros st3 HR3 HF3 Hb3 W3. apply wp_ret. apply HQ; auto.
      * eapply frame_trans; [exact HF1|]. eapply frame_trans; eauto.
      * congruence.
      * eapply kept_trans; [kept_via W1|].
        eapply kept_trans; [kept_via W2 | kept_via W3].
Qed.

Lemma coalesce_case4 st pre' p ps b sz n ns post' l (Q : Z -> state -> Prop) :
  R st ((pre' ++ [(p, ps, KFree)]) ++
        (b, sz, KFree) :: (n, ns, KFree) :: post') l ->
  ~ In b l -> In p l -> In n l ->
  (forall st',
      R st' (pre' ++ (p, ps + sz + ns, KFree) :: post')
        (p :: remove Z.eq_dec n (remove Z.eq_dec p l)) ->
      frame st st' -> mem_brk st' = mem_brk st ->
      kept ((pre' ++ [(p, ps, KFree)]) ++
            (b, sz, KFree) :: (n, ns, KFree) :: post') (b :: l) st st' ->
      Q p st') ->
  wp (coalesce b) Q st.
Proof.
  intros HR Hnb Hp Hn HQ. pose proof (R_layout _ _ _ HR) as HL.
  assert (Ep : prev_block (pre' ++ [(p, ps, KFree)]) b = (p, ps, KFree))
    by apply prev_block_last.
  assert (Hpv : bkind (prev_block (pre' ++ [(p, ps, KFree)]) b) <> KRaw)
    by (rewrite Ep; discriminate).
  assert (Hnx : bkind (next_block b sz ((n, ns, KFree) :: post')) <> KRaw)
    by (cbn; discriminate).
  assert (Hne : pre' ++ [(p, ps, KFree)] <> [])
    by (intros E; apply app_eq_nil in E; destruct E; discriminate).
  pose proof (self_facts _ _ _ _ _ HL)
    as (A1 & A2 & A3 & A4 & A5 & A6 & A7 & A8 & A9).
  destruct (layout_prev _ _ _ _ _ _ HL Hne) as (Hin & Eb).
  rewrite Ep in Hin, Eb. cbn [baddr bsize fst snd] in Eb.
  pose proof (layout_in _ _ _ _ _ HL Hin) as (B1 & B2 & B3 & B4 & B5 & B6).
  assert (Hinn : In (n, ns, KFree)
                    ((pre' ++ [(p, ps, KFree)]) ++
                     (b, sz, KFree) :: (n, ns, KFree) :: post'))
    by (apply in_or_app; right; right; left; reflexivity).
  pose proof (layout_in _ _ _ _ _ HL Hinn) as (C1 & C2 & C3 & C4 & C5 & C6).
  assert (En : n = b + sz).
  { destruct (layout_next _ _ _ _ _ _ HL) as [(E & _) | (_ & _ & E)];
      [discriminate | exact E]. }
  pose proof (L_small _ _ HL) as G5. pose proof (L_brk _ _ HL) as G6.
  unfold MINIMUM in *.
  coalesce_reads HL Hpv Hnx. rewrite Ep.
  cbn [next_block hd bkind snd is_free negb kind_bit Z.eqb andb].
  apply wp_bind.
  eapply wp_bind_run; [exact (run_prev _ _ _ _ _ HL Hpv)|].
  eapply wp_bind_run; [exact (run_prev_size _ _ _ _ _ HL Hpv Hne)|].
  eapply wp_bind_run; [exact (run_self_next _ _ _ _ _ HL)|].
  eapply wp_bind_run;
    [apply (run_next_size _ _ _ _ _ HL Hnx); discriminate|].
  eapply wp_bind_run; [exact (run_prev _ _ _ _ _ HL Hpv)|].
  rewrite Ep. cbn [next_block hd baddr bsize fst snd].
  rewrite u32_small by lia. rewrite u64_small by lia. rewrite PACK_free.
  replace (sz + (ps + ns)) with (ps + sz + ns) by lia.
  apply wp_bind. eapply fremove_spec; [exact HR | exact Hp |].
  intros st1 HR1 HF1 Hb1 W1. pose proof (R_layout _ _ _ HR1) as HL1.
  eapply wp_bind_run; [exact (run_self_next _ _ _ _ _ HL1)|].
  rewrite <- En.
  assert (Hn1 : In n (remove Z.eq_dec p l)) by (apply in_in_remove; [lia | exact Hn]).
  apply wp_bind. eapply fremove_spec; [exact HR1 | exact Hn1 |].
  intros st2 HR2 HF2 Hb2 W2. pose proof (R_layout _ _ _ HR2) as HL2.
  eapply wp_bind_run; [exact (run_prev _ _ _ _ _ HL2 Hpv)|].
  rewrite Ep. cbn [baddr fst].
  rewrite <- app_assoc in HR2. cbn [app] in HR2.
  eapply (retag_spec st2 pre'
            [(p, ps, KFree); (b, sz, KFree); (n, ns, KFree)] post' _
            p (ps + sz + ns) (p + (ps + sz + ns)) KFree).
  - exact HR2.
  - discriminate.
  - cbn [chain baddr bsize fst snd]. repeat split; lia.
  - unfold MINIMUM. lia.
  - apply mod8_add; [apply mod8_add|]; assumption.
  - left. reflexivity.
  - discriminate.
  - intros x s' k' Hx [E | [E | [E | []]]]; inversion E; subst; auto.
    + exfalso. apply in_remove in Hx. destruct Hx as (Hx & _).
      apply in_remove in Hx. tauto.
    + exfalso. apply in_remove in Hx. tauto.
  - intros st3 HR3 HF3 Hb3 Hf3 W3 _.
    rewrite raw_rest_same in HR3. cbn [app] in HR3.
    apply wp_ret. apply wp_bind. eapply fcons_spec; [exact HR3 | | |].
    + apply in_or_app. right. left. reflexivity.
    + intros H. apply in_remove in H. destruct H as (H & _).
      apply in_remove in H. tauto.
    + intros st4 HR4 HF4 Hb4 W4. apply wp_ret. apply HQ; auto.
      * eapply frame_trans; [exact HF1|]. eapply frame_trans; [exact HF2|].
        eapply frame_trans; eauto.
      * congruence.
      * eapply kept_trans; [kept_via W1|].
        eapply kept_trans; [kept_via W2|].
        eapply kept_trans; [kept_via W3 | kept_via W4].
Qed.

(** ** Coalescing *)

Lemma good_prev st pre b sz post l :
  layout st (pre ++ (b, sz, KFree) :: post) ->
  good_but b (pre ++ (b, sz, KFree) :: post) l ->
  bkind (prev_block pre b) <> KRaw /\
  (bkind (prev_block pre b) = KFree ->
   pre = removelast pre ++ [prev_block pre b] /\
   In (baddr (prev_block pre b)) l).
Proof.
  intros HL Hg.
  destruct (prev_cases pre b) as [(E & Ep) | (Hne & E)].
  - rewrite Ep. cbn [bkind snd]. split; discriminate.
  - destruct (layout_prev _ _ _ _ _ _ HL Hne) as (Hin & Eb).
    rewrite (block_eta (prev_block pre b)) in Hin.
    pose proof (layout_in _ _ _ _ _ HL Hin) as (B1 & B2 & B3 & B4 & B5 & B6).
    unfold MINIMUM in *.
    destruct (Hg _ _ _ Hin) as (G1 & G2); [lia|].
    split; [exact G1|]. intros Hk. split; [exact E | tauto].
Qed.

Lemma good_next st pre b sz post l :
  layout st (pre ++ (b, sz, KFree) :: post) ->
  good_but b (pre ++ (b, sz, KFree) :: post) l ->
  bkind (next_block b sz post) <> KRaw /\
  (bkind (next_block b sz post) = KFree ->
   post = next_block b sz post :: tl post /\
   In (baddr (next_block b sz post)) l).
Proof.
  intros HL Hg.
  pose proof (self_facts _ _ _ _ _ HL)
    as (A1 & A2 & A3 & A4 & A5 & A6 & A7 & A8 & A9).
  destruct (layout_next _ _ _ _ _ _ HL) as [(E & _) | (E & Hin & Ea)].
  - subst post. cbn [next_block hd bkind snd]. split; discriminate.
  - rewrite (block_eta (next_block b sz post)) in Hin.
    unfold MINIMUM in *.
    destruct (Hg _ _ _ Hin) as (G1 & G2); [lia|].
    split; [exact G1|]. intros Hk. split; [exact E | tauto].
Qed.

Lemma coalesce_spec st pre b sz post l (Q : Z -> state -> Prop) :
  R st (pre ++ (b, sz, KFree) :: post) l -> ~ In b l ->
  good_but b (pre ++ (b, sz, KFree) :: post) l ->
  (forall st' bs' l' r,
      coalesced pre b sz post l = (bs', l', r) ->
      R st' bs' l' -> frame st st' -> mem_brk st' = mem_brk st ->
      kept (pre ++ (b, sz, KFree) :: post) (b :: l) st st' -> Q r st') ->
  wp (coalesce b) Q st.
Proof.
  intros HR Hnb Hg HQ. pose proof (R_layout _ _ _ HR) as HL.
  destruct (good_prev _ _ _ _ _ _ HL Hg) as (Hpv & Hpf).
  destruct (good_next _ _ _ _ _ _ HL Hg) as (Hnx & Hnf).
  assert (Hc : forall bs' l' r,
             (let pv := prev_block pre b in
              let nx := next_block b sz post in
              match is_free (bkind pv), is_free (bkind nx) with
              | false, false => (pre ++ (b, sz, KFree) :: post, b :: l, b)
              | false, true =>
                  (pre ++ (b, sz + bsize nx, KFree) :: tl post,
                   b :: remove Z.eq_dec (baddr nx) l, b)
              | true, false =>
                  (removelast pre ++ (baddr pv, bsize pv + sz, KFree) :: post,
                   baddr pv :: remove Z.eq_dec (baddr pv) l, baddr pv)
              | true, true =>
                  (removelast pre ++
                     (baddr pv, bsize pv + sz + bsize nx, KFree) :: tl post,
                   baddr pv ::
                     remove Z.eq_dec (baddr nx)
                       (remove Z.eq_dec (baddr pv) l),
                   baddr pv)
              end) = (bs', l', r) ->
             coalesced pre b sz post l = (bs', l', r))
    by (intros bs' l' r H; exact H).
  destruct (prev_block pre b) as [[p ps] kp] eqn:Epv.
  destruct (next_block b sz post) as [[n ns] kn] eqn:Enx.
  cbn [bkind baddr bsize fst snd] in *.
  destruct kp; try contradiction; destruct kn; try contradiction;
    cbn [is_free] in Hc.
  - eapply coalesce_case1; eauto; try (rewrite ?Epv, ?Enx; reflexivity).
  - destruct (Hnf eq_refl) as (Epost & Hn).
    assert (HR' : R st (pre ++ (b, sz, KFree) :: (n, ns, KFree) :: tl post) l)
      by (rewrite <- Epost; exact HR).
    eapply coalesce_case2; eauto; try (rewrite ?Epv; reflexivity).
    intros st' HR1 HF1 Hb1 HW. rewrite <- Epost in HW. eauto.
  - destruct (Hpf eq_refl) as (Epre & Hp).
    assert (HR' : R st ((removelast pre ++ [(p, ps, KFree)]) ++
                        (b, sz, KFree) :: post) l)
      by (rewrite <- Epre; exact HR).
    eapply coalesce_case3; eauto; try (rewrite ?Enx; reflexivity).
    intros st' HR1 HF1 Hb1 HW. rewrite <- Epre in HW. eauto.
  - destruct (Hpf eq_refl) as (Epre & Hp).
    destruct (Hnf eq_refl) as (Epost & Hn).
    assert (HR' : R st ((removelast pre ++ [(p, ps, KFree)]) ++
                        (b, sz, KFree) :: (n, ns, KFree) :: tl post) l)
      by (rewrite <- Epre, <- Epost; exact HR).
    eapply coalesce_case4; eauto.
    intros st' HR1 HF1 Hb1 HW. rewrite <- Epre, <- Epost in HW. eauto.
Qed.

(** ** The invariants across coalescing *)

Lemma zipper_order st pre b sz k post :
  layout st (pre ++ (b, sz, k) :: post) ->
  (forall blk, In blk pre -> baddr blk + MINIMUM <= b) /\
  (forall blk, In blk post -> b + sz <= baddr blk) /\
  MINIMUM <= sz.
Proof.
  intros HL. pose proof (layout_sized _ _ HL) as Hs.
  pose proof (L_chain _ _ HL) as Hc.
  apply chain_split in Hc. destruct Hc as (Hc1 & Hc2).
  cbn [baddr bsize fst snd] in *.
  apply sized_app in Hs. destruct Hs as (Hs1 & Hs2).
  pose proof (sized_in _ _ Hs2 (or_introl eq_refl)) as (Hsz & _).
  cbn [bsize fst snd] in Hsz.
  change ((b, sz, k) :: post) with ([(b, sz, k)] ++ post) in Hs2.
  apply sized_app in Hs2. destruct Hs2 as (_ & Hs2).
  split; [|split; [|exact Hsz]].
  - intros blk Hin. pose proof (chain_in _ _ _ _ Hs1 Hc1 Hin).
    pose proof (sized_in _ _ Hs1 Hin). lia.
  - intros blk Hin. pose proof (chain_in _ _ _ _ Hs2 Hc2 Hin). lia.
Qed.

Lemma no_adj_app xs ys :
  no_adj (xs ++ ys) <->
  no_adj xs /\ no_adj ys /\
  (xs <> [] -> ys <> [] ->
   ~ (bkind (last xs (0, 0, KAlloc)) = KFree /\
      bkind (hd (0, 0, KAlloc) ys) = KFree)).
Proof.
  induction xs as [|a xs IH].
  - cbn [app no_adj]. split; [intros H | tauto].
    split; [exact I|]. split; [exact H|]. intros C. contradiction.
  - destruct xs as [|a' xs].
    + cbn [app last]. destruct ys as [|y ys].
      * cbn [no_adj]. split; [intros _ | tauto].
        split; [exact I|]. split; [exact I|]. intros _ C. contradiction.
      * cbn [no_adj hd]. split.
        -- intros (H1 & H2). split; [exact I|]. split; [exact H2|].
           intros _ _. exact H1.
        -- intros (_ & H2 & H3). split; [|exact H2].
           apply H3; discriminate.
    + change ((a :: a' :: xs) ++ ys) with (a :: (a' :: xs) ++ ys).
      change (no_adj (a :: (a' :: xs) ++ ys))
        with (~ (bkind a = KFree /\ bkind a' = KFree) /\
              no_adj ((a' :: xs) ++ ys)).
      change (no_adj (a :: a' :: xs))
        with (~ (bkind a = KFree /\ bkind a' = KFree) /\ no_adj (a' :: xs)).
      rewrite IH.
      change (last (a :: a' :: xs) (0, 0, KAlloc))
        with (last (a' :: xs) (0, 0, KAlloc)).
      split.
      * intros (H1 & H2 & H3 & H4). repeat split; auto.
        intros _ Hy. apply H4; [discriminate | exact Hy].
      * intros ((H1 & H2) & H3 & H4). repeat split; auto.
        intros _ Hy. apply H4; [discriminate | exact Hy].
Qed.

Lemma no_adj_single b : no_adj [b].
Proof. exact I. Qed.

(** A block between two sequences without adjacent free blocks, when its
    neighbours are not both free with it. *)
Lemma no_adj_insert xs (y : block) zs :
  no_adj xs -> no_adj zs ->
  (xs <> [] -> ~ (bkind (last xs (0, 0, KAlloc)) = KFree /\ bkind y = KFree)) ->
  (zs <> [] -> ~ (bkind y = KFree /\ bkind (hd (0, 0, KAlloc) zs) = KFree)) ->
  no_adj (xs ++ y :: zs).
Proof.
  intros H1 H2 H3 H4. apply no_adj_app. split; [exact H1|]. split.
  - change (y :: zs) with ([y] ++ zs). apply no_adj_app.
    split; [exact I|]. split; [exact H2|]. intros _ Hz. cbn [last].
    apply H4. exact Hz.
  - intros Hx _. cbn [hd]. apply H3. exact Hx.
Qed.

Lemma no_adj_split xs (y : block) zs :
  no_adj (xs ++ y :: zs) ->
  no_adj xs /\ no_adj zs /\
  (xs <> [] -> ~ (bkind (last xs (0, 0, KAlloc)) = KFree /\ bkind y = KFree)) /\
  (zs <> [] -> ~ (bkind y = KFree /\ bkind (hd (0, 0, KAlloc) zs) = KFree)).
Proof.
  intros H. apply no_adj_app in H. destruct H as (H1 & H2 & H3).
  change (y :: zs) with ([y] ++ zs) in H2. apply no_adj_app in H2.
  destruct H2 as (_ & H2 & H4). cbn [last hd] in *.
  repeat split; auto.
  - intros Hx. apply H3; [exact Hx | discriminate].
  - intros Hz. apply H4; [discriminate | exact Hz].
Qed.

Lemma last_default (xs : list block) d d' : xs <> [] -> last xs d = last xs d'.
Proof.
  induction xs as [|a xs IH]; [contradiction|]. intros _.
  destruct xs as [|a' xs]; [reflexivity|].
  change (last (a' :: xs) d = last (a' :: xs) d'). apply IH. discriminate.
Qed.

Lemma hd_default (xs : list block) d d' : xs <> [] -> hd d xs = hd d' xs.
Proof. destruct xs; [contradiction | reflexivity]. Qed.

Lemma in_remove_iff (x y : Z) l :
  In x (remove Z.eq_dec y l) <-> In x l /\ x <> y.
Proof.
  split; [apply in_remove | intros (H1 & H2); apply in_in_remove; auto].
Qed.

Lemma coalesced_props st pre b sz post l bs' l' r :
  layout st (pre ++ (b, sz, KFree) :: post) ->
  good_but b (pre ++ (b, sz, KFree) :: post) l -> ~ In b l ->
  no_adj (pre ++ (b, sz, KAlloc) :: post) ->
  coalesced pre b sz post l = (bs', l', r) ->
  good bs' l' /\ no_adj bs' /\
  (forall x s, In (x, s, KAlloc) bs' <-> In (x, s, KAlloc) (pre ++ post)) /\
  (exists s', In (r, s', KFree) bs' /\ r <= b /\ b + sz <= r + s') /\
  In r l'.
Proof.
  intros HL Hg Hnb Hna Hco.
  destruct (good_prev _ _ _ _ _ _ HL Hg) as (Hpv & Hpf).
  destruct (good_next _ _ _ _ _ _ HL Hg) as (Hnx & Hnf).
  destruct (zipper_order _ _ _ _ _ _ HL) as (O1 & O2 & O3).
  destruct (no_adj_split _ _ _ Hna) as (N1 & N2 & _ & _).
  assert (Hgp : forall x s k, In (x, s, k) pre ->
                  x + MINIMUM <= b /\ k <> KRaw /\ (k = KFree <-> In x l)).
  { intros x s k Hin. pose proof (O1 _ Hin) as Ho. cbn [baddr fst] in Ho.
    split; [exact Ho|]. apply (Hg x s k).
    - apply in_or_app. left. exact Hin.
    - unfold MINIMUM in *. lia. }
  assert (Hgq : forall x s k, In (x, s, k) post ->
                  b + sz <= x /\ k <> KRaw /\ (k = KFree <-> In x l)).
  { intros x s k Hin. pose proof (O2 _ Hin) as Ho. cbn [baddr fst] in Ho.
    split; [exact Ho|]. apply (Hg x s k).
    - apply in_or_app. right. right. exact Hin.
    - unfold MINIMUM in *. lia. }
  assert (Kpre : pre <> [] ->
                 bkind (last pre (0, 0, KAlloc)) = bkind (prev_block pre b))
    by (intros H; unfold prev_block; f_equal; apply last_default; exact H).
  assert (Kpost : post <> [] ->
                  bkind (hd (0, 0, KAlloc) post) =
                  bkind (next_block b sz post))
    by (intros H; unfold next_block; f_equal; apply hd_default; exact H).
  unfold coalesced in Hco.
  destruct (prev_block pre b) as [[p ps] kp] eqn:Epv.
  destruct (next_block b sz post) as [[n ns] kn] eqn:Enx.
  cbn [bkind baddr bsize fst snd] in *. unfold MINIMUM in *.
  destruct kp; try contradiction; destruct kn; try contradiction;
    cbn [is_free] in Hco; inversion Hco; subst bs' l' r; clear Hco.
  - (* neither neighbour is free *)
    split; [|split; [|split; [|split]]].
    + intros x s k Hin. apply in_app_or in Hin.
      destruct Hin as [Hin | [E | Hin]].
      * destruct (Hgp _ _ _ Hin) as (G1 & G2 & G3).
        split; [exact G2|]. rewrite G3. cbn [In].
        split; [auto | intros [E | H]; [lia | exact H]].
      * inversion E; subst. split; [discriminate|].
        split; intros; [left|]; reflexivity.
      * destruct (Hgq _ _ _ Hin) as (G1 & G2 & G3).
        split; [exact G2|]. rewrite G3. cbn [In].
        split; [auto | intros [E | H]; [lia | exact H]].
    + apply no_adj_insert; auto.
      * intros H. rewrite (Kpre H). intros (C & _). discriminate.
      * intros H. rewrite (Kpost H). intros (_ & C). discriminate.
    + intros x s. rewrite !in_app_iff. cbn [In]. intuition congruence.
    + exists sz. split; [|lia]. apply in_or_app. right. left. reflexivity.
    + left. reflexivity.
  - (* the next block is free *)
    destruct (Hnf eq_refl) as (Epost & Hn).
    remember (tl post) as post' eqn:Ep'. clear Ep'. subst post.
    assert (En : n = b + sz).
    { destruct (layout_next _ _ _ _ _ _ HL) as [(E & _) | (_ & _ & E)];
        [discriminate | exact E]. }
    pose proof HL as HL'.
    change (pre ++ (b, sz, KFree) :: (n, ns, KFree) :: post')
      with (pre ++ [(b, sz, KFree)] ++ (n, ns, KFree) :: post') in HL'.
    rewrite app_assoc in HL'.
    destruct (zipper_order _ _ _ _ _ _ HL') as (_ & O4 & O5).
    unfold MINIMUM in *.
    change ((n, ns, KFree) :: post') with ([(n, ns, KFree)] ++ post') in N2.
    apply no_adj_app in N2. destruct N2 as (_ & N2 & N3). cbn [last] in N3.
    cbn [tl]. split; [|split; [|split; [|split]]].
    + intros x s k Hin. apply in_app_or in Hin.
      destruct Hin as [Hin | [E | Hin]].
      * destruct (Hgp _ _ _ Hin) as (G1 & G2 & G3).
        split; [exact G2|]. rewrite G3. cbn [In]. rewrite in_remove_iff.
        split; [intros H; right; split; [exact H | lia]
               | intros [E | (H & _)]; [lia | exact H]].
      * inversion E; subst. split; [discriminate|].
        split; intros; [left|]; reflexivity.
      * pose proof (O4 _ Hin) as Ho. cbn [baddr fst] in Ho.
        destruct (Hgq x s k) as (G1 & G2 & G3); [right; exact Hin|].
        split; [exact G2|]. rewrite G3. cbn [In]. rewrite in_remove_iff.
        split; [intros H; right; split; [exact H | lia]
               | intros [E | (H & _)]; [lia | exact H]].
    + apply no_adj_insert; auto.
      * intros H. rewrite (Kpre H). intros (C & _). discriminate.
      * intros H C. apply N3; [discriminate | exact H |]. cbn [bkind snd].
        tauto.
    + intros x s. rewrite !in_app_iff. cbn [In]. intuition congruence.
    + exists (sz + ns). split; [|lia]. apply in_or_app. right. left.
      reflexivity.
    + left. reflexivity.
  - (* the previous block is free *)
    destruct (Hpf eq_refl) as (Epre & Hp).
    remember (removelast pre) as pre' eqn:Ep'. clear Ep'. subst pre.
    assert (Hne : pre' ++ [(p, ps, KFree)] <> [])
      by (intros E; apply app_eq_nil in E; destruct E; discriminate).
    destruct (layout_prev _ _ _ _ _ _ HL Hne) as (_ & Eb).
    rewrite Epv in Eb. cbn [baddr bsize fst snd] in Eb.
    pose proof HL as HL'. rewrite <- app_assoc in HL'. cbn [app] in HL'.
    destruct (zipper_order _ _ _ _ _ _ HL') as (O4 & _ & O5).
    unfold MINIMUM in *.
    apply no_adj_app in N1. destruct N1 as (N1 & _ & N3). cbn [hd] in N3.
    split; [|split; [|split; [|split]]].
    + intros x s k Hin. apply in_app_or in Hin.
      destruct Hin as [Hin | [E | Hin]].
      * pose proof (O4 _ Hin) as Ho. cbn [baddr fst] in Ho.
        destruct (Hgp x s k) as (G1 & G2 & G3);
          [apply in_or_app; left; exact Hin|].
        split; [exact G2|]. rewrite G3. cbn [In]. rewrite in_remove_iff.
        split; [intros H; right; split; [exact H | lia]
               | intros [E | (H & _)]; [lia | exact H]].
      * inversion E; subst. split; [discriminate|].
        split; intros; [left|]; reflexivity.
      * destruct (Hgq _ _ _ Hin) as (G1 & G2 & G3).
        split; [exact G2|]. rewrite G3. cbn [In]. rewrite in_remove_iff.
        split; [intros H; right; split; [exact H | lia]
               | intros [E | (H & _)]; [lia | exact H]].
    + apply no_adj_insert; auto.
      * intros H C. apply N3; [exact H | discriminate |]. cbn [bkind snd].
        tauto.
      * intros H. rewrite (Kpost H). intros (_ & C). discriminate.
    + intros x s. rewrite !in_app_iff. cbn [In]. intuition congruence.
    + exists (ps + sz). split; [|lia]. apply in_or_app. right. left.
      reflexivity.
    + left. reflexivity.
  - (* both neighbours are free *)
    destruct (Hpf eq_refl) as (Epre & Hp).
    destruct (Hnf eq_refl) as (Epost & Hn).
    remember (tl post) as post' eqn:Ep'. clear Ep'. subst post.
    remember (removelast pre) as pre' eqn:Ep'. clear Ep'. subst pre.
    assert (Hne : pre' ++ [(p, ps, KFree)] <> [])
      by (intros E; apply app_eq_nil in E; destruct E; discriminate).
    destruct (layout_prev _ _ _ _ _ _ HL Hne) as (_ & Eb).
    rewrite Epv in Eb. cbn [baddr bsize fst snd] in Eb.
    assert (En : n = b + sz).
    { destruct (layout_next _ _ _ _ _ _ HL) as [(E & _) | (_ & _ & E)];
        [discriminate | exact E]. }
    pose proof HL as HL1. rewrite <- app_assoc in HL1. cbn [app] in HL1.
    destruct (zipper_order _ _ _ _ _ _ HL1) as (O4 & _ & O5).
    pose proof HL as HL2.
    change ((pre' ++ [(p, ps, KFree)]) ++
            (b, sz, KFree) :: (n, ns, KFree) :: post')
      with ((pre' ++ [(p, ps, KFree)]) ++
            [(b, sz, KFree)] ++ (n, ns, KFree) :: post') in HL2.
    rewrite app_assoc in HL2.
    destruct (zipper_order _ _ _ _ _ _ HL2) as (_ & O6 & O7).
    unfold MINIMUM in *.
    apply no_adj_app in N1. destruct N1 as (N1 & _ & N3). cbn [hd] in N3.
    change ((n, ns, KFree) :: post') with ([(n, ns, KFree)] ++ post') in N2.
    apply no_adj_app in N2. destruct N2 as (_ & N2 & N4). cbn [last] in N4.
    cbn [tl]. split; [|split; [|split; [|split]]].
    + intros x s k Hin. apply in_app_or in Hin.
      destruct Hin as [Hin | [E | Hin]].
      * pose proof (O4 _ Hin) as Ho. cbn [baddr fst] in Ho.
        destruct (Hgp x s k) as (G1 & G2 & G3);
          [apply in_or_app; left; exact Hin|].
        split; [exact G2|]. rewrite G3. cbn [In]. rewrite !in_remove_iff.
        split; [intros H; right; repeat split; [exact H | lia | lia]
               | intros [E | ((H & _) & _)]; [lia | exact H]].
      * inversion E; subst. split; [discriminate|].
        split; intros; [left|]; reflexivity.
      * pose proof (O6 _ Hin) as Ho. cbn [baddr fst] in Ho.
        destruct (Hgq x s k) as (G1 & G2 & G3); [right; exact Hin|].
        split; [exact G2|]. rewrite G3. cbn [In]. rewrite !in_remove_iff.
        split; [intros H; right; repeat split; [exact H | lia | lia]
               | intros [E | ((H & _) & _)]; [lia | exact H]].
    + apply no_adj_insert; auto.
      * intros H C. apply N3; [exact H | discriminate |]. cbn [bkind snd].
        tauto.
      * intros H C. apply N4; [discriminate | exact H |]. cbn [bkind snd].
        tauto.
    + intros x s. rewrite !in_app_iff. cbn [In]. intuition congruence.
    + exists (ps + sz + ns). split; [|lia]. apply in_or_app. right. left.
      reflexivity.
    + left. reflexivity.
Qed.

(** ** First fit *)

Lemma nodup_bounded (l : list Z) lo hi :
  NoDup l -> (forall x, In x l -> lo <= x < hi) ->
  Z.of_nat (length l) <= Z.max 0 (hi - lo).
Proof.
  intros Hnd Hb.
  set (n := Z.to_nat (hi - lo)).
  assert (Hincl : incl l (map (fun i => lo + Z.of_nat i) (seq 0 n))).
  { intros x Hx. specialize (Hb x Hx). apply in_map_iff.
    exists (Z.to_nat (x - lo)). split; [lia|].
    apply in_seq. unfold n. lia. }
  pose proof (NoDup_incl_length Hnd Hincl) as Hlen.
  rewrite length_map, length_seq in Hlen. unfold n in Hlen. lia.
Qed.

Lemma links_length st bs l :
  layout st bs -> links st l -> nodes l bs ->
  (length l < S (Z.to_nat (mem_brk st - mem_heap st)))%nat.
Proof.
  intros HL HK HN.
  pose proof (layout_bounds _ _ HL) as (G1 & G2 & G3 & G4).
  assert (Hb : forall x, In x l -> mem_heap st <= x < mem_brk st).
  { intros x Hx. pose proof (nodes_in _ _ _ _ HL HN Hx).
    unfold MINIMUM in *. lia. }
  pose proof (nodup_bounded _ _ _ (K_nodup _ _ HK) Hb). lia.
Qed.

Lemma find_fit_loop_spec st bs l asize :
  R st bs l -> good bs l ->
  forall l2 l1 fuel,
    l = l1 ++ l2 -> (length l2 < fuel)%nat ->
    (forall x s, In x l1 -> In (x, s, KFree) bs -> s < asize) ->
    wp (find_fit_loop fuel asize (hd (heap_listp st + 8) l2))
       (fun r st' => st' = st /\ fit_result bs l asize r) st.
Proof.
  intros HR Hg. pose proof (R_layout _ _ _ HR) as HL.
  pose proof (layout_bounds _ _ HL) as (G1 & G2 & G3 & G4).
  induction l2 as [|x l2 IH]; intros l1 fuel El Hfuel Hsmall.
  - destruct fuel as [|fuel]; [inversion Hfuel|].
    cbn [hd find_fit_loop]. unfold HDRP, WSIZE.
    eapply wp_bind_run; [apply run_GET_ALLOC; lia|].
    replace (heap_listp st + 8 - 4) with (heap_listp st + 4) by lia.
    rewrite (L_prologue_hdr _ _ HL).
    change (alloc_of_word (MINIMUM + 1) =? 0) with false. cbv iota.
    apply wp_ret. split; [reflexivity|]. left. split; [reflexivity|].
    intros y s Hin. rewrite app_nil_r in El. subst l1.
    apply (Hsmall y s); [|exact Hin].
    destruct (Hg _ _ _ Hin) as (_ & H). apply H. reflexivity.
  - destruct fuel as [|fuel]; [inversion Hfuel|].
    cbn [hd find_fit_loop].
    assert (Hx : In x l) by (rewrite El; apply in_or_app; right; left; reflexivity).
    destruct (R_nodes _ _ _ HR x Hx) as (c & k & Hin).
    assert (k = KFree) by (apply (Hg _ _ _ Hin); exact Hx). subst k.
    pose proof (layout_in _ _ _ _ _ HL Hin) as (B1 & B2 & B3 & B4 & B5 & B6).
    destruct (layout_hdr_size _ _ _ _ _ HL Hin) as (E1 & _ & E3 & _);
      [discriminate|].
    unfold HDRP, WSIZE, MINIMUM in *.
    eapply wp_bind_run; [apply run_GET_ALLOC; lia|]. rewrite E3.
    change (0 =? 0) with true. cbv iota.
    eapply wp_bind_run; [apply run_GET_SIZE; lia|]. rewrite E1.
    destruct (Z.leb_spec asize c) as [Hle | Hlt].
    + apply wp_ret. split; [reflexivity|]. right.
      exists l1, l2, c. auto.
    + pose proof (K_dlist _ _ (R_links _ _ _ HR)) as Hd.
      rewrite El in Hd. apply dlist_app in Hd. destruct Hd as (_ & Hd).
      cbn [dlist] in Hd. destruct Hd as (_ & Hs & _).
      eapply wp_bind_run; [apply run_SUCC; lia|]. rewrite Hs.
      apply (IH (l1 ++ [x]) fuel).
      * rewrite <- app_assoc. exact El.
      * cbn [length] in Hfuel. lia.
      * intros y s Hy Hiny. apply in_app_or in Hy.
        destruct Hy as [Hy | [<- | []]]; [eapply Hsmall; eauto|].
        destruct (layout_sep _ _ _ _ _ _ _ _ HL Hin Hiny) as [(_ & E & _) | E];
          lia.
Qed.

Lemma find_fit_spec st bs l asize (Q : Z -> state -> Prop) :
  R st bs l -> good bs l ->
  (forall r, fit_result bs l asize r -> Q r st) ->
  wp (find_fit asize) Q st.
Proof.
  intros HR Hg HQ. unfold find_fit.
  eapply wp_bind_run; [reflexivity|].
  rewrite (K_head _ _ (R_links _ _ _ HR)).
  eapply wp_mono.
  - apply (find_fit_loop_spec st bs l asize HR Hg l []); auto.
    + eapply links_length; [apply HR ..].
    + intros x s [].
  - intros r s (-> & H). apply HQ. exact H.
Qed.

(** ** Placement *)

Lemma good_good_but bs l b : good bs l -> good_but b bs l.
Proof. intros H x s k Hin _. eapply H; eauto. Qed.

Lemma place_spec st pre b c post l asize (Q : unit -> state -> Prop) :
  R st (pre ++ (b, c, KFree) :: post) l ->
  good (pre ++ (b, c, KFree) :: post) l ->
  no_adj (pre ++ (b, c, KFree) :: post) ->
  MINIMUM <= asize <= c -> asize mod 8 = 0 ->
  (forall st' bs' l',
      placed pre b c post l asize = (bs', l') ->
      R st' bs' l' -> good bs' l' -> no_adj bs' ->
      (forall x s, In (x, s, KAlloc) bs' <->
                   (x = b /\ s = if c - asize >=? MINIMUM then asize else c)
                   \/ In (x, s, KAlloc) (pre ++ post)) ->
      frame st st' -> mem_brk st' = mem_brk st ->
      kept (pre ++ post) [] st st' -> Q tt st') ->
  wp (place b asize) Q st.
Proof.
  intros HR Hg Hna Has Ha8 HQ. pose proof (R_layout _ _ _ HR) as HL.
  pose proof (self_facts _ _ _ _ _ HL)
    as (A1 & A2 & A3 & A4 & A5 & A6 & A7 & A8 & A9).
  assert (Hb : In b l).
  { apply (Hg b c KFree); [apply in_self | reflexivity]. }
  destruct (zipper_order _ _ _ _ _ _ HL) as (O1 & O2 & O3).
  destruct (no_adj_split _ _ _ Hna) as (N1 & N2 & N3 & N4).
  assert (Hgp : forall x s k, In (x, s, k) pre ->
                  x + MINIMUM <= b /\ k <> KRaw /\ (k = KFree <-> In x l)).
  { intros x s k Hin. pose proof (O1 _ Hin) as Ho. cbn [baddr fst] in Ho.
    split; [exact Ho|]. apply (Hg x s k). apply in_or_app. left. exact Hin. }
  assert (Hgq : forall x s k, In (x, s, k) post ->
                  b + c <= x /\ k <> KRaw /\ (k = KFree <-> In x l)).
  { intros x s k Hin. pose proof (O2 _ Hin) as Ho. cbn [baddr fst] in Ho.
    split; [exact Ho|]. apply (Hg x s k).
    apply in_or_app. right. right. exact Hin. }
  assert (Hal : forall x s, In (x, s, KAlloc) (pre ++ post) ->
                  ~ In x l /\ (x + MINIMUM <= b \/ b + c <= x)).
  { intros x s Hx. apply in_app_or in Hx. destruct Hx as [Hx | Hx].
    - destruct (Hgp _ _ _ Hx) as (P1 & _ & P3).
      split; [intros C; apply P3 in C; discriminate | left; exact P1].
    - destruct (Hgq _ _ _ Hx) as (P1 & _ & P3).
      split; [intros C; apply P3 in C; discriminate | right; exact P1]. }
  unfold MINIMUM in *.
  unfold place.
  eapply wp_bind_run; [exact (run_self_size _ _ _ _ _ HL)|].
  rewrite u64_small by lia.
  unfold placed in HQ. unfold MINIMUM in *.
  rewrite Z.geb_leb in *.
  destruct (Z.leb_spec 24 (c - asize)) as [Hsplit | Hwhole].
  - (* split *)
    rewrite PACK_alloc by exact Ha8.
    eapply (retag_spec st pre [(b, c, KFree)] post l b asize (b + c) KAlloc);
      try exact HR; try discriminate; try (unfold MINIMUM; lia); auto.
    { cbn [chain baddr bsize fst snd]. auto. }
    { intros x s' k' _ [E | []]. inversion E. reflexivity. }
    intros st1 HR1 HF1 Hb1 Hf1 W1 _.
    unfold raw_rest in HR1.
    replace (b + asize =? b + c) with false in HR1
      by (symmetry; apply Z.eqb_neq; lia).
    replace (b + c - (b + asize)) with (c - asize) in HR1 by lia.
    cbn [app] in HR1.
    apply wp_bind. eapply fremove_spec; [exact HR1 | exact Hb |].
    intros st2 HR2 HF2 Hb2 W2. pose proof (R_layout _ _ _ HR2) as HL2.
    assert (Hin2 : In (b, asize, KAlloc)
                      (pre ++ (b, asize, KAlloc) ::
                       (b + asize, c - asize, KRaw) :: post))
      by (apply in_or_app; right; left; reflexivity).
    destruct (layout_hdr_size _ _ _ _ _ HL2 Hin2) as (E1 & _);
      [discriminate|].
    pose proof (layout_bounds _ _ HL2) as (G1 & G2 & G3 & G4).
    pose proof (layout_in _ _ _ _ _ HL2 Hin2) as (I1 & I2 & _).
    eapply wp_bind_run; [apply run_NEXT_BLKP; lia|]. rewrite E1.
    rewrite PACK_free.
    change (pre ++ (b, asize, KAlloc) :: (b + asize, c - asize, KRaw) :: post)
      with (pre ++ [(b, asize, KAlloc)] ++
            [(b + asize, c - asize, KRaw)] ++ post) in HR2.
    rewrite app_assoc in HR2.
    eapply (retag_spec st2 (pre ++ [(b, asize, KAlloc)])
              [(b + asize, c - asize, KRaw)] post _
              (b + asize) (c - asize) (b + asize + (c - asize)) KFree);
      try exact HR2; try discriminate; try (unfold MINIMUM; lia); auto.
    { cbn [chain baddr bsize fst snd]. auto. }
    { apply mod8_sub; assumption. }
    { intros x s' k' _ [E | []]. inversion E. reflexivity. }
    intros st3 HR3 HF3 Hb3 Hf3 W3 _.
    rewrite raw_rest_same in HR3. cbn [app] in HR3.
    pose proof (R_layout _ _ _ HR3) as HL3.
    assert (Hnr : ~ In (b + asize) (remove Z.eq_dec b l)).
    { intros H. apply in_remove in H. destruct H as (H & _).
      destruct (R_nodes _ _ _ HR _ H) as (sx & kx & Hinx).
      destruct (layout_sep _ _ _ _ _ _ _ _ HL Hinx (in_self pre post b c))
        as [(E & _) | E]; [lia|].
      pose proof (layout_in _ _ _ _ _ HL Hinx). unfold MINIMUM in *. lia. }
    assert (Hgb : good_but (b + asize)
                    ((pre ++ [(b, asize, KAlloc)]) ++
                     (b + asize, c - asize, KFree) :: post)
                    (remove Z.eq_dec b l)).
    { intros x s k Hin Hne. rewrite in_remove_iff.
      apply in_app_or in Hin. destruct Hin as [Hin | [E | Hin]].
      - apply in_app_or in Hin. destruct Hin as [Hin | [E | []]].
        + destruct (Hgp _ _ _ Hin) as (P1 & P2 & P3).
          split; [exact P2|]. rewrite P3.
          split; [intros H; split; [exact H | lia] | tauto].
        + inversion E; subst. split; [discriminate|].
          split; [discriminate | intros (_ & C); contradiction].
      - inversion E; subst. contradiction.
      - destruct (Hgq _ _ _ Hin) as (P1 & P2 & P3).
        split; [exact P2|]. rewrite P3.
        split; [intros H; split; [exact H | lia] | tauto]. }
    assert (Hna3 : no_adj ((pre ++ [(b, asize, KAlloc)]) ++
                           (b + asize, c - asize, KAlloc) :: post)).
    { apply no_adj_insert.
      - apply no_adj_insert;
          [exact N1 | exact I | intros _ (_ & C); discriminate
          | intros C; contradiction].
      - exact N2.
      - intros _ (_ & C). discriminate.
      - intros _ (C & _). discriminate. }
    apply wp_bind. eapply coalesce_spec; [exact HR3 | exact Hnr | exact Hgb |].
    intros st4 bs' l' r Hco HR4 HF4 Hb4 W4. apply wp_ret.
    destruct (coalesced_props _ _ _ _ _ _ _ _ _ HL3 Hgb Hnr Hna3 Hco)
      as (P1 & P2 & P3 & _).
    apply (HQ st4 bs' l'); auto.
    + rewrite Hco. reflexivity.
    + intros x s. rewrite P3. rewrite !in_app_iff. cbn [In].
      split.
      * intros [[H | [E | []]] | H]; auto.
        inversion E; subst. left. auto.
      * intros [(-> & ->) | [H | H]]; auto.
    + eapply frame_trans; [exact HF1|]. eapply frame_trans; [exact HF2|].
      eapply frame_trans; eauto.
    + congruence.
    + eapply kept_trans; [exact W1|].
      eapply kept_trans; [eapply kept_weaken; [exact W2|]|].
      { intros x s Hx _. destruct (Hal x s Hx) as (Hn & _).
        split; [|exact Hn]. rewrite !in_app_iff in *. cbn [In]. tauto. }
      eapply kept_trans; [kept_via W3|].
      eapply kept_weaken; [exact W4|].
      intros x s Hx _. destruct (Hal x s Hx) as (Hn & Ho). split.
      * rewrite !in_app_iff in *. cbn [In]. tauto.
      * intros [C | C]; [lia | apply in_remove in C; tauto].
  - (* no split *)
    rewrite PACK_alloc by exact A4.
    eapply (retag_spec st pre [(b, c, KFree)] post l b c (b + c) KAlloc);
      try exact HR; try discriminate; try (unfold MINIMUM; lia); auto.
    { cbn [chain baddr bsize fst snd]. auto. }
    { intros x s' k' _ [E | []]. inversion E. reflexivity. }
    intros st1 HR1 HF1 Hb1 Hf1 W1 _.
    rewrite raw_rest_same in HR1. cbn [app] in HR1.
    eapply fremove_spec; [exact HR1 | exact Hb |].
    intros st2 HR2 HF2 Hb2 W2.
    apply (HQ st2 _ _ eq_refl); auto.
    + intros x s k Hin. rewrite in_remove_iff.
      apply in_app_or in Hin. destruct Hin as [Hin | [E | Hin]].
      * destruct (Hgp _ _ _ Hin) as (P1 & P2 & P3).
        split; [exact P2|]. rewrite P3.
        split; [intros H; split; [exact H | lia] | tauto].
      * inversion E; subst. split; [discriminate|].
        split; [discriminate | intros (_ & C); contradiction].
      * destruct (Hgq _ _ _ Hin) as (P1 & P2 & P3).
        split; [exact P2|]. rewrite P3.
        split; [intros H; split; [exact H | lia] | tauto].
    + apply no_adj_insert;
        [exact N1 | exact N2 | intros _ (_ & C); discriminate
        | intros _ (C & _); discriminate].
    + intros x s. rewrite !in_app_iff. cbn [In].
      split.
      * intros [H | [E | H]]; auto. inversion E; subst. left. auto.
      * intros [(-> & ->) | [H | H]]; auto.
    + eapply frame_trans; eauto.
    + congruence.
    + eapply kept_trans; [exact W1|].
      eapply kept_weaken; [exact W2|].
      intros x s Hx _. destruct (Hal x s Hx) as (Hn & _).
      split; [|exact Hn]. rewrite !in_app_iff in *. cbn [In]. tauto.
Qed.

(** ** Heap extension *)

Lemma extend_size_eq words sz :
  MINIMUM <= sz < 2 ^ 64 -> sz mod 8 = 0 -> words = sz / 4 ->
  extend_size words = sz.
Proof.
  intros Hr Hm ->. unfold extend_size, MINIMUM, WSIZE in *.
  pose proof (mod8_div sz Hm) as Hd.
  assert (E : sz / 4 = 2 * (sz / 8)).
  { rewrite <- Hd at 1. replace (8 * (sz / 8)) with ((2 * (sz / 8)) * 4) by lia.
    apply Z.div_mul. lia. }
  cbv zeta. rewrite E.
  replace ((2 * (sz / 8)) mod 2) with 0
    by (symmetry; rewrite Z.mul_comm; apply Z_mod_mult).
  cbn [Z.eqb negb]. rewrite u64_small by lia.
  destruct (Z.ltb_spec (2 * (sz / 8) * 4) 24); lia.
Qed.

Lemma extend_size_range words :
  MINIMUM <= extend_size words < 2 ^ 64 /\ extend_size words mod 8 = 0.
Proof.
  unfold extend_size, MINIMUM, WSIZE. cbv zeta.
  assert (H : forall k, 0 <= u64 (8 * k) < 2 ^ 64 /\ u64 (8 * k) mod 8 = 0).
  { intros k. unfold u64. split; [apply Z.mod_pos_bound; lia|].
    rewrite Z.mod_mod_divide by (exists (2 ^ 61); reflexivity).
    rewrite Z.mul_comm. apply Z_mod_mult. }
  pose proof (Z.div_mod words 2 ltac:(lia)) as Hd.
  pose proof (Z.mod_pos_bound words 2 ltac:(lia)) as Hb.
  destruct (Z.eqb_spec (words mod 2) 0) as [E | E]; cbn [negb].
  - replace (words * 4) with (8 * (words / 2)) by lia.
    destruct (H (words / 2)) as (H1 & H2).
    destruct (Z.ltb_spec (u64 (8 * (words / 2))) 24); [split; [lia | reflexivity]|].
    split; [lia | exact H2].
  - replace ((words + 1) * 4) with (8 * (words / 2 + 1)) by lia.
    destruct (H (words / 2 + 1)) as (H1 & H2).
    destruct (Z.ltb_spec (u64 (8 * (words / 2 + 1))) 24);
      [split; [lia | reflexivity]|].
    split; [lia | exact H2].
Qed.

Lemma run_sbrk_fail incr st :
  0 <= incr -> mem_max_addr st < mem_brk st + incr ->
  mem_sbrk incr st = Ok SBRK_FAILED st.
Proof.
  intros H0 H1. unfold mem_sbrk.
  replace (incr <? 0) with false by (symmetry; apply Z.ltb_ge; lia).
  replace (mem_max_addr st <? mem_brk st + incr) with true
    by (symmetry; apply Z.ltb_lt; lia).
  reflexivity.
Qed.

Lemma run_sbrk_ok incr st :
  0 <= incr -> mem_brk st + incr <= mem_max_addr st ->
  mem_sbrk incr st = Ok (mem_brk st) (with_brk st (mem_brk st + incr)).
Proof.
  intros H0 H1. unfold mem_sbrk.
  replace (incr <? 0) with false by (symmetry; apply Z.ltb_ge; lia).
  replace (mem_max_addr st <? mem_brk st + incr) with false
    by (symmetry; apply Z.ltb_ge; lia).
  reflexivity.
Qed.

Lemma extend_heap_kept st bs l words sz (Q : Z -> state -> Prop) :
  R st bs l -> good bs l -> no_adj bs ->
  MINIMUM <= sz < 2 ^ 64 -> sz mod 8 = 0 -> extend_size words = sz ->
  (mem_max_addr st < mem_brk st + sz -> Q NULL st) ->
  (mem_brk st + sz <= mem_max_addr st ->
   forall st' bs' l' r,
     coalesced bs (mem_brk st) sz [] l = (bs', l', r) ->
     R st' bs' l' -> good bs' l' -> no_adj bs' ->
     (forall x s, In (x, s, KAlloc) bs' <-> In (x, s, KAlloc) bs) ->
     (exists s', In (r, s', KFree) bs' /\ sz <= s') -> In r l' ->
     frame st st' -> mem_brk st' = mem_brk st + sz ->
     kept bs [] st st' -> Q r st') ->
  wp (extend_heap words) Q st.
Proof.
  intros HR Hg Hna Hsz Hm8 Hw Hfail Hok.
  pose proof (R_layout _ _ _ HR) as HL.
  pose proof (layout_bounds _ _ HL) as (G1 & G2 & G3 & G4).
  pose proof (L_small _ _ HL) as G5. pose proof (L_brk _ _ HL) as G6.
  pose proof (L_max _ _ HL) as G7.
  pose proof Hw as Esz. unfold extend_size in Esz. cbv zeta in Esz.
  unfold extend_heap. cbv zeta. rewrite !Esz. clear Esz.
  unfold MINIMUM in *.
  destruct (Z.lt_ge_cases (mem_max_addr st) (mem_brk st + sz)) as [Hno | Hyes].
  - eapply wp_bind_run; [apply run_sbrk_fail; lia|].
    unfold SBRK_FAILED. rewrite Z.eqb_refl. apply wp_ret.
    apply Hfail. exact Hno.
  - eapply wp_bind_run; [apply run_sbrk_ok; lia|].
    replace (mem_brk st =? SBRK_FAILED) with false
      by (symmetry; apply Z.eqb_neq; unfold SBRK_FAILED; lia).
    remember (mem_brk st) as b eqn:Eb.
    rewrite PACK_free. cbn [tag]. change (PACK 0 1) with 1.
    assert (Hsw : size_of_word sz = sz)
      by (apply (size_of_tag sz KFree); [lia | exact Hm8]).
    unfold HDRP, WSIZE.
    eapply wp_bind_run; [apply run_PUT; simpl_st; lia|]. simpl_st.
    remember (store 4 (mem st) (b - 4) sz) as m1 eqn:Em1.
    assert (H1 : load 4 m1 (b - 4) = sz)
      by (rewrite Em1; apply load4_store4; lia).
    eapply wp_bind_run; [apply run_FTRP; simpl_st; lia|]. simpl_st.
    rewrite H1, Hsw.
    eapply wp_bind_run; [apply run_PUT; simpl_st; lia|]. simpl_st.
    remember (store 4 m1 (b + sz - 8) sz) as m2 eqn:Em2.
    assert (H2 : load 4 m2 (b - 4) = sz)
      by (rewrite Em2, load_store_disj by slia; exact H1).
    eapply wp_bind_run; [apply run_NEXT_BLKP; simpl_st; lia|]. simpl_st.
    rewrite H2, Hsw.
    eapply wp_bind_run; [apply run_PUT; simpl_st; lia|]. simpl_st.
    remember (store 4 m2 (b + sz - 4) 1) as m3 eqn:Em3.
    assert (Hfar : forall k a, a + Z.of_nat k <= b - 4 ->
                          load k m3 a = load k (mem st) a).
    { intros k a Ha. rewrite Em3, load_store_disj by slia.
      rewrite Em2, load_store_disj by slia.
      rewrite Em1, load_store_disj by slia. reflexivity. }
    set (st3 := mkState m3 (mem_heap st) (b + sz) (mem_max_addr st)
                        (heap_listp st) (free_listp st)).
    assert (HR3 : R st3 (bs ++ [(b, sz, KFree)]) l).
    { constructor.
      - pose proof (L_blocks _ _ HL) as HB.
        pose proof (layout_sized _ _ HL) as Hs.
        pose proof (L_chain _ _ HL) as Hc. rewrite <- Eb in Hc.
        destruct HL. constructor; unfold st3; simpl_st; auto; try lia;
          try (rewrite (Hfar 4%nat) by slia; assumption).
        + apply chain_app. exists b. split; [exact Hc|].
          cbn [chain baddr bsize fst snd]. auto.
        + apply Forall_app. split.
          * rewrite Forall_forall in *. intros blk Hin.
            pose proof (chain_in _ _ _ _ Hs Hc Hin) as (I1 & I2).
            destruct (sized_in _ _ Hs Hin) as (I3 & I4). unfold MINIMUM in *.
            eapply block_ok_ext; [apply HB; exact Hin|]. intros _.
            rewrite !(Hfar 4%nat) by slia. auto.
          * constructor; [|constructor].
            split; [exact (proj1 Hsz)|]. split; [exact Hm8|]. intros _.
            cbn [baddr bsize bkind fst snd tag]. split.
            -- rewrite Em3, load_store_disj by slia. exact H2.
            -- rewrite Em3, load_store_disj by slia.
               rewrite Em2. apply load4_store4. lia.
        + replace (b + sz - 4) with (b + sz - 4) by lia.
          rewrite Em3. apply load4_store4. lia.
      - destruct (R_links _ _ _ HR) as [Khd Kdl Knd].
        constructor; unfold st3; simpl_st; auto.
        eapply dlist_ext; [exact Kdl|]. intros x Hx.
        pose proof (nodes_in _ _ _ _ HL (R_nodes _ _ _ HR) Hx) as (X1 & X2).
        rewrite <- Eb in X2. unfold MINIMUM in *.
        rewrite !(Hfar 8%nat) by slia. auto.
      - intros x Hx. destruct (R_nodes _ _ _ HR x Hx) as (sx & kx & Hin).
        exists sx, kx. apply in_or_app. left. exact Hin. }
    assert (HF3 : frame st st3).
    { constructor; unfold st3; simpl_st; auto; try lia.
      intros a Ha. rewrite Em3, store_outside by slia.
      rewrite Em2, store_outside by slia.
      rewrite Em1, store_outside by slia. reflexivity. }
    assert (W3 : kept bs [] st st3).
    { intros x s a Hx _ Ha. unfold WSIZE in Ha.
      pose proof (layout_in _ _ _ _ _ HL Hx) as (_ & X2 & _).
      rewrite <- Eb in X2. unfold st3. simpl_st.
      rewrite Em3, store_outside by slia.
      rewrite Em2, store_outside by slia.
      rewrite Em1, store_outside by slia. reflexivity. }
    fold st3.
    assert (Hnb : ~ In b l).
    { intros H. pose proof (nodes_in _ _ _ _ HL (R_nodes _ _ _ HR) H).
      rewrite <- Eb in H0. unfold MINIMUM in *. lia. }
    assert (Hgb : good_but b (bs ++ [(b, sz, KFree)]) l).
    { intros x s k Hin Hne. apply in_app_or in Hin.
      destruct Hin as [Hin | [E | []]].
      - eapply Hg; eauto.
      - inversion E; subst. contradiction. }
    assert (Hna3 : no_adj (bs ++ [(b, sz, KAlloc)])).
    { apply no_adj_insert;
        [exact Hna | exact I | intros _ (_ & C); discriminate
        | intros C; contradiction]. }
    eapply coalesce_spec; [exact HR3 | exact Hnb | exact Hgb |].
    intros st4 bs' l' r Hco HR4 HF4 Hb4 W4.
    destruct (coalesced_props _ _ _ _ _ _ _ _ _ (R_layout _ _ _ HR3)
                              Hgb Hnb Hna3 Hco)
      as (P1 & P2 & P3 & (s' & P4 & P5 & P6) & P7).
    unfold st3 in Hb4. simpl_st.
    apply (Hok Hyes st4 bs' l' r); auto.
    + intros x s. rewrite P3, app_nil_r. tauto.
    + exists s'. split; [exact P4 | lia].
    + eapply frame_trans; eauto.
    + eapply kept_trans; [exact W3|].
      eapply kept_weaken; [exact W4|].
      intros x s Hx _. split; [apply in_or_app; left; exact Hx|].
      intros [C | C].
      * pose proof (layout_in _ _ _ _ _ HL Hx) as (_ & X2 & X3 & _).
        rewrite <- Eb in X2. unfold MINIMUM in *. lia.
      * apply (proj2 (Hg _ _ _ Hx)) in C. discriminate.
Qed.

Lemma extend_heap_spec st bs l words sz (Q : Z -> state -> Prop) :
  R st bs l -> good bs l -> no_adj bs ->
  MINIMUM <= sz < 2 ^ 64 -> sz mod 8 = 0 -> extend_size words = sz ->
  (mem_max_addr st < mem_brk st + sz -> Q NULL st) ->
  (mem_brk st + sz <= mem_max_addr st ->
   forall st' bs' l' r,
     coalesced bs (mem_brk st) sz [] l = (bs', l', r) ->
     R st' bs' l' -> good bs' l' -> no_adj bs' ->
     (forall x s, In (x, s, KAlloc) bs' <-> In (x, s, KAlloc) bs) ->
     (exists s', In (r, s', KFree) bs' /\ sz <= s') -> In r l' ->
     frame st st' -> mem_brk st' = mem_brk st + sz -> Q r st') ->
  wp (extend_heap words) Q st.
Proof.
  intros HR Hg Hna Hsz Hm8 Hw Hfail Hok.
  eapply extend_heap_kept; eauto.
Qed.

(** ** Allocation *)

Lemma wp_elim A (m : M A) (Q : A -> state -> Prop) st a st' :
  wp m Q st -> m st = Ok a st' -> Q a st'.
Proof. unfold wp. intros H E. rewrite E in H. exact H. Qed.

Lemma MAX_eq x y : MAX x y = Z.max x y.
Proof. unfold MAX. rewrite Z.gtb_ltb. destruct (Z.ltb_spec y x); lia. Qed.

Lemma asize_facts size :
  0 <= size < 2 ^ 64 ->
  MINIMUM <= asize_of size < 2 ^ 64 /\ asize_of size mod 8 = 0 /\
  (MINIMUM < asize_of size -> size + 8 <= asize_of size) /\
  (size <= 2 ^ 64 - 16 -> size + 8 <= asize_of size).
Proof.
  intros Hs. unfold asize_of. rewrite MAX_eq. unfold MINIMUM, DSIZE.
  destruct (ALIGN_range size) as (Ha & Ha8).
  assert (Hu : 0 <= u64 (ALIGN size + 8) < 2 ^ 64)
    by (unfold u64; apply Z.mod_pos_bound; lia).
  assert (Hu8 : u64 (ALIGN size + 8) mod 8 = 0).
  { unfold u64. rewrite Z.mod_mod_divide by (exists (2 ^ 61); reflexivity).
    apply mod8_add; [exact Ha8 | reflexivity]. }
  split; [lia|]. split.
  { destruct (Z.max_spec (u64 (ALIGN size + 8)) 24) as [(_ & ->) | (_ & ->)];
      [reflexivity | exact Hu8]. }
  assert (Hbig : size <= 2 ^ 64 - 16 -> size + 8 <= u64 (ALIGN size + 8)).
  { intros Hle. rewrite ALIGN_eq in * by lia.
    pose proof (Z.div_mod (size + 7) 8).
    pose proof (Z.mod_pos_bound (size + 7) 8).
    rewrite u64_small by lia. lia. }
  split; [|intros H; specialize (Hbig H); lia].
  intros Hgt.
  destruct (Z.le_gt_cases size (2 ^ 64 - 16)) as [Hle | Hov];
    [specialize (Hbig Hle); lia|].
  exfalso.
  assert (Hc : ALIGN size = 2 ^ 64 - 8 \/ ALIGN size = 0).
  { assert (Ea : ALIGN size = 8 * (u64 (size + 7) / 8)).
    { unfold ALIGN, ALIGNMENT. unfold u64 at 2.
      replace (size + (8 - 1)) with (size + 7) by lia.
      apply land_mask; [lia | unfold u64; apply Z.mod_pos_bound; lia]. }
    rewrite Ea.
    destruct (Z.le_gt_cases size (2 ^ 64 - 8)) as [H8 | H8].
    - left. rewrite u64_small by lia.
      pose proof (Z.div_mod (size + 7) 8).
      pose proof (Z.mod_pos_bound (size + 7) 8). lia.
    - right. unfold u64.
      replace (size + 7) with ((size + 7 - 2 ^ 64) + 1 * 2 ^ 64) by lia.
      rewrite Z.mod_add by lia. rewrite Z.mod_small by lia.
      pose proof (Z.div_mod (size + 7 - 2 ^ 64) 8).
      pose proof (Z.mod_pos_bound (size + 7 - 2 ^ 64) 8). lia. }
  destruct Hc as [Hc | Hc]; rewrite Hc in Hgt; vm_compute in Hgt;
    discriminate.
Qed.

Lemma alloc_zipper (pre post : list block) st b c k x s :
  layout st (pre ++ (b, c, k) :: post) ->
  In (x, s, KAlloc) (pre ++ post) <->
  In (x, s, KAlloc) (pre ++ (b, c, k) :: post) /\ x <> b.
Proof.
  intros HL. destruct (zipper_order _ _ _ _ _ _ HL) as (O1 & O2 & O3).
  unfold MINIMUM in *. rewrite !in_app_iff. cbn [In]. split.
  - intros [H | H].
    + split; [auto|]. pose proof (O1 _ H). cbn [baddr fst] in *. lia.
    + split; [auto|]. pose proof (O2 _ H). cbn [baddr fst] in *. lia.
  - intros ([H | [E | H]] & Hne); auto. inversion E. congruence.
Qed.

Lemma allocated_pos st bs p :
  layout st bs -> allocated bs p -> 0 < p.
Proof.
  intros HL (s & Hin). pose proof (layout_in _ _ _ _ _ HL Hin).
  pose proof (layout_bounds _ _ HL). lia.
Qed.

Lemma block_size_fun st bs x s1 k1 s2 k2 :
  layout st bs -> In (x, s1, k1) bs -> In (x, s2, k2) bs -> s1 = s2.
Proof.
  intros HL H1 H2.
  pose proof (layout_in _ _ _ _ _ HL H1) as (_ & _ & A & _).
  pose proof (layout_in _ _ _ _ _ HL H2) as (_ & _ & B & _).
  unfold MINIMUM in *.
  destruct (layout_sep _ _ _ _ _ _ _ _ HL H1 H2) as [(_ & E & _) | E]; lia.
Qed.

Lemma free_not_allocated st bs r c :
  layout st bs -> In (r, c, KFree) bs -> ~ allocated bs r.
Proof.
  intros HL Hf (s & Ha).
  pose proof (layout_in _ _ _ _ _ HL Hf) as (_ & _ & A & _).
  pose proof (layout_in _ _ _ _ _ HL Ha) as (_ & _ & B & _).
  unfold MINIMUM in *.
  destruct (layout_sep _ _ _ _ _ _ _ _ HL Hf Ha) as [(_ & _ & E) | E];
    [discriminate | lia].
Qed.

Lemma mm_malloc_spec st bs l size (Q : Z -> state -> Prop) :
  R st bs l -> good bs l -> no_adj bs -> 0 <= size < 2 ^ 64 ->
  (forall st' bs' l' r,
      R st' bs' l' -> good bs' l' -> no_adj bs' -> frame st st' ->
      (r = NULL /\ st' = st /\ bs' = bs /\ l' = l) \/
      (r <> NULL /\ size <> 0 /\
       exists c, In (r, c, KAlloc) bs' /\
         asize_of size <= c < asize_of size + MINIMUM /\
         forall x s, In (x, s, KAlloc) bs' <->
                     (x = r /\ s = c) \/ In (x, s, KAlloc) bs) ->
      ~ allocated bs r -> kept bs [] st st' ->
      Q r st') ->
  wp (mm_malloc size) Q st.
Proof.
  intros HR Hg Hna Hs HQ. unfold mm_malloc.
  assert (Hnull : ~ allocated bs NULL).
  { intros H. pose proof (allocated_pos _ _ _ (R_layout _ _ _ HR) H).
    unfold NULL in *. lia. }
  destruct (Z.leb_spec size 0) as [H0 | Hpos].
  { apply wp_ret. apply (HQ st bs l); auto;
      [apply frame_refl | apply kept_refl]. }
  fold (asize_of size).
  destruct (asize_facts size Hs) as (F1 & F2 & F3 & F4).
  remember (asize_of size) as asize eqn:Ea.
  apply wp_bind. eapply find_fit_spec; [exact HR | exact Hg |].
  intros r [(-> & Hnofit) | (l1 & l2 & c & El & Hin & Hle & _)].
  - (* no fit: extend the heap *)
    change (negb (NULL =? NULL)) with false. cbv iota.
    assert (E1 : MINIMUM <= MAX asize CHUNKSIZE < 2 ^ 64)
      by (rewrite MAX_eq; change CHUNKSIZE with 4096; unfold MINIMUM in *; lia).
    assert (E2 : MAX asize CHUNKSIZE mod 8 = 0).
    { rewrite MAX_eq. change CHUNKSIZE with 4096.
      destruct (Z.max_spec asize 4096) as [(_ & ->) | (_ & ->)];
        [reflexivity | exact F2]. }
    assert (E3 : asize <= MAX asize CHUNKSIZE) by (rewrite MAX_eq; lia).
    apply wp_bind.
    eapply (extend_heap_kept st bs l _ (MAX asize CHUNKSIZE));
      [exact HR | exact Hg | exact Hna | exact E1 | exact E2
      | apply extend_size_eq; [exact E1 | exact E2 | reflexivity] | |].
    + intros _. change (NULL =? NULL) with true. cbv iota. apply wp_ret.
      apply (HQ st bs l); auto; [apply frame_refl | apply kept_refl].
    + intros _ st1 bs1 l1 r Hco HR1 Hg1 Hna1 Hal (s' & Hin & Hs') Hrl HF1 Hb1
             W1.
      assert (Hfresh : ~ allocated bs r).
      { intros (s & H). apply Hal in H.
        apply (free_not_allocated _ _ _ _ (R_layout _ _ _ HR1) Hin).
        exists s. exact H. }
      pose proof (layout_in _ _ _ _ _ (R_layout _ _ _ HR1) Hin) as (I1 & _).
      pose proof (layout_bounds _ _ (R_layout _ _ _ HR1)) as (G1 & G2 & _).
      replace (r =? NULL) with false
        by (symmetry; apply Z.eqb_neq; unfold NULL; lia).
      destruct (in_split _ _ Hin) as (pre & post & Ebs). subst bs1.
      apply wp_bind.
      eapply place_spec; [exact HR1 | exact Hg1 | exact Hna1 | lia | exact F2 |].
      intros st2 bs2 l2 _ HR2 Hg2 Hna2 Hal2 HF2 Hb2 W2. apply wp_ret.
      apply (HQ st2 bs2 l2); auto; [eapply frame_trans; eauto | |].
      2:{ eapply kept_trans; [exact W1|]. eapply kept_weaken; [exact W2|].
          intros x s Hx _. split; [|intros []].
          apply Hal in Hx. apply in_app_or in Hx. apply in_or_app.
          destruct Hx as [Hx | [E | Hx]];
            [left; exact Hx | discriminate | right; exact Hx]. }
      right. split; [unfold NULL; lia|]. split; [lia|].
      eexists. split; [apply Hal2; left; split; reflexivity|].
      split; [rewrite Z.geb_leb; unfold MINIMUM;
              destruct (Z.leb_spec 24 (s' - asize)); lia|].
      intros x s. rewrite Hal2, <- Hal.
      rewrite (alloc_zipper pre post st1 r s' KFree x s (R_layout _ _ _ HR1)).
      split; [tauto|]. intros [(-> & ->) | H]; [tauto|]. right.
      split; [exact H|]. intros ->.
      destruct (layout_sep _ _ _ _ _ _ _ _ (R_layout _ _ _ HR1) H Hin)
        as [(_ & _ & C) | C]; [discriminate|].
      pose proof (layout_in _ _ _ _ _ (R_layout _ _ _ HR1) H).
      pose proof (layout_in _ _ _ _ _ (R_layout _ _ _ HR1) Hin).
      unfold MINIMUM in *. lia.
  - (* a fit *)
    pose proof (layout_in _ _ _ _ _ (R_layout _ _ _ HR) Hin) as (I1 & _).
    pose proof (layout_bounds _ _ (R_layout _ _ _ HR)) as (G1 & G2 & _).
    replace (r =? NULL) with false
      by (symmetry; apply Z.eqb_neq; unfold NULL; lia).
    cbn [negb].
    destruct (in_split _ _ Hin) as (pre & post & Ebs). subst bs.
    apply wp_bind.
    eapply place_spec; [exact HR | exact Hg | exact Hna | lia | exact F2 |].
    intros st2 bs2 l2' _ HR2 Hg2 Hna2 Hal2 HF2 Hb2 W2. apply wp_ret.
    apply (HQ st2 bs2 l2'); auto.
    2:{ exact (free_not_allocated _ _ _ _ (R_layout _ _ _ HR) Hin). }
    2:{ kept_via W2. }
    right. split; [unfold NULL; lia|]. split; [lia|].
    eexists. split; [apply Hal2; left; split; reflexivity|].
    split; [rewrite Z.geb_leb; unfold MINIMUM;
            destruct (Z.leb_spec 24 (c - asize)); lia|].
    intros x s. rewrite Hal2.
    rewrite (alloc_zipper pre post st r c KFree x s (R_layout _ _ _ HR)).
    split; [tauto|]. intros [(-> & ->) | H]; [tauto|]. right.
    split; [exact H|]. intros ->.
    destruct (layout_sep _ _ _ _ _ _ _ _ (R_layout _ _ _ HR) H Hin)
      as [(_ & _ & C) | C]; [discriminate|].
    pose proof (layout_in _ _ _ _ _ (R_layout _ _ _ HR) H).
    pose proof (layout_in _ _ _ _ _ (R_layout _ _ _ HR) Hin).
    unfold MINIMUM in *. lia.
Qed.

(** ** Freeing *)

(** [mm_free] on a block that is not on the free list and whose header
    records its size: an allocated block, or the remainder of a shrunk
    block. *)
Lemma free_core_kept st pre p sz k post l (Q : unit -> state -> Prop) :
  R st (pre ++ (p, sz, k) :: post) l ->
  size_of_word (load 4 (mem st) (p - 4)) = sz ->
  good_but p (pre ++ (p, sz, k) :: post) l -> ~ In p l ->
  no_adj (pre ++ (p, sz, KAlloc) :: post) ->
  (forall st' bs' l' r,
      coalesced pre p sz post l = (bs', l', r) ->
      R st' bs' l' -> good bs' l' -> no_adj bs' ->
      (forall x s, In (x, s, KAlloc) bs' <-> In (x, s, KAlloc) (pre ++ post)) ->
      frame st st' -> mem_brk st' = mem_brk st ->
      kept (pre ++ post) [] st st' -> Q tt st') ->
  wp (mm_free p) Q st.
Proof.
  intros HR Hsz Hgb Hnp Hna HQ. pose proof (R_layout _ _ _ HR) as HL.
  assert (Hin : In (p, sz, k) (pre ++ (p, sz, k) :: post))
    by (apply in_or_app; right; left; reflexivity).
  pose proof (layout_in _ _ _ _ _ HL Hin) as (A1 & A2 & A3 & A4 & A5 & A6).
  pose proof (layout_bounds _ _ HL) as (G1 & G2 & G3 & G4).
  unfold MINIMUM in *.
  unfold mm_free.
  replace (p =? 0) with false by (symmetry; apply Z.eqb_neq; lia).
  unfold HDRP, WSIZE.
  eapply wp_bind_run; [apply run_GET_SIZE; lia|]. rewrite Hsz.
  rewrite PACK_free.
  eapply (retag_spec st pre [(p, sz, k)] post l p sz (p + sz) KFree);
    [exact HR | discriminate | cbn [chain baddr bsize fst snd]; auto
    | unfold MINIMUM; lia | exact A4 | left; reflexivity | discriminate
    | intros x s' k' _ [E | []]; inversion E; reflexivity | ].
  intros st1 HR1 HF1 Hb1 Hf1 W1 _.
  rewrite raw_rest_same in HR1. cbn [app] in HR1.
  assert (Hgb1 : good_but p (pre ++ (p, sz, KFree) :: post) l).
  { intros x s k' Hx Hne. apply (Hgb x s k'); [|exact Hne].
    apply in_app_or in Hx. apply in_or_app.
    destruct Hx as [Hx | [E | Hx]];
      [left; exact Hx | inversion E; congruence | right; right; exact Hx]. }
  apply wp_bind. eapply coalesce_spec; [exact HR1 | exact Hnp | exact Hgb1 |].
  intros st2 bs' l' r Hco HR2 HF2 Hb2 W2. apply wp_ret.
  destruct (coalesced_props _ _ _ _ _ _ _ _ _ (R_layout _ _ _ HR1)
                            Hgb1 Hnp Hna Hco)
    as (P1 & P2 & P3 & _).
  apply (HQ st2 bs' l' r); auto.
  - eapply frame_trans; eauto.
  - congruence.
  - eapply kept_trans; [exact W1|]. eapply kept_weaken; [exact W2|].
    intros x s Hx _.
    assert (Hx1 : In (x, s, KAlloc) (pre ++ (p, sz, KFree) :: post)).
    { apply in_app_or in Hx. apply in_or_app.
      destruct Hx as [Hx | Hx]; [left | right; right]; exact Hx. }
    assert (Hxp : x <> p).
    { destruct (zipper_order _ _ _ _ _ _ (R_layout _ _ _ HR1)) as (O1 & O2 & O3).
      unfold MINIMUM in *. apply in_app_or in Hx.
      destruct Hx as [Hx | Hx];
        [pose proof (O1 _ Hx) | pose proof (O2 _ Hx)];
        cbn [baddr fst] in *; lia. }
    split; [exact Hx1|]. intros [C | C]; [congruence|].
    apply (proj2 (Hgb1 _ _ _ Hx1 Hxp)) in C. discriminate.
Qed.

Lemma free_core st pre p sz k post l (Q : unit -> state -> Prop) :
  R st (pre ++ (p, sz, k) :: post) l ->
  size_of_word (load 4 (mem st) (p - 4)) = sz ->
  good_but p (pre ++ (p, sz, k) :: post) l -> ~ In p l ->
  no_adj (pre ++ (p, sz, KAlloc) :: post) ->
  (forall st' bs' l' r,
      coalesced pre p sz post l = (bs', l', r) ->
      R st' bs' l' -> good bs' l' -> no_adj bs' ->
      (forall x s, In (x, s, KAlloc) bs' <-> In (x, s, KAlloc) (pre ++ post)) ->
      frame st st' -> mem_brk st' = mem_brk st -> Q tt st') ->
  wp (mm_free p) Q st.
Proof.
  intros HR Hsz Hgb Hnp Hna HQ.
  eapply free_core_kept; eauto.
Qed.

Lemma no_adj_kind pre (b : block) post k :
  no_adj (pre ++ b :: post) -> k <> KFree ->
  no_adj (pre ++ (baddr b, bsize b, k) :: post).
Proof.
  intros H Hk. destruct (no_adj_split _ _ _ H) as (N1 & N2 & _ & _).
  apply no_adj_insert; auto; intros _ C; cbn [bkind snd] in C; tauto.
Qed.

Lemma mm_free_spec st bs l p sz (Q : unit -> state -> Prop) :
  R st bs l -> good bs l -> no_adj bs -> In (p, sz, KAlloc) bs ->
  (forall st' bs' l',
      R st' bs' l' -> good bs' l' -> no_adj bs' ->
      (forall x s, In (x, s, KAlloc) bs' <->
                   In (x, s, KAlloc) bs /\ x <> p) ->
      frame st st' -> mem_brk st' = mem_brk st ->
      kept bs [p] st st' -> Q tt st') ->
  wp (mm_free p) Q st.
Proof.
  intros HR Hg Hna Hin HQ. pose proof (R_layout _ _ _ HR) as HL.
  destruct (in_split _ _ Hin) as (pre & post & ->).
  destruct (layout_hdr_size _ _ _ _ _ HL Hin) as (E1 & _); [discriminate|].
  assert (Hnp : ~ In p l).
  { intros H. apply (Hg _ _ _ Hin) in H. discriminate. }
  eapply free_core_kept; eauto.
  - apply good_good_but. exact Hg.
  - intros st' bs' l' r _ HR' Hg' Hna' Hal HF Hb HW.
    apply (HQ st' bs' l'); auto.
    + intros x s. rewrite Hal.
      apply (alloc_zipper pre post st p sz KAlloc x s HL).
    + eapply kept_weaken; [exact HW|].
      intros x s Hx Hl. split; [|intros []].
      apply (alloc_zipper pre post st p sz KAlloc x s HL).
      split; [exact Hx|]. intros E. apply Hl. left. symmetry. exact E.
Qed.

(** ** Stores into one block *)

(** The header of a block whose tags are not written yet. *)
Lemma raw_header_spec st bs l x sz v B (cont : M B) (Q : B -> state -> Prop) :
  R st bs l -> In (x, sz, KRaw) bs -> 0 <= v < 2 ^ 32 ->
  (forall st',
      R st' bs l -> load 4 (mem st') (x - 4) = v ->
      frame st st' -> mem_brk st' = mem_brk st -> kept bs [] st st' ->
      wp cont Q st') ->
  wp (PUT (HDRP x) v ;; cont) Q st.
Proof.
  intros HR Hin Hv HQ. pose proof (R_layout _ _ _ HR) as HL.
  pose proof (layout_in _ _ _ _ _ HL Hin) as (A1 & A2 & A3 & A4 & A5 & A6).
  pose proof (layout_bounds _ _ HL) as (G1 & G2 & G3 & G4).
  unfold MINIMUM, HDRP, WSIZE in *.
  eapply wp_bind_run; [apply run_PUT; lia|].
  destruct (layout_store st bs 4 (x - 4) v HL) as (HL1 & HF1); try slia.
  { intros y sy ky Hy Hk.
    pose proof (layout_in _ _ _ _ _ HL Hy) as (B1 & B2 & B3 & B4 & B5 & B6).
    unfold MINIMUM in *.
    destruct (layout_sep _ _ _ _ _ _ _ _ HL Hin Hy) as [(_ & _ & E) | E];
      [congruence | slia]. }
  apply HQ; simpl_st; auto.
  - constructor; [exact HL1 | | apply HR].
    apply links_store; [apply HR|].
    intros z Hz. destruct (R_nodes _ _ _ HR z Hz) as (sz' & kz & Hinz).
    pose proof (layout_in _ _ _ _ _ HL Hinz) as (B1 & B2 & B3 & B4 & B5 & B6).
    unfold MINIMUM in *.
    destruct (layout_sep _ _ _ _ _ _ _ _ HL Hin Hinz) as [(E & _) | E]; slia.
  - apply load4_store4. exact Hv.
  - apply (kept_store_block st bs [] 4 (x - 4) v x sz KRaw HL Hin);
      [left; discriminate | lia | slia].
Qed.

(** A change of memory confined to the payload of an allocated block. *)
Lemma payload_write st bs l q c m' :
  R st bs l -> good bs l -> In (q, c, KAlloc) bs ->
  (forall a, a < q \/ q + c - 8 <= a -> m' a = mem st a) ->
  R (with_mem st m') bs l /\ frame st (with_mem st m').
Proof.
  intros HR Hg Hin Hm. pose proof (R_layout _ _ _ HR) as HL.
  pose proof (layout_in _ _ _ _ _ HL Hin) as (A1 & A2 & A3 & A4 & A5 & A6).
  pose proof (layout_bounds _ _ HL) as (G1 & G2 & G3 & G4).
  unfold MINIMUM in *.
  assert (Hld : forall k a, a + Z.of_nat k <= q \/ q + c - 8 <= a ->
                       load k m' a = load k (mem st) a).
  { intros k a Ha. apply load_ext. intros y Hy. apply Hm. lia. }
  split.
  - constructor.
    + pose proof (L_blocks _ _ HL) as HB.
      pose proof HL as HL'.
      destruct HL'. constructor; simpl_st; auto;
        try (rewrite (Hld 4%nat) by slia; assumption).
      apply Forall_forall. intros [[y sy] ky] Hy.
      eapply block_ok_ext;
        [exact (proj1 (Forall_forall _ _) HB _ Hy)|]. intros _.
      cbn [baddr bsize fst snd].
      pose proof (layout_in _ _ _ _ _ HL Hy) as (B1 & B2 & B3 & B4 & B5 & B6).
      unfold MINIMUM in *.
      destruct (layout_sep _ _ _ _ _ _ _ _ HL Hin Hy) as [(E1 & E2 & E3) | E].
      * subst. rewrite !(Hld 4%nat) by slia. auto.
      * rewrite !(Hld 4%nat) by slia. auto.
    + destruct (R_links _ _ _ HR) as [Khd Kdl Knd].
      constructor; simpl_st; auto.
      eapply dlist_ext; [exact Kdl|]. intros z Hz.
      destruct (R_nodes _ _ _ HR z Hz) as (sz' & kz & Hinz).
      assert (kz = KFree) by (apply (Hg _ _ _ Hinz); exact Hz). subst kz.
      pose proof (layout_in _ _ _ _ _ HL Hinz) as (B1 & B2 & B3 & B4 & B5 & B6).
      unfold MINIMUM in *.
      destruct (layout_sep _ _ _ _ _ _ _ _ HL Hin Hinz) as [(_ & _ & E) | E];
        [discriminate|].
      rewrite !(Hld 8%nat) by slia. auto.
    + apply HR.
  - constructor; simpl_st; auto; try lia.
    intros a Ha. apply Hm. lia.
Qed.

(** ** Resizing *)

Lemma run_memcpy dst src n st :
  0 < n ->
  mem_heap st <= dst -> dst + n <= mem_brk st ->
  mem_heap st <= src -> src + n <= mem_brk st ->
  memcpy dst src n st = Ok tt (with_mem st (mem_copy (mem st) dst src n)).
Proof.
  intros Hn H1 H2 H3 H4. unfold memcpy.
  replace (n =? 0) with false by (symmetry; apply Z.eqb_neq; lia).
  rewrite !valid_true by assumption. reflexivity.
Qed.

Lemma allocated_in st bs p :
  layout st bs -> allocated bs p -> heap_listp st + 48 <= p /\ p mod 8 = 0 /\ 0 < p.
Proof.
  intros HL (sz & Hin).
  pose proof (layout_in _ _ _ _ _ HL Hin).
  pose proof (layout_bounds _ _ HL). lia.
Qed.

Lemma mm_realloc_spec st bs l ptr size (Q : Z -> state -> Prop) :
  R st bs l -> good bs l -> no_adj bs -> 0 <= size < 2 ^ 64 ->
  ptr = NULL \/ allocated bs ptr ->
  (forall st' bs' l' r,
      R st' bs' l' -> good bs' l' -> no_adj bs' -> frame st st' ->
      (size = 0 -> r = 0 /\
                   forall p, allocated bs' p <-> allocated bs p /\ p <> ptr) ->
      (size <> 0 -> r = NULL -> forall p, allocated bs' p <-> allocated bs p) ->
      (size <> 0 -> r <> NULL ->
       forall p, allocated bs' p <-> p = r \/ (allocated bs p /\ p <> ptr)) ->
      kept bs [ptr] st st' ->
      (forall c, In (ptr, c, KAlloc) bs -> size <> 0 -> r <> NULL ->
         (asize_of size <= c ->
          r = ptr /\
          (asize_of size + MINIMUM < c ->
           In (ptr, asize_of size, KAlloc) bs' /\
           exists s t,
             In (ptr + asize_of size, s, KFree) bs' /\
             c - asize_of size <= s /\ l' = (ptr + asize_of size) :: t)) /\
         (exists c', In (r, c', KAlloc) bs' /\
                     asize_of size <= c' <= asize_of size + MINIMUM) /\
         (size <= 2 ^ 64 - 16 ->
          forall i, 0 <= i < Z.min size (c - DSIZE) ->
                    mem st' (r + i) = mem st (ptr + i))) ->
      (size <> 0 -> r = NULL -> st' = st) ->
      Q r st') ->
  wp (mm_realloc ptr size) Q st.
Proof.
  intros HR Hg Hna Hs Hptr HQ. pose proof (R_layout _ _ _ HR) as HL.
  pose proof (layout_bounds _ _ HL) as (G1 & G2 & G3 & G4).
  assert (Hnn : forall p, allocated bs p -> p <> NULL).
  { intros p Hp. pose proof (allocated_in _ _ _ HL Hp). unfold NULL. lia. }
  unfold mm_realloc.
  destruct (Z.leb_spec size 0) as [H0 | Hpos].
  { (* size = 0 *)
    assert (size = 0) by lia. subst size. apply wp_bind.
    destruct Hptr as [-> | (c & Hin)].
    - unfold mm_free. change (NULL =? 0) with true. cbv iota.
      apply wp_ret. apply wp_ret.
      apply (HQ st bs l); auto; try apply frame_refl; try apply kept_refl;
        try tauto.
      + intros _. split; [reflexivity|]. intros p. split; [|tauto].
        intros H. split; [exact H | apply Hnn; exact H].
    - eapply mm_free_spec; eauto.
      intros st' bs' l' HR' Hg' Hna' Hal HF Hb HW. apply wp_ret.
      apply (HQ st' bs' l'); auto; try (intros C; contradiction).
      + intros _. split; [reflexivity|]. intros p. unfold allocated. split.
        * intros (s & H). apply Hal in H. destruct H. eauto.
        * intros ((s & H) & Hne). exists s. apply Hal. auto. }
  destruct Hptr as [-> | (c & Hin)].
  { (* ptr = NULL *)
    change (NULL =? NULL) with true. cbv iota.
    assert (Hno : forall c, ~ In (NULL, c, KAlloc) bs).
    { intros c H. apply (Hnn NULL); [exists c; exact H | reflexivity]. }
    eapply mm_malloc_spec; eauto.
    intros st' bs' l' r HR' Hg' Hna' HF
           [(-> & -> & -> & ->) | (Hr & _ & c & Hin & Hc & Hal)] _ HW.
    - apply (HQ st bs l); auto; try tauto; try lia; try apply kept_refl;
        try (intros c0 H0; destruct (Hno c0 H0)).
    - apply (HQ st' bs' l'); auto; try lia; try contradiction.
      + intros _ _ p. unfold allocated. split.
        * intros (s & H). apply Hal in H. destruct H as [(-> & _) | H]; auto.
          right. split; [exists s; exact H | apply Hnn; exists s; exact H].
        * intros [-> | ((s & H) & _)]; [exists c | exists s]; apply Hal; auto.
      + kept_via HW.
      + intros c0 H. destruct (Hno c0 H). }
  (* a live block *)
  pose proof (layout_in _ _ _ _ _ HL Hin) as (A1 & A2 & A3 & A4 & A5 & A6).
  destruct (layout_hdr_size _ _ _ _ _ HL Hin) as (E1 & _); [discriminate|].
  replace (ptr =? NULL) with false
    by (symmetry; apply Z.eqb_neq; unfold NULL; lia).
  unfold HDRP, WSIZE, MINIMUM in *.
  eapply wp_bind_run; [apply run_GET_SIZE; lia|]. rewrite E1.
  change (MAX (u64 (ALIGN size + DSIZE)) 24) with (asize_of size).
  destruct (asize_facts size Hs) as (F1 & F2 & F3 & F4).
  remember (asize_of size) as asize eqn:Ea.
  unfold MINIMUM in *.
  assert (Hc0 : forall c0, In (ptr, c0, KAlloc) bs -> c0 = c)
    by (intros c0 H; exact (block_size_fun _ _ _ _ _ _ _ HL H Hin)).
  assert (Hsame : asize <= c <= asize + 24 -> Q ptr st).
  { intros Hb. apply (HQ st bs l); auto; try apply frame_refl;
      try apply kept_refl; try lia.
    - intros _ C. exfalso. unfold NULL in C. lia.
    - intros _ _ p. split; [|intros [-> | (H & _)]; [exists c|]; auto].
      intros H. destruct (Z.eq_dec p ptr); auto.
    - intros c0 H0 _ _. rewrite (Hc0 c0 H0). rewrite <- ?Ea.
      split; [intros _; split; [reflexivity | intros C; exfalso; lia]|].
      split; [|reflexivity].
      exists c. split; [exact Hin | unfold MINIMUM; lia]. }
  destruct (Z.eqb_spec c asize) as [Heq | Hne];
    [apply wp_ret; apply Hsame; lia|].
  destruct (Z.ltb_spec asize c) as [Hlt | Hge].
  - (* shrink *)
    rewrite u64_small by lia.
    destruct (Z.leb_spec (c - asize) 24) as [Hsmall | Hbig];
      [apply wp_ret; apply Hsame; lia|].
    destruct (in_split _ _ Hin) as (pre & post & Ebs). subst bs.
    rewrite PACK_alloc by exact F2.
    eapply (retag_spec st pre [(ptr, c, KAlloc)] post l ptr asize (ptr + c)
                       KAlloc);
      [exact HR | discriminate | cbn [chain baddr bsize fst snd]; auto
      | unfold MINIMUM; lia | exact F2 | right; unfold MINIMUM; lia
      | discriminate
      | intros x s' k' _ [E | []]; inversion E; reflexivity | ].
    intros st1 HR1 HF1 Hb1 Hf1 W1 T1.
    unfold raw_rest in HR1.
    replace (ptr + asize =? ptr + c) with false in HR1
      by (symmetry; apply Z.eqb_neq; lia).
    replace (ptr + c - (ptr + asize)) with (c - asize) in HR1 by lia.
    cbn [app] in HR1. pose proof (R_layout _ _ _ HR1) as HL1.
    assert (Hin1 : In (ptr, asize, KAlloc)
                      (pre ++ (ptr, asize, KAlloc) ::
                       (ptr + asize, c - asize, KRaw) :: post))
      by (apply in_or_app; right; left; reflexivity).
    assert (Hraw : In (ptr + asize, c - asize, KRaw)
                      (pre ++ (ptr, asize, KAlloc) ::
                       (ptr + asize, c - asize, KRaw) :: post))
      by (apply in_or_app; right; right; left; reflexivity).
    destruct (layout_hdr_size _ _ _ _ _ HL1 Hin1) as (E2 & _); [discriminate|].
    pose proof (layout_bounds _ _ HL1) as (G5 & G6 & G7 & G8).
    pose proof (layout_in _ _ _ _ _ HL1 Hin1) as (I1 & I2 & _).
    eapply wp_bind_run; [apply run_NEXT_BLKP; lia|]. rewrite E2.
    assert (M8 : (c - asize) mod 8 = 0) by (apply mod8_sub; assumption).
    rewrite PACK_alloc by exact M8.
    eapply raw_header_spec; [exact HR1 | exact Hraw | cbn [tag]; lia |].
    intros st2 HR2 Hh2 HF2 Hb2 W2. pose proof (R_layout _ _ _ HR2) as HL2.
    destruct (layout_hdr_size _ _ _ _ _ HL2 Hin1) as (E3 & _); [discriminate|].
    pose proof (layout_bounds _ _ HL2) as (G9 & G10 & G11 & G12).
    pose proof (layout_in _ _ _ _ _ HL2 Hin1) as (I3 & I4 & _).
    eapply wp_bind_run; [apply run_NEXT_BLKP; lia|]. rewrite E3.
    change (pre ++ (ptr, asize, KAlloc) ::
            (ptr + asize, c - asize, KRaw) :: post)
      with (pre ++ [(ptr, asize, KAlloc)] ++
            (ptr + asize, c - asize, KRaw) :: post) in HR2.
    rewrite app_assoc in HR2.
    destruct (zipper_order _ _ _ _ _ _ HL) as (O1 & O2 & O3).
    destruct (no_adj_split _ _ _ Hna) as (N1 & N2 & _ & _).
    assert (Hpl : ~ In ptr l).
    { intros H. apply (Hg _ _ _ Hin) in H. discriminate. }
    apply wp_bind. eapply free_core_kept; [exact HR2 | | | | |].
    + replace (ptr + asize - 4) with (ptr + asize - 4) by lia.
      rewrite Hh2. apply size_of_tag; [lia | exact M8].
    + intros x s k Hx Hxne.
      apply in_app_or in Hx. destruct Hx as [Hx | [E | Hx]].
      * apply in_app_or in Hx. destruct Hx as [Hx | [E | []]].
        -- apply (Hg x s k). apply in_or_app. left. exact Hx.
        -- inversion E; subst. split; [discriminate|].
           split; [discriminate | intros C; contradiction].
      * inversion E; subst. contradiction.
      * apply (Hg x s k). apply in_or_app. right. right. exact Hx.
    + intros H. destruct (R_nodes _ _ _ HR _ H) as (sx & kx & Hinx).
      destruct (layout_sep _ _ _ _ _ _ _ _ HL Hinx Hin) as [(E & _) | E];
        [lia|].
      pose proof (layout_in _ _ _ _ _ HL Hinx). unfold MINIMUM in *. lia.
    + apply no_adj_insert.
      * apply no_adj_insert;
          [exact N1 | exact I | intros _ (_ & C); discriminate
          | intros C; contradiction].
      * exact N2.
      * intros _ (_ & C). discriminate.
      * intros _ (C & _). discriminate.
    + intros st3 bs3 l3 r Hco HR3 Hg3 Hna3 Hal HF3 Hb3 W3. apply wp_ret.
      assert (Hiff : forall x s,
                 In (x, s, KAlloc) bs3 <->
                 In (x, s, KAlloc) (pre ++ (ptr, asize, KAlloc) :: post)).
      { intros x s. rewrite Hal, <- app_assoc. reflexivity. }
      assert (Htail : exists s t,
                 In (ptr + asize, s, KFree) bs3 /\ c - asize <= s /\
                 l3 = (ptr + asize) :: t).
      { unfold coalesced in Hco. cbv zeta in Hco.
        rewrite prev_block_last in Hco.
        change (is_free (bkind (ptr, asize, KAlloc))) with false in Hco.
        cbv iota in Hco.
        destruct (is_free (bkind (next_block (ptr + asize) (c - asize) post)))
          eqn:En; injection Hco as Eb El _; rewrite <- Eb, <- El.
        - destruct post as [|[[na ns] nk] post']; [discriminate|].
          cbn [next_block hd bsize bkind fst snd] in *.
          assert (Hn : In (na, ns, nk)
                          (pre ++ (ptr, c, KAlloc) :: (na, ns, nk) :: post'))
            by (apply in_or_app; right; right; left; reflexivity).
          pose proof (layout_in _ _ _ _ _ HL Hn) as (_ & _ & N3 & _).
          unfold MINIMUM in N3. eexists. eexists.
          split; [apply in_or_app; right; left; reflexivity|].
          split; [lia | reflexivity].
        - eexists. eexists.
          split; [apply in_or_app; right; left; reflexivity|].
          split; [lia | reflexivity]. }
      apply (HQ st3 bs3 l3); auto; try lia.
      * eapply frame_trans; [exact HF1|]. eapply frame_trans; eauto.
      * intros _ C. exfalso. unfold NULL in C. lia.
      * intros _ _ p. unfold allocated.
        split.
        -- intros (s & H). apply Hiff in H.
           destruct (Z.eq_dec p ptr) as [-> | Hp]; [left; reflexivity|].
           right. split; [|exact Hp]. exists s.
           apply in_app_or in H. apply in_or_app.
           destruct H as [H | [E | H]];
             [left; exact H | inversion E; congruence | right; right; exact H].
        -- intros [-> | ((s & H) & Hp)].
           ++ exists asize. apply Hiff. apply in_or_app. right. left.
              reflexivity.
           ++ exists s. apply Hiff.
              apply in_app_or in H. apply in_or_app.
              destruct H as [H | [E | H]];
                [left; exact H | inversion E; congruence
                | right; right; exact H].
      * (* the other payloads *)
        assert (Hoth : forall x s,
                   In (x, s, KAlloc) (pre ++ (ptr, c, KAlloc) :: post) ->
                   ~ In x [ptr] -> In (x, s, KAlloc) (pre ++ post)).
        { intros x s Hx Hl. apply in_app_or in Hx. apply in_or_app.
          destruct Hx as [Hx | [E | Hx]];
            [left; exact Hx | | right; exact Hx].
          exfalso. apply Hl. left. inversion E. reflexivity. }
        eapply kept_trans; [eapply kept_weaken; [exact W1|]|].
        { intros x s Hx Hl. split; [exact (Hoth x s Hx Hl) | intros []]. }
        eapply kept_trans; [eapply kept_weaken; [exact W2|]|].
        { intros x s Hx Hl. split; [|intros []].
          pose proof (Hoth x s Hx Hl) as H.
          apply in_app_or in H. apply in_or_app.
          destruct H as [H | H]; [left | right; right; right]; exact H. }
        eapply kept_weaken; [exact W3|].
        intros x s Hx Hl. split; [|intros []].
        pose proof (Hoth x s Hx Hl) as H.
        apply in_app_or in H. apply in_or_app.
        destruct H as [H | H]; [left; apply in_or_app; left | right]; exact H.
      * (* the block itself *)
        intros c0 H0 _ _. rewrite (Hc0 c0 H0). rewrite <- ?Ea.
        assert (Hp3 : In (ptr, asize, KAlloc) bs3)
          by (apply Hiff; apply in_or_app; right; left; reflexivity).
        split; [intros _; split; [reflexivity|]; intros _;
                split; [exact Hp3 | exact Htail]|].
        split; [exists asize; split; [exact Hp3 | unfold MINIMUM; lia]|].
        intros Hle i Hi. specialize (F4 Hle). unfold DSIZE in Hi.
        assert (Hpay : ptr - WSIZE <= ptr + i < ptr + asize - WSIZE)
          by (unfold WSIZE; lia).
        rewrite (W3 ptr asize (ptr + i));
          [| apply in_or_app; left; apply in_or_app; right; left; reflexivity
           | intros [] | exact Hpay].
        rewrite (W2 ptr asize (ptr + i) Hin1 (fun C => C) Hpay).
        apply T1. lia.
      * intros _ C. exfalso. unfold NULL in C. lia.
  - (* grow *)
    assert (Hgt : c < asize) by lia.
    apply wp_bind. eapply mm_malloc_spec; eauto.
    intros st1 bs1 l1 r HR1 Hg1 Hna1 HF1
           [(-> & -> & -> & ->) | (Hr & _ & c' & Hin' & Hc' & Hal)]
           Hfresh Wm.
    + change (NULL =? 0) with true. cbv iota. apply wp_ret.
      apply (HQ st bs l); auto; try lia; try tauto; try apply kept_refl;
        try (intros _ C; exfalso; apply C; reflexivity);
        try (intros c0 _ _ C; exfalso; apply C; reflexivity).
    + replace (r =? 0) with false
        by (symmetry; apply Z.eqb_neq; exact Hr).
      pose proof (R_layout _ _ _ HR1) as HL1.
      pose proof (layout_in _ _ _ _ _ HL1 Hin')
        as (B1 & B2 & B3 & B4 & B5 & B6).
      pose proof (layout_bounds _ _ HL1) as (G5 & G6 & G7 & G8).
      assert (Hin1 : In (ptr, c, KAlloc) bs1) by (apply Hal; right; exact Hin).
      pose proof (layout_in _ _ _ _ _ HL1 Hin1)
        as (C1 & C2 & C3 & C4 & C5 & C6).
      assert (Hrp : r <> ptr).
      { intros ->.
        destruct (layout_sep _ _ _ _ _ _ _ _ HL1 Hin' Hin1) as [(_ & E & _) | E];
          unfold MINIMUM in *; lia. }
      remember (if size <? c then size else c) as n eqn:En.
      assert (Hn : 0 < n <= c /\ n <= size)
        by (rewrite En; destruct (Z.ltb_spec size c); lia).
      assert (Hsz : size + 8 <= asize) by (apply F3; lia).
      eapply wp_bind_run; [apply run_memcpy; lia|].
      destruct (payload_write st1 bs1 l1 r c'
                  (mem_copy (mem st1) r ptr n) HR1 Hg1 Hin') as (HR2 & HF2).
      { intros a Ha. unfold mem_copy.
        destruct (Z.leb_spec r a), (Z.ltb_spec a (r + n)); cbn [andb];
          try reflexivity; lia. }
      assert (Wc : kept bs1 [r] st1
                        (with_mem st1 (mem_copy (mem st1) r ptr n))).
      { intros x s a Hx Hl Ha. unfold WSIZE in Ha. cbn [mem with_mem].
        assert (Hxr : x <> r) by (intros E; apply Hl; left; symmetry; exact E).
        pose proof (layout_in _ _ _ _ _ HL1 Hx) as (_ & _ & X3 & _).
        unfold mem_copy, MINIMUM in *.
        destruct (layout_sep _ _ _ _ _ _ _ _ HL1 Hx Hin') as [(E & _) | E];
          [contradiction|].
        destruct (Z.leb_spec r a), (Z.ltb_spec a (r + n)); cbn [andb];
          try reflexivity; lia. }
      apply wp_bind. eapply mm_free_spec; [exact HR2 | | | exact Hin1 |]; auto.
      intros st3 bs3 l3 HR3 Hg3 Hna3 Hal3 HF3 Hb3 Wf. apply wp_ret.
      apply (HQ st3 bs3 l3); auto; try lia; try contradiction.
      * eapply frame_trans; [exact HF1|]. eapply frame_trans; eauto.
      * intros _ _ p. unfold allocated. split.
        -- intros (s & H). apply Hal3 in H. destruct H as (H & Hp).
           apply Hal in H. destruct H as [(-> & _) | H]; [left; reflexivity|].
           right. split; [eauto | exact Hp].
        -- intros [-> | ((s & H) & Hp)].
           ++ exists c'. apply Hal3. split; [exact Hin' | exact Hrp].
           ++ exists s. apply Hal3. split; [|exact Hp]. apply Hal. auto.
      * (* the other payloads *)
        eapply kept_trans; [kept_via Wm|].
        eapply kept_trans; [eapply kept_weaken; [exact Wc|]|].
        { intros x s Hx Hl. split; [apply Hal; right; exact Hx|].
          intros [C | []]. apply Hfresh. exists s. rewrite C. exact Hx. }
        eapply kept_weaken; [exact Wf|].
        intros x s Hx Hl. split; [apply Hal; right; exact Hx | exact Hl].
      * (* the block itself *)
        intros c0 H0 _ _. rewrite (Hc0 c0 H0). rewrite <- ?Ea.
        split; [intros C; lia|]. split.
        { exists c'. split; [|unfold MINIMUM in *; lia].
          apply Hal3. split; [exact Hin' | exact Hrp]. }
        intros Hle i Hi. unfold DSIZE in Hi.
        assert (Hpay : r - WSIZE <= r + i < r + c' - WSIZE)
          by (unfold WSIZE; lia).
        assert (Hlt : i < n) by (rewrite En; destruct (Z.ltb_spec size c); lia).
        rewrite (Wf r c' (r + i) Hin'
                    (fun C => match C with
                              | or_introl E => Hrp (eq_sym E)
                              | or_intror F => F
                              end) Hpay).
        cbn [mem with_mem]. unfold mem_copy.
        replace (r <=? r + i) with true by (symmetry; apply Z.leb_le; lia).
        replace (r + i <? r + n) with true by (symmetry; apply Z.ltb_lt; lia).
        cbn [andb]. replace (ptr + (r + i - r)) with (ptr + i) by lia.
        apply (Wm ptr c (ptr + i) Hin (fun C => C)). unfold WSIZE. lia.
Qed.

(** ** Zero-filled allocation, on an initialised heap *)

Lemma u64_range x : 0 <= u64 x < 2 ^ 64.
Proof. unfold u64. apply Z.mod_pos_bound. lia. Qed.

Lemma mm_calloc_inv st bs l nmemb size r st' :
  R st bs l -> good bs l -> no_adj bs ->
  mm_calloc nmemb size st = Ok r st' ->
  exists bs' l',
    R st' bs' l' /\ good bs' l' /\ no_adj bs' /\ frame st st' /\
    (r = NULL -> forall p, allocated bs' p <-> allocated bs p) /\
    (r <> NULL -> forall p, allocated bs' p <-> p = r \/ allocated bs p) /\
    ~ allocated bs r /\ kept bs [] st st'.
Proof.
  intros HR Hg Hna H. pose proof (R_layout _ _ _ HR) as HL.
  pose proof (layout_bounds _ _ HL) as (G1 & G2 & G3 & G4).
  pose proof (u64_range (nmemb * size)) as Hn.
  remember (u64 (nmemb * size)) as n eqn:En.
  pose proof (mm_malloc_spec st bs l n
    (fun r1 st1 =>
       exists bs1 l1,
         R st1 bs1 l1 /\ good bs1 l1 /\ no_adj bs1 /\ frame st st1 /\
         ((r1 = NULL /\ bs1 = bs) \/
          (r1 <> NULL /\
           exists c, In (r1, c, KAlloc) bs1 /\
             asize_of n <= c < asize_of n + MINIMUM /\
             forall x s, In (x, s, KAlloc) bs1 <->
                         (x = r1 /\ s = c) \/ In (x, s, KAlloc) bs)) /\
         ~ allocated bs r1 /\ kept bs [] st st1)
    HR Hg Hna Hn) as Hm.
  apply wp_inv in Hm.
  2:{ intros st1 bs1 l1 r1 HR1 Hg1 Hna1 HF1 Hcase Hfr HW. exists bs1, l1.
      split; [exact HR1|]. split; [exact Hg1|]. split; [exact Hna1|].
      split; [exact HF1|]. split; [|split; [exact Hfr | exact HW]].
      destruct Hcase as [(-> & _ & -> & _) | (Hr & _ & Hc)];
        [left | right]; auto. }
  destruct Hm as (r1 & st1 & E1 & bs1 & l1 & HR1 & Hg1 & Hna1 & HF1 & Hcase
                  & Hfr & HW).
  unfold mm_calloc in H.
  erewrite bind_run in H by reflexivity.
  replace (heap_listp st =? 0) with false in H
    by (symmetry; apply Z.eqb_neq; lia).
  erewrite bind_run in H by reflexivity.
  rewrite <- En in H.
  erewrite bind_run in H by exact E1.
  unfold bind, memset, ret in H.
  destruct (Z.eqb_spec n 0) as [Hz | Hnz].
  - inversion H; subst r st'. exists bs1, l1.
    split; [exact HR1|]. split; [exact Hg1|]. split; [exact Hna1|].
    split; [exact HF1|]. split; [|split; [|split; [exact Hfr | exact HW]]].
    + intros E p. destruct Hcase as [(_ & ->) | (Hr & _)]; tauto.
    + intros E p. destruct Hcase as [(Hr & _) | (_ & c & Hin & _ & Hal)];
        [contradiction|]. unfold allocated. split.
      * intros (s & Hs). apply Hal in Hs. destruct Hs as [(-> & _) | Hs]; eauto.
      * intros [-> | (s & Hs)]; [exists c | exists s]; apply Hal; auto.
  - destruct (valid st1 r1 n) eqn:V; [|discriminate].
    inversion H; subst r st'. clear H.
    unfold valid in V. apply andb_true_iff in V. destruct V as (V1 & V2).
    apply Z.leb_le in V1, V2.
    pose proof (R_layout _ _ _ HR1) as HL1.
    pose proof (layout_bounds _ _ HL1) as (G5 & G6 & G7 & G8).
    destruct Hcase as [(Hr & _) | (Hr & c & Hin & Hc & Hal)];
      [unfold NULL in Hr; lia|].
    pose proof (layout_in _ _ _ _ _ HL1 Hin) as (B1 & B2 & B3 & B4 & B5 & B6).
    destruct (asize_facts n Hn) as (_ & _ & _ & F4).
    assert (Hfit : n + 8 <= c) by lia.
    destruct (payload_write st1 bs1 l1 r1 c (mem_fill (mem st1) r1 0 n)
                            HR1 Hg1 Hin) as (HR2 & HF2).
    { intros a Ha. unfold mem_fill.
      destruct (Z.leb_spec r1 a), (Z.ltb_spec a (r1 + n)); cbn [andb];
        try reflexivity; lia. }
    exists bs1, l1.
    split; [exact HR2|]. split; [exact Hg1|]. split; [exact Hna1|].
    split; [eapply frame_trans; eauto|].
    split; [|split; [|split; [exact Hfr|]]].
    + intros E. contradiction.
    + intros _ p. unfold allocated. split.
      * intros (s & Hs). apply Hal in Hs.
        destruct Hs as [(-> & _) | Hs]; eauto.
      * intros [-> | (s & Hs)]; [exists c | exists s]; apply Hal; auto.
    + eapply kept_trans; [exact HW|].
      intros x s a Hx _ Ha. unfold WSIZE in Ha. cbn [mem with_mem].
      assert (Hx1 : In (x, s, KAlloc) bs1) by (apply Hal; right; exact Hx).
      assert (Hxr : x <> r1)
        by (intros E; apply Hfr; exists s; rewrite <- E; exact Hx).
      pose proof (layout_in _ _ _ _ _ HL1 Hx1) as (_ & _ & X3 & _).
      unfold mem_fill, MINIMUM in *.
      destruct (layout_sep _ _ _ _ _ _ _ _ HL1 Hx1 Hin) as [(E & _) | E];
        [contradiction|].
      destruct (Z.leb_spec r1 a), (Z.ltb_spec a (r1 + n)); cbn [andb];
        try reflexivity; lia.
Qed.

(** ** Initialisation *)

Lemma valid_false st a n : mem_brk st < a + n -> valid st a n = false.
Proof.
  intros H. unfold valid. apply andb_false_iff. right. apply Z.leb_gt. exact H.
Qed.

Lemma mm_init_fault st0 :
  fresh st0 -> mem_max_addr st0 < mem_brk st0 + 2 * MINIMUM ->
  mm_init st0 = Fault.
Proof.
  intros [] Hno. unfold mm_init, MINIMUM in *.
  erewrite bind_run by (apply run_sbrk_fail; lia).
  erewrite bind_run by reflexivity.
  change (SBRK_FAILED =? NULL) with false. cbv iota.
  erewrite bind_run by reflexivity. simpl_st.
  unfold bind at 1, PUT, store_at. rewrite valid_false; [reflexivity|].
  simpl_st. unfold SBRK_FAILED. slia.
Qed.

(** [mm_init] up to its call of [extend_heap]: the prologue is laid down
    and the word below the first block is as it was. *)
Lemma mm_init_prefix st0 (Q : Z -> state -> Prop) :
  fresh st0 -> mem_brk st0 + 2 * MINIMUM <= mem_max_addr st0 ->
  (forall m,
      load 4 m (mem_brk st0 + 4) = MINIMUM + 1 ->
      load 4 m (mem_brk st0 + 24) = MINIMUM + 1 ->
      load 4 m (mem_brk st0 + 40) = load 4 (mem st0) (mem_brk st0 + 40) ->
      (forall a, a < mem_brk st0 -> m a = mem st0 a) ->
      wp (r <- extend_heap (CHUNKSIZE / WSIZE) ;;
          if r =? NULL then ret (-1) else ret 0) Q
         (mkState m (mem_heap st0) (mem_brk st0 + 48) (mem_max_addr st0)
                  (mem_brk st0) (mem_brk st0 + 8))) ->
  wp mm_init Q st0.
Proof.
  intros [] Hfit HQ. unfold mm_init, MINIMUM, WSIZE, DSIZE in *.
  eapply wp_bind_run; [apply run_sbrk_ok; lia|].
  eapply wp_bind_run; [reflexivity|].
  replace (mem_brk st0 =? NULL) with false
    by (symmetry; apply Z.eqb_neq; unfold NULL; lia).
  eapply wp_bind_run; [reflexivity|]. simpl_st.
  change (PACK 24 1) with 25. change (PACK 0 1) with 1.
  remember (mem_brk st0) as base eqn:Eb.
  do 6 (eapply wp_bind_run; [apply run_PUT; simpl_st; lia|]; simpl_st).
  eapply wp_bind_run; [reflexivity|]. simpl_st.
  replace (2 * 24) with 48 in * by lia.
  apply HQ; simpl_st.
  - rewrite !load_store_disj by slia. apply load4_store4. lia.
  - rewrite !load_store_disj by slia. apply load4_store4. lia.
  - rewrite !load_store_disj by slia. reflexivity.
  - intros a Ha. rewrite !store_outside by slia. reflexivity.
Qed.

Lemma mm_init_nomem st0 :
  fresh st0 -> mem_brk st0 + 2 * MINIMUM <= mem_max_addr st0 ->
  mem_max_addr st0 < mem_brk st0 + 2 * MINIMUM + CHUNKSIZE ->
  exists m,
    mm_init st0 =
      Ok (-1) (mkState m (mem_heap st0) (mem_brk st0 + 48) (mem_max_addr st0)
                       (mem_brk st0) (mem_brk st0 + 8)) /\
    load 4 m (mem_brk st0 + 4) = MINIMUM + 1.
Proof.
  intros Hf H1 H2.
  assert (Hwp : wp mm_init
                   (fun r st =>
                      r = -1 /\
                      exists m,
                        st = mkState m (mem_heap st0) (mem_brk st0 + 48)
                                     (mem_max_addr st0) (mem_brk st0)
                                     (mem_brk st0 + 8) /\
                        load 4 m (mem_brk st0 + 4) = MINIMUM + 1) st0).
  { apply mm_init_prefix; auto. intros m Hm _ _ _.
    apply wp_bind.
    pose proof (extend_size_eq (CHUNKSIZE / WSIZE) 4096) as Esz.
    unfold extend_size in Esz. cbv zeta in Esz. unfold extend_heap.
    cbv zeta. rewrite !Esz;
      [| unfold MINIMUM; lia | reflexivity | reflexivity].
    change CHUNKSIZE with 4096 in H2. unfold MINIMUM in H1, H2.
    eapply wp_bind_run; [apply run_sbrk_fail; simpl_st; lia|].
    unfold SBRK_FAILED. rewrite Z.eqb_refl. apply wp_ret.
    change (NULL =? NULL) with true. cbv iota. apply wp_ret.
    split; [reflexivity|]. exists m. split; [reflexivity | exact Hm]. }
  apply wp_inv in Hwp. destruct Hwp as (r & st & E & -> & m & -> & Hm).
  exists m. split; [exact E | exact Hm].
Qed.

Lemma mm_init_ok st0 :
  fresh st0 ->
  mem_brk st0 + 2 * MINIMUM + CHUNKSIZE <= mem_max_addr st0 ->
  exists st,
    mm_init st0 = Ok 0 st /\
    R st [(mem_brk st0 + 48, 4096, KFree)] [mem_brk st0 + 48] /\
    heap_listp st = mem_brk st0 /\
    (forall a, a < mem_brk st0 -> mem st a = mem st0 a).
Proof.
  intros Hf Hfit. change CHUNKSIZE with 4096 in Hfit. unfold MINIMUM in Hfit.
  assert (Hwp : wp mm_init
                   (fun r st =>
                      r = 0 /\
                      R st [(mem_brk st0 + 48, 4096, KFree)]
                        [mem_brk st0 + 48] /\
                      heap_listp st = mem_brk st0 /\
                      (forall a, a < mem_brk st0 -> mem st a = mem st0 a))
                   st0).
  { apply mm_init_prefix; auto; [unfold MINIMUM; lia|].
    intros m P1 P2 P3 P4. pose proof (fresh_gap _ Hf) as Hgap. destruct Hf.
    remember (mem_brk st0) as base eqn:Eb.
    apply wp_bind.
    pose proof (extend_size_eq (CHUNKSIZE / WSIZE) 4096) as Esz.
    unfold extend_size in Esz. cbv zeta in Esz. unfold extend_heap. cbv zeta. rewrite !Esz;
      [| unfold MINIMUM; lia | reflexivity | reflexivity].
    clear Esz.
    eapply wp_bind_run; [apply run_sbrk_ok; simpl_st; lia|]. simpl_st.
    replace (base + 48 =? SBRK_FAILED) with false
      by (symmetry; apply Z.eqb_neq; unfold SBRK_FAILED; lia).
    rewrite PACK_free. cbn [tag]. change (PACK 0 1) with 1.
    unfold HDRP, WSIZE.
    assert (Hsw : size_of_word 4096 = 4096) by reflexivity.
    eapply wp_bind_run; [apply run_PUT; simpl_st; lia|]. simpl_st.
    eapply wp_bind_run; [apply run_FTRP; simpl_st; lia|]. simpl_st.
    rewrite load4_store4 by lia. rewrite Hsw.
    eapply wp_bind_run; [apply run_PUT; simpl_st; lia|]. simpl_st.
    eapply wp_bind_run; [apply run_NEXT_BLKP; simpl_st; lia|]. simpl_st.
    rewrite load_store_disj by slia. rewrite load4_store4 by lia. rewrite Hsw.
    eapply wp_bind_run; [apply run_PUT; simpl_st; lia|]. simpl_st.
    remember (store 4
                (store 4 (store 4 m (base + 48 - 4) 4096)
                   (base + 48 + 4096 - 8) 4096)
                (base + 48 + 4096 - 4) 1) as m3 eqn:Em3.
    set (st3 := mkState m3 (mem_heap st0) (base + 48 + 4096)
                        (mem_max_addr st0) base (base + 8)).
    assert (HR3 : R st3 ([] ++ (base + 48, 4096, KFree) :: []) []).
    { constructor.
      - constructor; unfold st3; simpl_st; try lia; auto.
        + rewrite Em3, !load_store_disj by slia. exact P1.
        + rewrite Em3, !load_store_disj by slia. exact P2.
        + rewrite Em3, !load_store_disj by slia. rewrite P3. exact Hgap.
        + cbn [app chain baddr bsize fst snd]. auto.
        + constructor; [|constructor].
          split; [cbn [bsize fst snd]; unfold MINIMUM; lia|].
          split; [reflexivity|]. intros _.
          cbn [baddr bsize bkind fst snd tag]. split.
          * rewrite Em3, !load_store_disj by slia. apply load4_store4. lia.
          * rewrite Em3, load_store_disj by slia. apply load4_store4. lia.
        + rewrite Em3. apply load4_store4. lia.
      - constructor; unfold st3; simpl_st; [reflexivity | exact I | constructor].
      - intros x []. }
    eapply coalesce_case1; [exact HR3 | intros [] | reflexivity | reflexivity |].
    intros st4 HR4 HF4 Hb4 _.
    replace (base + 48 =? NULL) with false
      by (symmetry; apply Z.eqb_neq; unfold NULL; lia).
    apply wp_ret. split; [reflexivity|]. split; [exact HR4|].
    pose proof (F_mem _ _ HF4) as Hfm. pose proof (F_listp _ _ HF4) as Hfl.
    unfold st3 in *. simpl_st. split; [exact Hfl|].
    intros a Ha. rewrite Hfm by lia.
    rewrite Em3, !store_outside by slia. apply P4. exact Ha. }
  apply wp_inv in Hwp. destruct Hwp as (r & st & E & -> & H). eauto.
Qed.

(** ** Every call keeps the invariant *)

Lemma Inv_allocated st live bs l p :
  R st bs l -> (forall q, In q live <-> allocated bs q) -> In p live ->
  exists c, In (p, c, KAlloc) bs.
Proof. intros _ H Hp. apply H in Hp. exact Hp. Qed.

Lemma live_not_null st bs live :
  layout st bs -> (forall q, In q live <-> allocated bs q) -> ~ In NULL live.
Proof.
  intros HL H Hn. apply H in Hn. pose proof (allocated_in _ _ _ HL Hn).
  unfold NULL in *. lia.
Qed.

Lemma exec_wp st live c :
  Inv st live -> valid_call live c -> ~ is_calloc c ->
  wp (exec c)
     (fun r st' =>
        Inv st' (live_after c r live) /\ frame st st' /\
        returned c r (live_after c r live)) st.
Proof.
  intros (bs & l & HR & Hg & Hna & Hlive) Hv Hnc.
  pose proof (R_layout _ _ _ HR) as HL.
  pose proof (live_not_null _ _ _ HL Hlive) as Hnull.
  destruct c as [size | ptr | ptr size | nmemb size]; cbn [exec valid_call] in *.
  - (* malloc *)
    eapply mm_malloc_spec; eauto.
    intros st' bs' l' r HR' Hg' Hna' HF
           [(-> & -> & -> & ->) | (Hr & _ & c & Hin & Hc & Hal)] _ _.
    + cbn [live_after add_live]. change (NULL =? NULL) with true. cbv iota.
      split; [exists bs, l; auto|]. split; [exact HF | left; reflexivity].
    + cbn [live_after returned]. unfold add_live.
      replace (r =? NULL) with false by (symmetry; apply Z.eqb_neq; exact Hr).
      split; [|split; [exact HF | right; left; reflexivity]].
      exists bs', l'. repeat (split; [assumption|]).
      intros p. cbn [In]. rewrite Hlive. unfold allocated. split.
      * intros [<- | (s & H)]; [exists c | exists s]; apply Hal; auto.
      * intros (s & H). apply Hal in H. destruct H as [(-> & _) | H]; eauto.
  - (* free *)
    apply wp_bind. destruct Hv as [-> | Hp].
    + unfold mm_free. change (NULL =? 0) with true. cbv iota.
      apply wp_ret. apply wp_ret. cbn [live_after returned].
      rewrite notin_remove by exact Hnull.
      split; [exists bs, l; auto|]. split; [apply frame_refl | reflexivity].
    + apply Hlive in Hp. destruct Hp as (c & Hin).
      eapply mm_free_spec; eauto.
      intros st' bs' l' HR' Hg' Hna' Hal HF Hb _. apply wp_ret.
      cbn [live_after returned]. split; [|split; [exact HF | reflexivity]].
      exists bs', l'. repeat (split; [assumption|]).
      intros p. rewrite in_remove_iff, Hlive. unfold allocated. split.
      * intros ((s & H) & Hne). exists s. apply Hal. auto.
      * intros (s & H). apply Hal in H. destruct H. eauto.
  - (* realloc *)
    destruct Hv as (Hs & Hp).
    assert (Hp' : ptr = NULL \/ allocated bs ptr)
      by (destruct Hp as [-> | Hp]; [left; reflexivity | right; apply Hlive; exact Hp]).
    eapply mm_realloc_spec; eauto.
    intros st' bs' l' r HR' Hg' Hna' HF H0 Hn0 Hn1 _ _ _.
    cbn [live_after returned].
    destruct (Z.eqb_spec size 0) as [Ez | Enz].
    + destruct (H0 Ez) as (-> & Hal).
      split; [|split; [exact HF | left; reflexivity]].
      exists bs', l'. repeat (split; [assumption|]).
      intros p. rewrite in_remove_iff, Hlive. symmetry. apply Hal.
    + destruct (Z.eqb_spec r NULL) as [Er | Er].
      * split; [|split; [exact HF | left; exact Er]].
        exists bs', l'. repeat (split; [assumption|]).
        intros p. rewrite Hlive. symmetry. apply Hn0; assumption.
      * split; [|split; [exact HF | right; left; reflexivity]].
        exists bs', l'. repeat (split; [assumption|]).
        intros p. cbn [In]. rewrite in_remove_iff, Hlive.
        rewrite (Hn1 Enz Er p).
        split; (intros [E | H]; [left; symmetry; exact E | right; exact H]).
  - exfalso. apply Hnc. exact I.
Qed.

Lemma exec_outcome st live c :
  Inv st live -> valid_call live c ->
  match exec c st with
  | Ok r st' =>
      Inv st' (live_after c r live) /\ frame st st' /\
      returned c r (live_after c r live)
  | Fault => is_calloc c
  | Diverge => False
  end.
Proof.
  intros HI Hv.
  destruct c as [size | ptr | ptr size | nmemb size].
  1-3: (pose proof (exec_wp st live _ HI Hv (fun C => C)) as H;
        unfold wp in H; destruct (exec _ st); [exact H | contradiction ..]).
  destruct HI as (bs & l & HR & Hg & Hna & Hlive).
  cbn [exec]. destruct (mm_calloc nmemb size st) as [r st'| |] eqn:E.
  - destruct (mm_calloc_inv _ _ _ _ _ _ _ HR Hg Hna E)
      as (bs' & l' & HR' & Hg' & Hna' & HF & H0 & H1 & _).
    cbn [live_after returned]. unfold add_live.
    destruct (Z.eqb_spec r NULL) as [Er | Er].
    + split; [|split; [exact HF | left; exact Er]].
      exists bs', l'. repeat (split; [assumption|]).
      intros p. rewrite Hlive. symmetry. apply H0. exact Er.
    + split; [|split; [exact HF | right; left; reflexivity]].
      exists bs', l'. repeat (split; [assumption|]).
      intros p. cbn [In]. rewrite Hlive, (H1 Er p).
      split; (intros [Ep | H]; [left; symmetry; exact Ep | right; exact H]).
  - exact I.
  - (* [mm_calloc] returns or faults *)
    pose proof (R_layout _ _ _ HR) as HL.
    pose proof (layout_bounds _ _ HL) as (G1 & G2 & G3 & G4).
    pose proof (mm_malloc_spec st bs l (u64 (nmemb * size))
                  (fun _ _ => True) HR Hg Hna (u64_range _)
                  (fun _ _ _ _ _ _ _ _ _ _ _ => I)) as Hm.
    apply wp_inv in Hm. destruct Hm as (r1 & st1 & E1 & _).
    unfold mm_calloc in E.
    erewrite bind_run in E by reflexivity.
    replace (heap_listp st =? 0) with false in E
      by (symmetry; apply Z.eqb_neq; lia).
    erewrite bind_run in E by reflexivity.
    erewrite bind_run in E by exact E1.
    unfold bind, memset, ret in E.
    destruct (u64 (nmemb * size) =? 0); [discriminate|].
    destruct (valid st1 r1 (u64 (nmemb * size))); discriminate.
Qed.

(** ** The invariant holds in every reachable state *)

Lemma init_inv st0 st :
  fresh st0 -> mm_init st0 = Ok 0 st ->
  R st [(mem_brk st0 + 48, 4096, KFree)] [mem_brk st0 + 48] /\
  heap_listp st = mem_brk st0 /\
  mem_brk st0 + 2 * MINIMUM + CHUNKSIZE <= mem_max_addr st0.
Proof.
  intros Hf E.
  destruct (Z.lt_ge_cases (mem_max_addr st0) (mem_brk st0 + 2 * MINIMUM))
    as [H1 | H1].
  { rewrite (mm_init_fault _ Hf H1) in E. discriminate. }
  destruct (Z.lt_ge_cases (mem_max_addr st0)
                          (mem_brk st0 + 2 * MINIMUM + CHUNKSIZE))
    as [H2 | H2].
  { destruct (mm_init_nomem _ Hf H1 H2) as (m & E1 & _).
    rewrite E1 in E. discriminate. }
  destruct (mm_init_ok _ Hf H2) as (st1 & E1 & HR & Hh & _).
  rewrite E1 in E. inversion E; subst st1. auto.
Qed.

Lemma good_init b : good [(b, 4096, KFree)] [b].
Proof.
  intros x s k [E | []]. inversion E; subst.
  split; [discriminate|]. split; [left; reflexivity | reflexivity].
Qed.

Theorem reachable_inv st live : reachable st live -> Inv st live.
Proof.
  induction 1 as [st0 st Hf E | st live c r st' Hr IH Hv E
                  | st live p off v Hr IH Hp Hoff].
  - destruct (init_inv _ _ Hf E) as (HR & _).
    exists [(mem_brk st0 + 48, 4096, KFree)], [mem_brk st0 + 48].
    split; [exact HR|]. split; [apply good_init|]. split; [exact I|].
    intros p. split; [intros [] | intros (s & [C | []])]. discriminate.
  - pose proof (exec_outcome _ _ _ IH Hv) as H. rewrite E in H. apply H.
  - destruct IH as (bs & l & HR & Hg & Hna & Hlive).
    pose proof (proj1 (Hlive p) Hp) as (c & Hin).
    pose proof (R_layout _ _ _ HR) as HL.
    destruct (layout_hdr_size _ _ _ _ _ HL Hin) as (E1 & _); [discriminate|].
    unfold hdr_size, HDRP, WSIZE, DSIZE in Hoff. rewrite E1 in Hoff.
    destruct (payload_write st bs l p c (upd (mem st) (p + off) v) HR Hg Hin)
      as (HR' & _).
    { intros a Ha. unfold upd. destruct (Z.eqb_spec a (p + off)); [lia|].
      reflexivity. }
    exists bs, l. auto.
Qed.

(* ================================================================== *)
(** * Part IV: the properties of the public operations *)
(* ================================================================== *)

(** ** Concrete runs *)

Lemma demo_fresh : fresh (provider 0 (20 * 2 ^ 20)).
Proof. constructor; cbn; try lia; reflexivity. Qed.

Lemma demo_init_run : mm_init (provider 0 (20 * 2 ^ 20)) = Ok 0 demo_init.
Proof. vm_compute. reflexivity. Qed.

Lemma demo_init_reachable : reachable demo_init [].
Proof. exact (reach_init _ _ demo_fresh demo_init_run). Qed.

Lemma demo_one_run : exec (Malloc 1) demo_init = Ok 4144 demo_one.
Proof. vm_compute. reflexivity. Qed.

Lemma demo_one_valid : valid_call [] (Malloc 1).
Proof. cbn. unfold is_size. lia. Qed.

Lemma demo_one_reachable : reachable demo_one [4144].
Proof.
  exact (reach_call _ _ _ _ _ demo_init_reachable demo_one_valid demo_one_run).
Qed.

(** ** Reading the blocks back *)

Lemma heap_block_cases st bs bp :
  layout st bs -> (forall x s k, In (x, s, k) bs -> k <> KRaw) ->
  heap_block st bp -> bp = mem_brk st \/ exists s k, In (bp, s, k) bs.
Proof.
  intros HL Hk Hb. induction Hb as [|bp Hb IH Hs].
  - pose proof (L_chain _ _ HL) as Hc. unfold MINIMUM.
    destruct bs as [|[[b s] k] post].
    + left. cbn in Hc. lia.
    + right. exists s, k. rewrite (layout_first _ _ _ _ _ HL) at 1.
      replace (heap_listp st + 2 * 24) with (heap_listp st + 48) by lia.
      left. reflexivity.
  - destruct IH as [-> | (s & k & Hin)].
    + exfalso. unfold hdr_size, HDRP, WSIZE in Hs.
      rewrite (L_epilogue _ _ HL) in Hs. vm_compute in Hs. discriminate.
    + destruct (layout_hdr_size _ _ _ _ _ HL Hin (Hk _ _ _ Hin)) as (E & _).
      unfold hdr_size, HDRP, WSIZE. rewrite E.
      destruct (in_split _ _ Hin) as (pre & post & ->).
      destruct (layout_next _ _ _ _ _ _ HL) as [(_ & Hn) | (_ & Hn & Ha)].
      * left. exact Hn.
      * right. destruct (next_block bp s post) as [[x sx] kx].
        cbn [baddr fst] in Ha. subst x. eauto.
Qed.

(** The walk visits every block. *)
Lemma heap_block_complete st pre b post :
  layout st (pre ++ b :: post) ->
  (forall x s k, In (x, s, k) (pre ++ b :: post) -> k <> KRaw) ->
  heap_block st (baddr b).
Proof.
  revert b post. induction pre as [|x pre IH] using rev_ind; intros b post HL Hk.
  - destruct b as [[a s] k]. cbn [app] in HL.
    rewrite (layout_first _ _ _ _ _ HL). cbn [baddr fst].
    replace (heap_listp st + 48) with (heap_listp st + 2 * MINIMUM)
      by (unfold MINIMUM; lia).
    constructor.
  - rewrite <- app_assoc in HL, Hk. cbn [app] in HL, Hk.
    pose proof (IH _ _ HL Hk) as Hx. destruct x as [[a s] k].
    assert (Hin : In (a, s, k) (pre ++ (a, s, k) :: b :: post))
      by (apply in_or_app; right; left; reflexivity).
    destruct (layout_hdr_size _ _ _ _ _ HL Hin (Hk _ _ _ Hin)) as (E & _).
    pose proof (layout_in _ _ _ _ _ HL Hin) as (_ & _ & Hs & _).
    destruct (layout_next _ _ _ _ _ _ HL) as [(C & _) | (_ & _ & Ha)];
      [discriminate|].
    cbn [next_block hd] in Ha. cbn [baddr fst] in Hx.
    replace (baddr b) with (a + hdr_size st a)
      by (unfold hdr_size, HDRP, WSIZE; rewrite E; symmetry; exact Ha).
    apply hb_next; [exact Hx|].
    unfold hdr_size, HDRP, WSIZE. rewrite E. unfold MINIMUM in Hs. lia.
Qed.

Lemma no_adjacent_free_of st bs l :
  R st bs l -> good bs l -> no_adj bs -> no_adjacent_free st.
Proof.
  intros HR Hg Hna bp Hb Hs Ha. pose proof (R_layout _ _ _ HR) as HL.
  assert (Hk : forall x s k, In (x, s, k) bs -> k <> KRaw)
    by (intros x s k H; apply (Hg _ _ _ H)).
  destruct (heap_block_cases _ _ _ HL Hk Hb) as [-> | (s & k & Hin)].
  { exfalso. unfold hdr_size, HDRP, WSIZE in Hs.
    rewrite (L_epilogue _ _ HL) in Hs. vm_compute in Hs. discriminate. }
  destruct (layout_hdr_size _ _ _ _ _ HL Hin (Hk _ _ _ Hin))
    as (E1 & _ & E2 & _).
  unfold hdr_size, hdr_alloc, HDRP, WSIZE in *. rewrite E1. rewrite E2 in Ha.
  assert (k = KFree) by (destruct k; [discriminate | reflexivity |];
                         exfalso; apply (Hk _ _ _ Hin); reflexivity).
  subst k. destruct (in_split _ _ Hin) as (pre & post & ->).
  destruct (layout_next _ _ _ _ _ _ HL) as [(_ & Hn) | (Ep & Hn & Hx)].
  - rewrite Hn, (L_epilogue _ _ HL). reflexivity.
  - destruct (no_adj_split _ _ _ Hna) as (_ & _ & _ & N).
    destruct (next_block bp s post) as [[x sx] kx] eqn:En.
    cbn [baddr fst] in Hx. subst x.
    destruct (layout_hdr_size _ _ _ _ _ HL Hn (Hk _ _ _ Hn))
      as (_ & _ & E3 & _).
    rewrite E3. destruct kx; [reflexivity | | exfalso; apply (Hk _ _ _ Hn); reflexivity].
    exfalso. apply N; [rewrite Ep; discriminate|].
    split; [reflexivity|]. rewrite Ep. reflexivity.
Qed.

(** ** Alignment *)

(** C1.  Every pointer returned by allocate, resize or zero-allocate is
    double-word aligned: from a state reached by [mm_init] and valid calls,
    a valid call never runs forever, only [mm_calloc] can fault, and the
    value a call returns ([NULL] = 0 included) is a multiple of 8. *)
Theorem returned_pointers_aligned st live c :
  reachable st live -> valid_call live c ->
  match exec c st with
  | Ok p _ => p mod 8 = 0
  | Fault => is_calloc c
  | Diverge => False
  end.
Proof.
  intros Hr Hv. pose proof (exec_outcome _ _ _ (reachable_inv _ _ Hr) Hv) as H.
  destruct (exec c st) as [p st'| |]; [|exact H | exact H].
  destruct H as ((bs & l & HR & _ & _ & Hlive) & _ & Hret).
  assert (Hp : p = NULL \/ In p (live_after c p live)).
  { destruct c; cbn [returned] in Hret; auto. }
  destruct Hp as [-> | Hp]; [reflexivity|].
  apply Hlive in Hp.
  apply (allocated_in _ _ _ (R_layout _ _ _ HR) Hp).
Qed.

Lemma returned_pointers_aligned_witness :
  reachable demo_init [] /\ valid_call [] (Malloc 1) /\
  match exec (Malloc 1) demo_init with
  | Ok p _ => p mod 8 = 0
  | Fault => is_calloc (Malloc 1)
  | Diverge => False
  end.
Proof.
  split; [exact demo_init_reachable|]. split; [exact demo_one_valid|].
  exact (returned_pointers_aligned demo_init [] (Malloc 1)
           demo_init_reachable demo_one_valid).
Defined.

(** ** Capacity *)

(** For requests that do not overflow the size computation, the block
    handed out holds the request. *)
Lemma malloc_capacity st live size p st' :
  reachable st live -> 0 < size <= 2 ^ 64 - 16 ->
  mm_malloc size st = Ok p st' -> p <> NULL ->
  size <= hdr_size st' p - DSIZE.
Proof.
  intros Hr Hs E Hp.
  destruct (reachable_inv _ _ Hr) as (bs & l & HR & Hg & Hna & _).
  assert (Hsz : 0 <= size < 2 ^ 64) by lia.
  refine (wp_elim _ _ _ _ _ _
            (mm_malloc_spec st bs l size
               (fun p st' => p <> NULL -> size <= hdr_size st' p - DSIZE)
               HR Hg Hna Hsz _) E Hp).
  intros st1 bs1 l1 r HR1 _ _ _ [(-> & _) | (_ & _ & c & Hin & Hc & _)] _ _
         Hr1;
    [congruence|].
  destruct (layout_hdr_size _ _ _ _ _ (R_layout _ _ _ HR1) Hin) as (E1 & _);
    [discriminate|].
  destruct (asize_facts size Hsz) as (_ & _ & _ & F).
  unfold hdr_size, HDRP, WSIZE, DSIZE. rewrite E1. specialize (F (proj2 Hs)).
  lia.
Qed.

(** C2 (code).  After [mm_init] on a provider with 20 MiB, allocate with
    the largest size_t returns a block whose payload is 16 bytes: the
    adjusted size [ALIGN(size) + DSIZE] wraps around to 8, and [MAX] makes
    it 24. *)
Theorem malloc_size_max_undersized :
  asize_of (2 ^ 64 - 1) = 24 /\
  exists st',
    mm_malloc (2 ^ 64 - 1) demo_init = Ok 4144 st' /\
    hdr_size st' 4144 - DSIZE = 16.
Proof.
  split; [vm_compute; reflexivity|].
  exists (after (mm_malloc (2 ^ 64 - 1)) demo_init).
  split; vm_compute; reflexivity.
Qed.

(** ** No two adjacent free blocks *)

(** C3.  In every state reached by [mm_init], valid calls of the four
    public operations and stores into live payloads, no free block met by
    the walk over the heap is followed by a free block; and from such a
    state heap extension, by any number of words, returns in a state with
    the same property. *)
Theorem no_adjacent_free_blocks st live :
  reachable st live ->
  no_adjacent_free st /\
  forall words,
    match extend_heap words st with
    | Ok _ st' => no_adjacent_free st'
    | Fault => False
    | Diverge => False
    end.
Proof.
  intros Hr. destruct (reachable_inv _ _ Hr) as (bs & l & HR & Hg & Hna & _).
  split; [exact (no_adjacent_free_of _ _ _ HR Hg Hna)|].
  intros words. destruct (extend_size_range words) as (S1 & S2).
  change (wp (extend_heap words) (fun _ st' => no_adjacent_free st') st).
  eapply (extend_heap_spec st bs l words (extend_size words));
    [exact HR | exact Hg | exact Hna | exact S1 | exact S2 | reflexivity | |].
  - intros _. exact (no_adjacent_free_of _ _ _ HR Hg Hna).
  - intros _ st' bs' l' r _ HR' Hg' Hna' _ _ _ _ _.
    exact (no_adjacent_free_of _ _ _ HR' Hg' Hna').
Qed.

Lemma no_adjacent_free_blocks_witness :
  reachable demo_one [4144] /\
  no_adjacent_free demo_one /\
  forall words,
    match extend_heap words demo_one with
    | Ok _ st' => no_adjacent_free st'
    | Fault => False
    | Diverge => False
    end.
Proof.
  split; [exact demo_one_reachable|].
  exact (no_adjacent_free_blocks demo_one [4144] demo_one_reachable).
Defined.

(** ** The consistency checker *)

(** The prologue test of the checker fails on the word [mm_init] writes as
    the prologue header. *)
Lemma bad_prologue_header : bad_prologue (PACK MINIMUM 1) = true.
Proof. reflexivity. Qed.

(** When the checker returns, it reports a bad prologue unless the word
    below [heap_listp] has size [DSIZE] and its allocated bit set. *)
Lemma checkheap_prologue_word verbose st msgs st' :
  mm_checkheap verbose st = Ok msgs st' ->
  bad_prologue (load 4 (mem st) (heap_listp st - WSIZE)) = true ->
  In BadPrologueHeader msgs.
Proof.
  unfold mm_checkheap. intros E Hb.
  erewrite bind_run in E by reflexivity.
  unfold bind at 1 in E. unfold GET, load_at, HDRP in E.
  destruct (valid st (heap_listp st - WSIZE) (Z.of_nat 4)); [|discriminate].
  rewrite Hb in E.
  unfold bind in E.
  destruct (checkblock (heap_listp st) st) as [o2 s2| |]; try discriminate.
  destruct (checkheap_loop _ verbose (heap_listp st) s2) as [r s3| |];
    try discriminate.
  destruct ((if verbose then printblock (fst r) else ret []) s3)
    as [o3 s4| |]; try discriminate.
  destruct (valid s4 (fst r - WSIZE) (Z.of_nat 4)); [|discriminate].
  injection E as <- _.
  apply in_or_app. right. left. reflexivity.
Qed.

(** C5 (code).  On the heap [mm_init] builds, the checker reads the word
    below [heap_listp], which is below the heap when the provider had
    handed out nothing, and compares its size with [DSIZE], not with
    [MINIMUM]: the call faults; on a provider that had handed out eight
    zero bytes before, the call returns and reports a bad prologue header
    and a bad epilogue header. *)
Theorem checkheap_after_init :
  mm_checkheap false demo_init = Fault /\
  (exists st',
      mm_checkheap false (after mm_init (provider 8 (20 * 2 ^ 20))) =
        Ok [BadPrologueHeader; BadEpilogueHeader] st') /\
  bad_prologue (load 4 (mem demo_init) (heap_listp demo_init + WSIZE)) = true.
Proof.
  split; [vm_compute; reflexivity|]. split; [|vm_compute; reflexivity].
  exists (after (mm_checkheap false) (after mm_init (provider 8 (20 * 2 ^ 20)))).
  vm_compute. reflexivity.
Qed.

(** ** The prologue block *)

Lemma bytes_at_ext m m' a n :
  (forall x, a <= x < a + Z.of_nat n -> m' x = m x) ->
  bytes_at m' a n = bytes_at m a n.
Proof.
  intros H. unfold bytes_at. apply map_ext_in. intros i Hi.
  apply in_seq in Hi. apply H. lia.
Qed.

(** C6, as stated, fails: allocate after [mm_init] changes a byte of the
    prologue block. *)
Lemma prologue_block_mutated :
  ~ (forall st live c r st',
        reachable st live -> valid_call live c -> exec c st = Ok r st' ->
        prologue_block st' = prologue_block st).
Proof.
  intros H.
  specialize (H demo_init [] (Malloc 1) 4144 demo_one
                demo_init_reachable demo_one_valid demo_one_run).
  vm_compute in H. discriminate.
Qed.

(** C6, amended.  No valid call of a public operation changes
    [heap_listp], the header of the prologue, its footer or the eight bytes
    of its successor slot; header and footer encode (MINIMUM, allocated)
    before and after. *)
Theorem prologue_tags_kept st live c r st' :
  reachable st live -> valid_call live c -> exec c st = Ok r st' ->
  heap_listp st' = heap_listp st /\
  prologue_header st' = prologue_header st /\
  prologue_footer st' = prologue_footer st /\
  prologue_succ st' = prologue_succ st /\
  load 4 (mem st') (heap_listp st' + WSIZE) = PACK MINIMUM 1 /\
  load 4 (mem st') (heap_listp st' + MINIMUM) = PACK MINIMUM 1.
Proof.
  intros Hr Hv E.
  pose proof (exec_outcome _ _ _ (reachable_inv _ _ Hr) Hv) as H.
  rewrite E in H. destruct H as ((bs & l & HR & _) & HF & _).
  pose proof (F_listp _ _ HF) as Hl. pose proof (F_mem _ _ HF) as Hm.
  pose proof (R_layout _ _ _ HR) as HL.
  unfold prologue_header, prologue_footer, prologue_succ.
  rewrite Hl. unfold WSIZE, DSIZE, MINIMUM.
  split; [reflexivity|].
  split; [apply bytes_at_ext; intros x Hx; apply Hm; slia|].
  split; [apply bytes_at_ext; intros x Hx; apply Hm; slia|].
  split; [apply bytes_at_ext; intros x Hx; apply Hm; slia|].
  rewrite <- Hl.
  split; [exact (L_prologue_hdr _ _ HL) | exact (L_prologue_ftr _ _ HL)].
Qed.

Lemma prologue_tags_kept_witness :
  reachable demo_init [] /\ valid_call [] (Malloc 1) /\
  exec (Malloc 1) demo_init = Ok 4144 demo_one /\
  heap_listp demo_one = heap_listp demo_init /\
  prologue_header demo_one = prologue_header demo_init /\
  prologue_footer demo_one = prologue_footer demo_init /\
  prologue_succ demo_one = prologue_succ demo_init /\
  load 4 (mem demo_one) (heap_listp demo_one + WSIZE) = PACK MINIMUM 1 /\
  load 4 (mem demo_one) (heap_listp demo_one + MINIMUM) = PACK MINIMUM 1.
Proof.
  split; [exact demo_init_reachable|]. split; [exact demo_one_valid|].
  split; [exact demo_one_run|].
  exact (prologue_tags_kept demo_init [] (Malloc 1) 4144 demo_one
           demo_init_reachable demo_one_valid demo_one_run).
Defined.

(** ** Initialisation *)

(** What [mm_init] does, by the room the provider has left. *)
Lemma mm_init_outcomes st0 :
  fresh st0 ->
  (mem_max_addr st0 < mem_brk st0 + 2 * MINIMUM -> mm_init st0 = Fault) /\
  (mem_brk st0 + 2 * MINIMUM <= mem_max_addr st0 ->
   mem_max_addr st0 < mem_brk st0 + 2 * MINIMUM + CHUNKSIZE ->
   exists st, mm_init st0 = Ok (-1) st) /\
  (mem_brk st0 + 2 * MINIMUM + CHUNKSIZE <= mem_max_addr st0 ->
   exists st, mm_init st0 = Ok 0 st).
Proof.
  intros Hf. split; [apply mm_init_fault; exact Hf|]. split.
  - intros H1 H2. destruct (mm_init_nomem _ Hf H1 H2) as (m & E & _). eauto.
  - intros H. destruct (mm_init_ok _ Hf H) as (st & E & _). eauto.
Qed.

(** C7 (code).  On a provider with 40 bytes left the first request of
    [mm_init] fails; [mm_init] compares the result with [NULL], not with
    the provider's failure value, stores through it and faults instead of
    returning -1. *)
Theorem init_first_request_fails :
  mem_sbrk (2 * MINIMUM) (provider 0 40) = Ok SBRK_FAILED (provider 0 40) /\
  mm_init (provider 0 40) = Fault.
Proof. split; vm_compute; reflexivity. Qed.

(** ** Resizing to the same size *)

Lemma asize_of_payload c :
  MINIMUM <= c < 2 ^ 64 -> c mod 8 = 0 -> asize_of (c - DSIZE) = c.
Proof.
  intros Hc H8. unfold asize_of, MINIMUM, DSIZE in *.
  rewrite ALIGN_eq by lia.
  pose proof (mod8_div c H8) as Hd.
  assert (E : (c - 8 + 7) / 8 = c / 8 - 1).
  { replace (c - 8 + 7) with (7 + (c / 8 - 1) * 8) by lia.
    rewrite Z.div_add by lia. reflexivity. }
  rewrite E. rewrite u64_small by lia. rewrite MAX_eq. lia.
Qed.

(** C8.  For a live block [p], resize to its payload size (its block size
    less header and footer) returns [p] and leaves the whole state as it
    was. *)
Theorem realloc_same_size st live p :
  reachable st live -> In p live ->
  mm_realloc p (hdr_size st p - DSIZE) st = Ok p st.
Proof.
  intros Hr Hp.
  destruct (reachable_inv _ _ Hr) as (bs & l & HR & _ & _ & Hlive).
  apply Hlive in Hp. destruct Hp as (c & Hin).
  pose proof (R_layout _ _ _ HR) as HL.
  pose proof (layout_in _ _ _ _ _ HL Hin) as (A1 & A2 & A3 & A4 & A5 & A6).
  pose proof (layout_bounds _ _ HL) as (G1 & G2 & G3 & G4).
  destruct (layout_hdr_size _ _ _ _ _ HL Hin) as (E1 & _); [discriminate|].
  unfold hdr_size, HDRP, WSIZE. rewrite E1.
  unfold mm_realloc. fold (asize_of (c - DSIZE)).
  rewrite asize_of_payload by (unfold MINIMUM in *; lia).
  unfold MINIMUM, DSIZE in *.
  replace (c - 8 <=? 0) with false by (symmetry; apply Z.leb_gt; lia).
  replace (p =? NULL) with false
    by (symmetry; apply Z.eqb_neq; unfold NULL; lia).
  unfold HDRP, WSIZE.
  erewrite bind_run by (apply run_GET_SIZE; lia).
  rewrite E1, Z.eqb_refl. reflexivity.
Qed.

Lemma realloc_same_size_witness :
  reachable demo_one [4144] /\ In 4144 [4144] /\
  mm_realloc 4144 (hdr_size demo_one 4144 - DSIZE) demo_one = Ok 4144 demo_one.
Proof.
  split; [exact demo_one_reachable|]. split; [left; reflexivity|].
  exact (realloc_same_size demo_one [4144] 4144 demo_one_reachable
           (or_introl eq_refl)).
Defined.

(** ** Resizing to a larger size *)

(** What [mm_realloc] does when the adjusted size exceeds the block size
    [c]: the byte count of the copy is the smaller of [size] and [c]. *)
Lemma realloc_grow_code ptr size c st :
  0 < size -> ptr <> NULL -> GET_SIZE (HDRP ptr) st = Ok c st ->
  c < asize_of size ->
  mm_realloc ptr size st =
    (newptr <- mm_malloc size ;;
     if newptr =? 0 then ret 0
     else memcpy newptr ptr (Z.min size c) ;; mm_free ptr ;; ret newptr) st.
Proof.
  intros Hs Hp E Hc. unfold mm_realloc. fold (asize_of size).
  replace (size <=? 0) with false by (symmetry; apply Z.leb_gt; lia).
  replace (ptr =? NULL) with false by (symmetry; apply Z.eqb_neq; exact Hp).
  erewrite bind_run by exact E.
  replace (c =? asize_of size) with false by (symmetry; apply Z.eqb_neq; lia).
  replace (asize_of size <? c) with false by (symmetry; apply Z.ltb_ge; lia).
  cbv zeta.
  replace (if size <? c then size else c) with (Z.min size c)
    by (destruct (Z.ltb_spec size c); lia).
  reflexivity.
Qed.

(** In that case the count exceeds the payload of the old block. *)
Lemma realloc_grow_count size c :
  0 <= size < 2 ^ 64 -> MINIMUM <= c -> c mod 8 = 0 -> c < asize_of size ->
  c - 2 * WSIZE < Z.min size c.
Proof.
  intros Hs Hc H8 Ha. destruct (asize_facts size Hs) as (F1 & F2 & F3 & _).
  unfold WSIZE. apply Z.min_glb_lt; [|lia].
  unfold asize_of in *. rewrite MAX_eq in *. unfold MINIMUM, DSIZE in *.
  destruct (ALIGN_range size) as (A1 & A2).
  assert (Hu : u64 (ALIGN size + 8) <= ALIGN size + 8).
  { unfold u64. apply Z.mod_le; lia. }
  destruct (Z.le_gt_cases size (2 ^ 64 - 8)) as [Hle | Hgt].
  - rewrite ALIGN_eq in * by lia.
    pose proof (Z.div_mod (size + 7) 8 ltac:(lia)).
    pose proof (Z.mod_pos_bound (size + 7) 8 ltac:(lia)).
    pose proof (mod8_div c H8). lia.
  - pose proof (Z.le_max_l (u64 (ALIGN size + 8)) 24).
    assert (c < 2 ^ 64) by lia. lia.
Qed.

(** C4 (code).  Resize of the 16-byte payload at 4144 to 100 bytes: the
    adjusted size 112 exceeds the block size 24, and the code copies 24
    bytes, where the description copies min(100, 24 - 8) = 16: the word
    after the sixteenth byte of the new payload holds the old block's
    footer instead of being left as it was. *)
Theorem realloc_grow_copies_block_size :
  hdr_size demo_one 4144 = 24 /\ asize_of 100 = 112 /\
  wp (mm_realloc 4144 100)
     (fun q st => q = 4168 /\ load 4 (mem st) (q + 16) = PACK 24 1)
     demo_one /\
  wp (realloc_grow_described 4144 100)
     (fun q st => q = 4168 /\ load 4 (mem st) (q + 16) = 0)
     demo_one.
Proof.
  split; [vm_compute; reflexivity|]. split; [vm_compute; reflexivity|].
  split; (vm_compute; split; reflexivity).
Qed.

(** ** Zero-allocate before initialisation *)

Lemma calloc_uninitialised st nmemb size r st1 :
  heap_listp st = 0 -> mm_init st = Ok r st1 ->
  mm_calloc nmemb size st =
    (ptr <- mm_malloc (u64 (nmemb * size)) ;;
     memset ptr 0 (u64 (nmemb * size)) ;;
     ret ptr) st1.
Proof.
  intros H0 E. unfold mm_calloc.
  erewrite bind_run by reflexivity. rewrite H0. change (0 =? 0) with true.
  cbv iota. unfold bind at 1. unfold bind at 1. rewrite E. reflexivity.
Qed.

(** Allocation in the state a failed [mm_init] leaves: the free list is
    the prologue alone and the provider has no room for a chunk. *)
Lemma malloc_after_failed_init st0 m n :
  fresh st0 -> mem_brk st0 + 2 * MINIMUM <= mem_max_addr st0 ->
  mem_max_addr st0 < mem_brk st0 + 2 * MINIMUM + CHUNKSIZE ->
  load 4 m (mem_brk st0 + 4) = MINIMUM + 1 -> 0 < n < 2 ^ 64 ->
  let st1 := mkState m (mem_heap st0) (mem_brk st0 + 48) (mem_max_addr st0)
                     (mem_brk st0) (mem_brk st0 + 8) in
  mm_malloc n st1 = Ok NULL st1.
Proof.
  intros Hf H1 H2 Hm Hn st1. pose proof (fresh_heap _ Hf) as Hh.
  change CHUNKSIZE with 4096 in H2. unfold MINIMUM in H1, H2, Hm.
  assert (Hsz : 0 <= n < 2 ^ 64) by lia.
  destruct (asize_facts n Hsz) as (F1 & F2 & _). unfold MINIMUM in F1.
  unfold mm_malloc. fold (asize_of n).
  replace (n <=? 0) with false by (symmetry; apply Z.leb_gt; lia).
  assert (Ef : find_fit (asize_of n) st1 = Ok NULL st1).
  { unfold find_fit. erewrite bind_run by reflexivity.
    cbn [find_fit_loop]. unfold HDRP, WSIZE.
    erewrite bind_run by (apply run_GET_ALLOC; subst st1; simpl_st; lia).
    subst st1. simpl_st.
    replace (mem_brk st0 + 8 - 4) with (mem_brk st0 + 4) by lia.
    rewrite Hm. reflexivity. }
  erewrite bind_run by exact Ef.
  change (negb (NULL =? NULL)) with false. cbv iota zeta.
  assert (E1 : MINIMUM <= MAX (asize_of n) CHUNKSIZE < 2 ^ 64)
    by (rewrite MAX_eq; change CHUNKSIZE with 4096; unfold MINIMUM; lia).
  assert (E2 : MAX (asize_of n) CHUNKSIZE mod 8 = 0).
  { rewrite MAX_eq. change CHUNKSIZE with 4096.
    destruct (Z.max_spec (asize_of n) 4096) as [(_ & ->) | (_ & ->)];
      [reflexivity | exact F2]. }
  assert (Ee : extend_heap (MAX (asize_of n) CHUNKSIZE / WSIZE) st1
               = Ok NULL st1).
  { pose proof (extend_size_eq (MAX (asize_of n) CHUNKSIZE / WSIZE)
                               (MAX (asize_of n) CHUNKSIZE) E1 E2 eq_refl)
      as Esz.
    unfold extend_size in Esz. cbv zeta in Esz.
    unfold extend_heap. cbv zeta. rewrite !Esz.
    erewrite bind_run
      by (apply run_sbrk_fail; subst st1; simpl_st;
          rewrite MAX_eq; change CHUNKSIZE with 4096; lia).
    unfold SBRK_FAILED. rewrite Z.eqb_refl. reflexivity. }
  erewrite bind_run by exact Ee. reflexivity.
Qed.

(** C10.  Zero-allocate on an allocator that was never initialised
    ([heap_listp] is 0) runs [mm_init] and drops its result.  With a
    provider that has room for the prologue but not for the first chunk,
    [mm_init] returns -1; zero-allocate of a non-empty region then goes on
    with [mm_malloc] and [memset] from the state [mm_init] left, [mm_malloc]
    returns [NULL], and the zeroing step stores through it: the call faults
    instead of returning [NULL]. *)
Theorem calloc_ignores_init_failure st0 nmemb size :
  fresh st0 -> heap_listp st0 = 0 ->
  mem_brk st0 + 2 * MINIMUM <= mem_max_addr st0 ->
  mem_max_addr st0 < mem_brk st0 + 2 * MINIMUM + CHUNKSIZE ->
  0 < u64 (nmemb * size) ->
  exists st1,
    mm_init st0 = Ok (-1) st1 /\
    mm_calloc nmemb size st0 =
      (ptr <- mm_malloc (u64 (nmemb * size)) ;;
       memset ptr 0 (u64 (nmemb * size)) ;;
       ret ptr) st1 /\
    mm_malloc (u64 (nmemb * size)) st1 = Ok NULL st1 /\
    mm_calloc nmemb size st0 = Fault.
Proof.
  intros Hf H0 H1 H2 Hn.
  destruct (mm_init_nomem _ Hf H1 H2) as (m & E & Hm).
  pose proof (u64_range (nmemb * size)) as Hu.
  assert (Hn' : 0 < u64 (nmemb * size) < 2 ^ 64) by lia.
  pose proof (malloc_after_failed_init st0 m _ Hf H1 H2 Hm Hn') as Em.
  cbv zeta in Em.
  pose proof (calloc_uninitialised _ nmemb size _ _ H0 E) as Ec.
  eexists. split; [exact E|]. split; [exact Ec|]. split; [exact Em|].
  rewrite Ec. erewrite bind_run by exact Em.
  unfold bind, memset.
  replace (u64 (nmemb * size) =? 0) with false
    by (symmetry; apply Z.eqb_neq; lia).
  unfold valid. simpl_st.
  replace (mem_heap st0 <=? NULL) with false
    by (symmetry; apply Z.leb_gt; pose proof (fresh_heap _ Hf);
        unfold NULL; lia).
  reflexivity.
Qed.

Lemma calloc_provider_fresh : fresh (provider 0 100).
Proof. constructor; cbn; try lia; reflexivity. Qed.

Lemma calloc_ignores_init_failure_witness :
  fresh (provider 0 100) /\ heap_listp (provider 0 100) = 0 /\
  mem_brk (provider 0 100) + 2 * MINIMUM <= mem_max_addr (provider 0 100) /\
  mem_max_addr (provider 0 100) <
    mem_brk (provider 0 100) + 2 * MINIMUM + CHUNKSIZE /\
  0 < u64 (1 * 1) /\
  exists st1,
    mm_init (provider 0 100) = Ok (-1) st1 /\
    mm_calloc 1 1 (provider 0 100) =
      (ptr <- mm_malloc (u64 (1 * 1)) ;;
       memset ptr 0 (u64 (1 * 1)) ;;
       ret ptr) st1 /\
    mm_malloc (u64 (1 * 1)) st1 = Ok NULL st1 /\
    mm_calloc 1 1 (provider 0 100) = Fault.
Proof.
  assert (A : mem_brk (provider 0 100) + 2 * MINIMUM
              <= mem_max_addr (provider 0 100)) by (vm_compute; discriminate).
  assert (B : mem_max_addr (provider 0 100) <
              mem_brk (provider 0 100) + 2 * MINIMUM + CHUNKSIZE)
    by (vm_compute; reflexivity).
  assert (C : 0 < u64 (1 * 1)) by (vm_compute; reflexivity).
  split; [exact calloc_provider_fresh|]. split; [reflexivity|].
  split; [exact A|]. split; [exact B|]. split; [exact C|].
  exact (calloc_ignores_init_failure (provider 0 100) 1 1
           calloc_provider_fresh eq_refl A B C).
Defined.

(** ** Reuse of a freed block *)

(** Allocation when the head of the free list is large enough: the head is
    placed and returned. *)
Lemma malloc_first_fit st pre b c post l2 size (Q : Z -> state -> Prop) :
  R st (pre ++ (b, c, KFree) :: post) (b :: l2) ->
  good (pre ++ (b, c, KFree) :: post) (b :: l2) ->
  no_adj (pre ++ (b, c, KFree) :: post) ->
  0 < size < 2 ^ 64 -> asize_of size <= c ->
  (forall st' bs' l',
      placed pre b c post (b :: l2) (asize_of size) = (bs', l') ->
      R st' bs' l' -> good bs' l' -> no_adj bs' -> Q b st') ->
  wp (mm_malloc size) Q st.
Proof.
  intros HR Hg Hna Hs Hc HQ. pose proof (R_layout _ _ _ HR) as HL.
  assert (Hin : In (b, c, KFree) (pre ++ (b, c, KFree) :: post))
    by (apply in_or_app; right; left; reflexivity).
  pose proof (layout_in _ _ _ _ _ HL Hin) as (I1 & _).
  pose proof (layout_bounds _ _ HL) as (G1 & G2 & _).
  destruct (asize_facts size ltac:(lia)) as (F1 & F2 & _).
  unfold mm_malloc. fold (asize_of size).
  replace (size <=? 0) with false by (symmetry; apply Z.leb_gt; lia).
  apply wp_bind. eapply find_fit_spec; [exact HR | exact Hg |].
  intros r [(_ & Hno) | (l1 & l2' & c' & El & _ & _ & Hl1)].
  { specialize (Hno _ _ Hin). lia. }
  assert (r = b).
  { destruct l1 as [|x l1]; cbn [app] in El; inversion El; [reflexivity|].
    subst x. exfalso.
    specialize (Hl1 b c (or_introl eq_refl) Hin). lia. }
  subst r.
  replace (b =? NULL) with false
    by (symmetry; apply Z.eqb_neq; unfold NULL; lia).
  cbn [negb]. apply wp_bind.
  eapply place_spec; [exact HR | exact Hg | exact Hna | lia | exact F2 |].
  intros st' bs' l' Hpl HR' Hg' Hna' _ _ _ _. apply wp_ret. eauto.
Qed.

Lemma remove_head (x : Z) l :
  remove Z.eq_dec x (x :: l) = remove Z.eq_dec x l.
Proof. cbn [remove]. destruct (Z.eq_dec x x); [reflexivity | congruence]. Qed.

(** C9.  On a provider with room for [mm_init], the sequence init,
    p1 = allocate(1), p2 = allocate(1), free(p1), p3 = allocate(1) runs to
    its end; init returns 0, p1 and p2 are multiples of 8 and differ, and
    p3 is p1. *)
Theorem freed_block_reused st0 :
  fresh st0 ->
  mem_brk st0 + 2 * MINIMUM + CHUNKSIZE <= mem_max_addr st0 ->
  exists p1 p2 st,
    scenario_reuse st0 = Ok (0, p1, p2, p1) st /\
    p1 mod 8 = 0 /\ p2 mod 8 = 0 /\ p1 <> p2.
Proof.
  intros Hf Hroom.
  destruct (mm_init_ok _ Hf Hroom) as (st1 & E1 & HR1 & _).
  pose proof (fresh_align _ Hf) as Hal.
  remember (mem_brk st0 + 48) as B eqn:EB.
  assert (HB : B mod 8 = 0) by (subst B; apply mod8_add; [exact Hal | reflexivity]).
  assert (Hone : 0 < 1 < 2 ^ 64) by lia.
  assert (Hwp : wp (p1 <- mm_malloc 1 ;;
                    p2 <- mm_malloc 1 ;;
                    mm_free p1 ;;
                    p3 <- mm_malloc 1 ;;
                    ret (0, p1, p2, p3))
                   (fun r _ => r = (0, B, B + 24, B)) st1).
  { apply wp_bind.
    eapply (malloc_first_fit st1 [] B 4096 [] [] 1);
      [exact HR1 | apply good_init | exact I | exact Hone
      | vm_compute; discriminate |].
    intros st2 bs2 l2 Hpl HR2 Hg2 Hna2.
    change (asize_of 1) with 24 in Hpl.
    unfold placed, coalesced, prev_block, next_block in Hpl.
    change (4096 - 24 >=? MINIMUM) with true in Hpl.
    rewrite remove_head in Hpl.
    cbn [app last hd is_free bkind snd fst remove] in Hpl.
    injection Hpl as <- <-.
    apply wp_bind.
    eapply (malloc_first_fit st2 [(B, 24, KAlloc)] (B + 24) (4096 - 24) [] [] 1);
      [exact HR2 | exact Hg2 | exact Hna2 | exact Hone
      | vm_compute; discriminate |].
    intros st3 bs3 l3 Hpl HR3 Hg3 Hna3.
    change (asize_of 1) with 24 in Hpl.
    unfold placed, coalesced, prev_block, next_block in Hpl.
    change (4096 - 24 - 24 >=? MINIMUM) with true in Hpl.
    rewrite remove_head in Hpl.
    cbn [app last hd is_free bkind snd fst remove] in Hpl.
    injection Hpl as <- <-.
    apply wp_bind.
    assert (Hin : In (B, 24, KAlloc)
                     ([] ++ (B, 24, KAlloc) ::
                        [(B + 24, 24, KAlloc);
                         (B + 24 + 24, 4096 - 24 - 24, KFree)]))
      by (left; reflexivity).
    destruct (layout_hdr_size _ _ _ _ _ (R_layout _ _ _ HR3) Hin)
      as (Eh & _); [discriminate|].
    pose proof (layout_in _ _ _ _ _ (R_layout _ _ _ HR3) Hin) as (I1 & _).
    assert (Hnl : ~ In B [B + 24 + 24]) by (intros [C | []]; lia).
    eapply (free_core st3 [] B 24 KAlloc
                      [(B + 24, 24, KAlloc);
                       (B + 24 + 24, 4096 - 24 - 24, KFree)]
                      [B + 24 + 24]);
      [exact HR3 | exact Eh | apply good_good_but; exact Hg3 | exact Hnl
      | exact Hna3 |].
    intros st4 bs4 l4 r Hco HR4 Hg4 Hna4 _ _ _.
    unfold coalesced, prev_block, next_block in Hco.
    cbn [app last hd is_free bkind snd fst] in Hco.
    injection Hco as <- <- _.
    apply wp_bind.
    eapply (malloc_first_fit st4 [] B 24
              [(B + 24, 24, KAlloc); (B + 24 + 24, 4096 - 24 - 24, KFree)]
              [B + 24 + 24] 1);
      [exact HR4 | exact Hg4 | exact Hna4 | exact Hone
      | vm_compute; discriminate |].
    intros st5 bs5 l5 _ _ _ _. apply wp_ret. reflexivity. }
  apply wp_inv in Hwp. destruct Hwp as (r & st & E & ->).
  exists B, (B + 24), st. split.
  - unfold scenario_reuse. erewrite bind_run by exact E1. exact E.
  - split; [exact HB|].
    split; [apply mod8_add; [exact HB | reflexivity] | lia].
Qed.

Lemma freed_block_reused_witness :
  fresh (provider 0 (20 * 2 ^ 20)) /\
  mem_brk (provider 0 (20 * 2 ^ 20)) + 2 * MINIMUM + CHUNKSIZE
    <= mem_max_addr (provider 0 (20 * 2 ^ 20)) /\
  exists p1 p2 st,
    scenario_reuse (provider 0 (20 * 2 ^ 20)) = Ok (0, p1, p2, p1) st /\
    p1 mod 8 = 0 /\ p2 mod 8 = 0 /\ p1 <> p2.
Proof.
  assert (A : mem_brk (provider 0 (20 * 2 ^ 20)) + 2 * MINIMUM + CHUNKSIZE
              <= mem_max_addr (provider 0 (20 * 2 ^ 20)))
    by (vm_compute; discriminate).
  split; [exact demo_fresh|]. split; [exact A|].
  exact (freed_block_reused (provider 0 (20 * 2 ^ 20)) demo_fresh A).
Defined.

(* ================================================================== *)
(** * Part V: further properties of the allocator *)
(* ================================================================== *)

(** ** Live payloads *)


Lemma demo_pair_run : exec (Malloc 1) demo_one = Ok 4168 demo_pair.
Proof. vm_compute. reflexivity. Qed.

Lemma demo_pair_reachable : reachable demo_pair [4168; 4144].
Proof.
  exact (reach_call demo_one [4144] (Malloc 1) 4168 demo_pair
           demo_one_reachable demo_one_valid demo_pair_run).
Qed.


(** ** The free list *)

Lemma free_list_of_R st bs l :
  R st bs l -> good bs l -> free_list_is st (free_listp st) l.
Proof.
  intros HR Hg. pose proof (R_layout _ _ _ HR) as HL.
  rewrite (K_head _ _ (R_links _ _ _ HR)).
  assert (H : forall l2 l1, l = l1 ++ l2 ->
                free_list_is st (hd (heap_listp st + 8) l2) l2).
  { induction l2 as [|x l2 IH]; intros l1 El; cbn [hd free_list_is].
    - unfold hdr_alloc, HDRP, WSIZE.
      replace (heap_listp st + 8 - 4) with (heap_listp st + 4) by lia.
      rewrite (L_prologue_hdr _ _ HL). vm_compute. discriminate.
    - assert (Hx : In x l)
        by (rewrite El; apply in_or_app; right; left; reflexivity).
      destruct (R_nodes _ _ _ HR x Hx) as (c & k & Hin).
      assert (k = KFree) by (apply (Hg _ _ _ Hin); exact Hx). subst k.
      destruct (layout_hdr_size _ _ _ _ _ HL Hin) as (_ & _ & E3 & _);
        [discriminate|].
      split; [reflexivity|]. split; [exact E3|].
      pose proof (K_dlist _ _ (R_links _ _ _ HR)) as Hd.
      rewrite El in Hd. apply dlist_app in Hd. destruct Hd as (_ & Hd).
      cbn [dlist] in Hd. destruct Hd as (_ & Hs & _).
      unfold DSIZE. rewrite Hs.
      apply (IH (l1 ++ [x])). rewrite <- app_assoc. exact El. }
  apply (H l []). reflexivity.
Qed.

Lemma free_list_unique st l1 :
  forall bp l2,
    free_list_is st bp l1 -> free_list_is st bp l2 -> l1 = l2.
Proof.
  induction l1 as [|x l1 IH]; intros bp [|y l2] H1 H2; cbn [free_list_is] in *.
  - reflexivity.
  - destruct H2 as (-> & H2 & _). contradiction.
  - destruct H1 as (-> & H1 & _). contradiction.
  - destruct H1 as (-> & _ & H1). destruct H2 as (<- & _ & H2).
    f_equal. exact (IH _ _ H1 H2).
Qed.

(** The free list of a reachable state is the list of the invariant. *)
Lemma free_list_inv st live l :
  reachable st live -> free_list_is st (free_listp st) l ->
  exists bs, R st bs l /\ good bs l /\ no_adj bs /\
             forall p, In p live <-> allocated bs p.
Proof.
  intros Hr Hl.
  destruct (reachable_inv _ _ Hr) as (bs & l0 & HR & Hg & Hna & Hlive).
  pose proof (free_list_of_R _ _ _ HR Hg) as H0.
  rewrite (free_list_unique _ _ _ _ Hl H0). eauto.
Qed.

(** X2.  In every reachable state the walk of [find_fit] over the free
    list ends: the nodes it visits form a list without repetition, at most
    as long as the heap has bytes; the predecessor slot of the head holds
    0, every other node's predecessor slot holds the node before it, every
    node's successor slot holds the node after it, and the successor slot
    of the last node holds the prologue's payload address. *)
Theorem free_list_linked st live :
  reachable st live ->
  exists l,
    free_list_is st (free_listp st) l /\
    (forall l', free_list_is st (free_listp st) l' -> l' = l) /\
    NoDup l /\
    dlist (mem st) 0 l (heap_listp st + DSIZE) /\
    Z.of_nat (length l) <= mem_brk st - mem_heap st.
Proof.
  intros Hr.
  destruct (reachable_inv _ _ Hr) as (bs & l & HR & Hg & _).
  pose proof (free_list_of_R _ _ _ HR Hg) as H0.
  pose proof (R_layout _ _ _ HR) as HL.
  pose proof (layout_bounds _ _ HL) as (G1 & G2 & G3 & G4).
  exists l. split; [exact H0|]. split.
  { intros l' H'. exact (free_list_unique _ _ _ _ H' H0). }
  split; [exact (K_nodup _ _ (R_links _ _ _ HR))|].
  split; [exact (K_dlist _ _ (R_links _ _ _ HR))|].
  pose proof (links_length _ _ _ HL (R_links _ _ _ HR) (R_nodes _ _ _ HR)).
  lia.
Qed.

Lemma free_list_linked_witness :
  reachable demo_pair [4168; 4144] /\
  exists l,
    free_list_is demo_pair (free_listp demo_pair) l /\
    (forall l', free_list_is demo_pair (free_listp demo_pair) l' -> l' = l) /\
    NoDup l /\
    dlist (mem demo_pair) 0 l (heap_listp demo_pair + DSIZE) /\
    Z.of_nat (length l) <= mem_brk demo_pair - mem_heap demo_pair.
Proof.
  split; [exact demo_pair_reachable|].
  exact (free_list_linked demo_pair [4168; 4144] demo_pair_reachable).
Defined.

(** X3.  In every reachable state the free list holds exactly the free
    blocks of the heap: a node is on the list if and only if the walk over
    the heap meets it as a block whose allocated bit is clear. *)
Theorem free_list_complete st live l x :
  reachable st live -> free_list_is st (free_listp st) l ->
  (In x l <-> free_block st x).
Proof.
  intros Hr Hl.
  destruct (free_list_inv _ _ _ Hr Hl) as (bs & HR & Hg & _).
  pose proof (R_layout _ _ _ HR) as HL.
  assert (Hk : forall y s k, In (y, s, k) bs -> k <> KRaw)
    by (intros y s k H; apply (Hg _ _ _ H)).
  unfold free_block. split.
  - intros Hx. destruct (R_nodes _ _ _ HR x Hx) as (c & k & Hin).
    assert (k = KFree) by (apply (Hg _ _ _ Hin); exact Hx). subst k.
    destruct (layout_hdr_size _ _ _ _ _ HL Hin) as (E1 & _ & E3 & _);
      [discriminate|].
    pose proof (layout_in _ _ _ _ _ HL Hin) as (_ & _ & A3 & _).
    destruct (in_split _ _ Hin) as (pre & post & Ebs). subst bs.
    split; [exact (heap_block_complete _ _ _ _ HL Hk)|].
    unfold hdr_size, hdr_alloc, HDRP, WSIZE. rewrite E1, E3.
    unfold MINIMUM in A3. lia.
  - intros (Hb & Hs & Ha).
    destruct (heap_block_cases _ _ _ HL Hk Hb) as [-> | (s & k & Hin)].
    { exfalso. unfold hdr_size, HDRP, WSIZE in Hs.
      rewrite (L_epilogue _ _ HL) in Hs. vm_compute in Hs. discriminate. }
    destruct (layout_hdr_size _ _ _ _ _ HL Hin (Hk _ _ _ Hin))
      as (_ & _ & E3 & _).
    unfold hdr_alloc, HDRP, WSIZE in Ha. rewrite E3 in Ha.
    apply (Hg _ _ _ Hin).
    destruct k; [discriminate | reflexivity
                 | exfalso; apply (Hk _ _ _ Hin); reflexivity].
Qed.

Lemma demo_pair_list : free_list_is demo_pair (free_listp demo_pair) [4192].
Proof. vm_compute. repeat split; discriminate. Qed.

Lemma free_list_complete_witness :
  reachable demo_pair [4168; 4144] /\
  free_list_is demo_pair (free_listp demo_pair) [4192] /\
  (In 4192 [4192] <-> free_block demo_pair 4192).
Proof.
  split; [exact demo_pair_reachable|]. split; [exact demo_pair_list|].
  exact (free_list_complete demo_pair [4168; 4144] [4192] 4192
           demo_pair_reachable demo_pair_list).
Defined.

(** ** First fit *)

Lemma node_size st bs l x :
  R st bs l -> good bs l -> In x l ->
  In (x, hdr_size st x, KFree) bs.
Proof.
  intros HR Hg Hx. destruct (R_nodes _ _ _ HR x Hx) as (c & k & Hin).
  assert (k = KFree) by (apply (Hg _ _ _ Hin); exact Hx). subst k.
  destruct (layout_hdr_size _ _ _ _ _ (R_layout _ _ _ HR) Hin) as (E1 & _);
    [discriminate|].
  unfold hdr_size, HDRP, WSIZE. rewrite E1. exact Hin.
Qed.

Lemma fit_result_first st bs l asize r :
  R st bs l -> good bs l -> fit_result bs l asize r ->
  r = first_fit st asize l.
Proof.
  intros HR Hg Hf. pose proof (R_layout _ _ _ HR) as HL. unfold first_fit.
  assert (Hsmall : forall l1,
             (forall x, In x l1 -> In x l) ->
             (forall x s, In x l1 -> In (x, s, KFree) bs -> s < asize) ->
             forall l2,
               find (fun x => asize <=? hdr_size st x) (l1 ++ l2) =
               find (fun x => asize <=? hdr_size st x) l2).
  { induction l1 as [|y l1 IH]; intros Hin Hs l2; [reflexivity|].
    cbn [app find].
    pose proof (node_size _ _ _ _ HR Hg (Hin y (or_introl eq_refl))) as Hy.
    pose proof (Hs y _ (or_introl eq_refl) Hy).
    replace (asize <=? hdr_size st y) with false
      by (symmetry; apply Z.leb_gt; lia).
    apply IH; intros; [apply Hin | eapply Hs]; try right; eauto. }
  destruct Hf as [(-> & Hno) | (l1 & l2 & c & El & Hin & Hle & Hl1)].
  - rewrite <- (app_nil_r l). rewrite (Hsmall l); auto.
    intros x s _ H. exact (Hno x s H).
  - assert (Hr : In r l)
      by (rewrite El; apply in_or_app; right; left; reflexivity).
    pose proof (node_size _ _ _ _ HR Hg Hr) as Hr'.
    rewrite (block_size_fun _ _ _ _ _ _ _ HL Hin Hr') in Hle.
    rewrite El. rewrite Hsmall.
    + cbn [find].
      replace (asize <=? hdr_size st r) with true
        by (symmetry; apply Z.leb_le; exact Hle).
      reflexivity.
    + intros x Hx. rewrite El. apply in_or_app. left. exact Hx.
    + exact Hl1.
Qed.

(** X4.  In every reachable state [find_fit] returns, leaves the state as
    it is, and its result is the first node of the free list, in list
    order, whose block size is at least [asize]; it is [NULL] when no node
    is large enough. *)
Theorem find_fit_first_fit st live l asize :
  reachable st live -> free_list_is st (free_listp st) l ->
  find_fit asize st = Ok (first_fit st asize l) st.
Proof.
  intros Hr Hl. destruct (free_list_inv _ _ _ Hr Hl) as (bs & HR & Hg & _).
  pose proof (find_fit_spec st bs l asize
                (fun r st' => r = first_fit st asize l /\ st' = st) HR Hg)
    as H.
  apply wp_inv in H.
  - destruct H as (r & st' & E & -> & ->). exact E.
  - intros r Hf. split; [|reflexivity].
    exact (fit_result_first _ _ _ _ _ HR Hg Hf).
Qed.

Lemma find_fit_first_fit_witness :
  reachable demo_pair [4168; 4144] /\
  free_list_is demo_pair (free_listp demo_pair) [4192] /\
  find_fit 4000 demo_pair = Ok (first_fit demo_pair 4000 [4192]) demo_pair.
Proof.
  split; [exact demo_pair_reachable|]. split; [exact demo_pair_list|].
  exact (find_fit_first_fit demo_pair [4168; 4144] [4192] 4000
           demo_pair_reachable demo_pair_list).
Defined.

(** ** When allocation fails *)

Lemma first_fit_node st asize l :
  first_fit st asize l <> NULL ->
  In (first_fit st asize l) l /\ asize <= hdr_size st (first_fit st asize l).
Proof.
  unfold first_fit. intros H.
  destruct (find (fun x => asize <=? hdr_size st x) l) as [x|] eqn:E;
    [|contradiction].
  apply find_some in E. destruct E as (E1 & E2).
  split; [exact E1 | apply Z.leb_le; exact E2].
Qed.

(** X5.  In a reachable state allocate of a non-zero size returns.  When
    the free list has a node large enough for the adjusted size, the
    result is the first such node and the break stays where it is.
    Otherwise the heap is extended by the larger of the adjusted size and
    CHUNKSIZE and the result is not [NULL]; when the provider has not that
    much room left, the result is [NULL] and the state is unchanged. *)
Theorem malloc_outcome st live l size :
  reachable st live -> free_list_is st (free_listp st) l ->
  0 < size < 2 ^ 64 ->
  exists r st',
    mm_malloc size st = Ok r st' /\
    (first_fit st (asize_of size) l <> NULL ->
     r = first_fit st (asize_of size) l /\ mem_brk st' = mem_brk st) /\
    (first_fit st (asize_of size) l = NULL ->
     mem_brk st + MAX (asize_of size) CHUNKSIZE <= mem_max_addr st ->
     r <> NULL /\
     mem_brk st' = mem_brk st + MAX (asize_of size) CHUNKSIZE) /\
    (first_fit st (asize_of size) l = NULL ->
     mem_max_addr st < mem_brk st + MAX (asize_of size) CHUNKSIZE ->
     r = NULL /\ st' = st).
Proof.
  intros Hr Hl Hs.
  destruct (free_list_inv _ _ _ Hr Hl) as (bs & HR & Hg & Hna & _).
  pose proof (R_layout _ _ _ HR) as HL.
  pose proof (layout_bounds _ _ HL) as (G1 & G2 & G3 & G4).
  destruct (asize_facts size ltac:(lia)) as (F1 & F2 & _).
  apply wp_inv.
  unfold mm_malloc. fold (asize_of size).
  replace (size <=? 0) with false by (symmetry; apply Z.leb_gt; lia).
  remember (asize_of size) as asize eqn:Ea.
  apply wp_bind. eapply find_fit_spec; [exact HR | exact Hg |].
  intros r Hf. pose proof (fit_result_first _ _ _ _ _ HR Hg Hf) as Er.
  destruct Hf as [(-> & Hno) | (l1 & l2 & c & El & Hin & Hle & _)].
  - change (negb (NULL =? NULL)) with false. cbv iota.
    assert (E1 : MINIMUM <= MAX asize CHUNKSIZE < 2 ^ 64)
      by (rewrite MAX_eq; change CHUNKSIZE with 4096; unfold MINIMUM in *; lia).
    assert (E2 : MAX asize CHUNKSIZE mod 8 = 0).
    { rewrite MAX_eq. change CHUNKSIZE with 4096.
      destruct (Z.max_spec asize 4096) as [(_ & ->) | (_ & ->)];
        [reflexivity | exact F2]. }
    assert (E3 : asize <= MAX asize CHUNKSIZE) by (rewrite MAX_eq; lia).
    apply wp_bind.
    eapply (extend_heap_spec st bs l _ (MAX asize CHUNKSIZE));
      [exact HR | exact Hg | exact Hna | exact E1 | exact E2
      | apply extend_size_eq; [exact E1 | exact E2 | reflexivity] | |].
    + intros Hroom. change (NULL =? NULL) with true. cbv iota. apply wp_ret.
      split; [intros C; congruence|]. split; [intros _ C; lia|].
      intros _ _. split; reflexivity.
    + intros Hroom st1 bs1 l1 r _ HR1 Hg1 Hna1 _ (s' & Hin & Hs') _ _ Hb1.
      pose proof (layout_in _ _ _ _ _ (R_layout _ _ _ HR1) Hin) as (I1 & _).
      pose proof (layout_bounds _ _ (R_layout _ _ _ HR1)) as (G5 & G6 & _).
      assert (Hrn : r <> NULL) by (unfold NULL; lia).
      replace (r =? NULL) with false by (symmetry; apply Z.eqb_neq; exact Hrn).
      destruct (in_split _ _ Hin) as (pre & post & Ebs). subst bs1.
      apply wp_bind.
      eapply place_spec; [exact HR1 | exact Hg1 | exact Hna1 | lia | exact F2 |].
      intros st2 bs2 l2 _ _ _ _ _ _ Hb2 _. apply wp_ret.
      split; [intros C; congruence|].
      split; [intros _ _; split; [exact Hrn | congruence]|].
      intros _ C. lia.
  - pose proof (layout_in _ _ _ _ _ HL Hin) as (I1 & _).
    assert (Hrn : r <> NULL) by (unfold NULL; lia).
    replace (r =? NULL) with false by (symmetry; apply Z.eqb_neq; exact Hrn).
    cbn [negb].
    destruct (in_split _ _ Hin) as (pre & post & Ebs). subst bs.
    apply wp_bind.
    eapply place_spec; [exact HR | exact Hg | exact Hna | lia | exact F2 |].
    intros st2 bs2 l2' _ _ _ _ _ _ Hb2 _. apply wp_ret.
    split; [intros _; split; [exact Er | exact Hb2]|].
    split; intros C; congruence.
Qed.

Lemma malloc_outcome_witness :
  reachable demo_pair [4168; 4144] /\
  free_list_is demo_pair (free_listp demo_pair) [4192] /\
  0 < 100 < 2 ^ 64 /\
  exists r st',
    mm_malloc 100 demo_pair = Ok r st' /\
    (first_fit demo_pair (asize_of 100) [4192] <> NULL ->
     r = first_fit demo_pair (asize_of 100) [4192] /\
     mem_brk st' = mem_brk demo_pair) /\
    (first_fit demo_pair (asize_of 100) [4192] = NULL ->
     mem_brk demo_pair + MAX (asize_of 100) CHUNKSIZE
       <= mem_max_addr demo_pair ->
     r <> NULL /\
     mem_brk st' = mem_brk demo_pair + MAX (asize_of 100) CHUNKSIZE) /\
    (first_fit demo_pair (asize_of 100) [4192] = NULL ->
     mem_max_addr demo_pair <
       mem_brk demo_pair + MAX (asize_of 100) CHUNKSIZE ->
     r = NULL /\ st' = demo_pair).
Proof.
  assert (A : 0 < 100 < 2 ^ 64) by lia.
  split; [exact demo_pair_reachable|]. split; [exact demo_pair_list|].
  split; [exact A|].
  exact (malloc_outcome demo_pair [4168; 4144] [4192] 100
           demo_pair_reachable demo_pair_list A).
Defined.

(** ** The walk of the checker *)







(** ** The checker reads only *)

Lemma load_at_state n a st v st' : load_at n a st = Ok v st' -> st' = st.
Proof.
  unfold load_at. destruct (valid st a (Z.of_nat n)); [|discriminate].
  intros E. injection E as _ <-. reflexivity.
Qed.

Lemma bind_inv A B (m : M A) (f : A -> M B) st b st' :
  bind m f st = Ok b st' ->
  exists a st1, m st = Ok a st1 /\ f a st1 = Ok b st'.
Proof.
  unfold bind. destruct (m st) as [a st1| |]; [|discriminate ..].
  intros E. eauto.
Qed.

Lemma GET_SIZE_state p st v st' : GET_SIZE p st = Ok v st' -> st' = st.
Proof.
  intros E. apply bind_inv in E. destruct E as (w & st1 & E1 & E2).
  apply load_at_state in E1. subst st1. injection E2 as _ <-. reflexivity.
Qed.

Lemma printblock_state bp st o st' : printblock bp st = Ok o st' -> st' = st.
Proof.
  intros E. apply bind_inv in E. destruct E as (w & st1 & E1 & E2).
  apply GET_SIZE_state in E1. subst st1. injection E2 as _ <-. reflexivity.
Qed.

Lemma checkblock_state bp st o st' : checkblock bp st = Ok o st' -> st' = st.
Proof.
  unfold checkblock. cbv zeta. intros E.
  apply bind_inv in E. destruct E as (h & st1 & E1 & E).
  apply load_at_state in E1. subst st1.
  apply bind_inv in E. destruct E as (f & st1 & E1 & E).
  apply bind_inv in E1. destruct E1 as (s & st2 & E3 & E2).
  apply GET_SIZE_state in E3. subst st2. injection E2 as _ <-.
  apply bind_inv in E. destruct E as (w & st1 & E1 & E).
  apply load_at_state in E1. subst st1. injection E as _ <-. reflexivity.
Qed.

Lemma checkheap_loop_state fuel verbose :
  forall bp st r st',
    checkheap_loop fuel verbose bp st = Ok r st' -> st' = st.
Proof.
  induction fuel as [|fuel IH]; intros bp st r st' E; cbn [checkheap_loop] in E;
    [discriminate|].
  apply bind_inv in E. destruct E as (s & st1 & E1 & E).
  apply GET_SIZE_state in E1. subst st1.
  destruct (s >? 0); [|injection E as _ <-; reflexivity].
  apply bind_inv in E. destruct E as (o1 & st1 & E1 & E).
  assert (st1 = st).
  { destruct verbose; [exact (printblock_state _ _ _ _ E1)|].
    injection E1 as _ <-. reflexivity. }
  subst st1. clear E1.
  apply bind_inv in E. destruct E as (o2 & st1 & E1 & E).
  apply checkblock_state in E1. subst st1.
  apply bind_inv in E. destruct E as (nx & st1 & E1 & E).
  apply bind_inv in E1. destruct E1 as (s' & st2 & E3 & E2).
  apply GET_SIZE_state in E3. subst st2. injection E2 as _ <-.
  apply bind_inv in E. destruct E as (r' & st1 & E1 & E).
  apply IH in E1. subst st1. injection E as _ <-. reflexivity.
Qed.

(** X7.  The checker only reads: in whatever state it is called, whenever
    [mm_checkheap] returns, the memory, the break and the allocator's
    globals are as they were. *)
Theorem checkheap_reads_only verbose st msgs st' :
  mm_checkheap verbose st = Ok msgs st' -> st' = st.
Proof.
  unfold mm_checkheap. intros E.
  apply bind_inv in E. destruct E as (hl & st1 & E1 & E).
  injection E1 as _ <-.
  apply bind_inv in E. destruct E as (w & st1 & E1 & E).
  apply load_at_state in E1. subst st1.
  apply bind_inv in E. destruct E as (o2 & st1 & E1 & E).
  apply checkblock_state in E1. subst st1.
  apply bind_inv in E. destruct E as (r & st1 & E1 & E).
  apply checkheap_loop_state in E1. subst st1.
  apply bind_inv in E. destruct E as (o3 & st1 & E1 & E).
  assert (st1 = st).
  { destruct verbose; [exact (printblock_state _ _ _ _ E1)|].
    injection E1 as _ <-. reflexivity. }
  subst st1. clear E1.
  apply bind_inv in E. destruct E as (w' & st1 & E1 & E).
  apply load_at_state in E1. subst st1. injection E as _ <-. reflexivity.
Qed.

Lemma checkheap_reads_only_witness :
  mm_checkheap false (after mm_init (provider 8 (20 * 2 ^ 20))) =
    Ok [BadPrologueHeader; BadEpilogueHeader]
       (after mm_init (provider 8 (20 * 2 ^ 20))) /\
  after mm_init (provider 8 (20 * 2 ^ 20)) =
    after mm_init (provider 8 (20 * 2 ^ 20)).
Proof.
  assert (A : mm_checkheap false (after mm_init (provider 8 (20 * 2 ^ 20))) =
              Ok [BadPrologueHeader; BadEpilogueHeader]
                 (after mm_init (provider 8 (20 * 2 ^ 20))))
    by (vm_compute; reflexivity).
  split; [exact A|].
  exact (checkheap_reads_only false _ _ _ A).
Defined.

(** ** Zero-allocate *)

(** X8.  When zero-allocate, called in a reachable state, returns a
    pointer other than [NULL], the requested count [nmemb * size] (taken
    modulo 2^64, as the code computes it) is not 0, that many bytes from
    the pointer on are 0, and, when the count is at most 2^64 - 16, the
    payload of the block is at least that long. *)
Theorem calloc_zeroes st live nmemb size p st' :
  reachable st live ->
  mm_calloc nmemb size st = Ok p st' -> p <> NULL ->
  0 < u64 (nmemb * size) /\
  (forall i, 0 <= i < u64 (nmemb * size) -> mem st' (p + i) = 0) /\
  (u64 (nmemb * size) <= 2 ^ 64 - 16 ->
   u64 (nmemb * size) <= hdr_size st' p - DSIZE).
Proof.
  intros Hr E Hp.
  destruct (reachable_inv _ _ Hr) as (bs & l & HR & _).
  pose proof (layout_bounds _ _ (R_layout _ _ _ HR)) as (G1 & G2 & _).
  pose proof (u64_range (nmemb * size)) as Hn.
  remember (u64 (nmemb * size)) as n eqn:En.
  unfold mm_calloc in E. rewrite <- En in E.
  erewrite bind_run in E by reflexivity.
  replace (heap_listp st =? 0) with false in E
    by (symmetry; apply Z.eqb_neq; lia).
  erewrite bind_run in E by reflexivity.
  apply bind_inv in E. destruct E as (p1 & st1 & Em & E).
  apply bind_inv in E. destruct E as ([] & st2 & Es & E).
  injection E as -> ->.
  destruct (Z.eqb_spec n 0) as [Hz | Hnz].
  { exfalso. apply Hp. rewrite Hz in Em. cbn in Em.
    injection Em as <- _. reflexivity. }
  unfold memset in Es.
  replace (n =? 0) with false in Es by (symmetry; apply Z.eqb_neq; exact Hnz).
  destruct (valid st1 p n); [|discriminate]. injection Es as <-.
  split; [lia|]. split.
  - intros i Hi. cbn [mem with_mem]. unfold mem_fill.
    replace (p <=? p + i) with true by (symmetry; apply Z.leb_le; lia).
    replace (p + i <? p + n) with true by (symmetry; apply Z.ltb_lt; lia).
    reflexivity.
  - intros Hle.
    pose proof (malloc_capacity st live n p st1 Hr ltac:(lia) Em Hp) as Hc.
    unfold hdr_size, HDRP, WSIZE in *. cbn [mem with_mem].
    rewrite load_fill_disj by slia. exact Hc.
Qed.

Lemma calloc_zeroes_witness :
  reachable demo_one [4144] /\
  mm_calloc 3 5 demo_one = Ok 4168 (after (mm_calloc 3 5) demo_one) /\
  4168 <> NULL /\
  0 < u64 (3 * 5) /\
  (forall i, 0 <= i < u64 (3 * 5) ->
             mem (after (mm_calloc 3 5) demo_one) (4168 + i) = 0) /\
  (u64 (3 * 5) <= 2 ^ 64 - 16 ->
   u64 (3 * 5) <= hdr_size (after (mm_calloc 3 5) demo_one) 4168 - DSIZE).
Proof.
  assert (A : mm_calloc 3 5 demo_one = Ok 4168 (after (mm_calloc 3 5) demo_one))
    by (vm_compute; reflexivity).
  assert (B : 4168 <> NULL) by discriminate.
  split; [exact demo_one_reachable|]. split; [exact A|]. split; [exact B|].
  exact (calloc_zeroes demo_one [4144] 3 5 4168 _ demo_one_reachable A B).
Defined.

(** ** What no call changes *)

(** X9.  A valid call in a reachable state leaves the bounds of the
    provider's region and [heap_listp] as they are, never lowers the break
    nor raises it above the provider's limit, and changes no byte below
    the prologue's payload; free leaves the break where it is. *)
Theorem heap_only_grows st live c r st' :
  reachable st live -> valid_call live c -> exec c st = Ok r st' ->
  mem_heap st' = mem_heap st /\
  mem_max_addr st' = mem_max_addr st /\
  heap_listp st' = heap_listp st /\
  mem_brk st <= mem_brk st' <= mem_max_addr st /\
  (forall a, a < heap_listp st + DSIZE -> mem st' a = mem st a) /\
  match c with Free _ => mem_brk st' = mem_brk st | _ => True end.
Proof.
  intros Hr Hv E. pose proof (reachable_inv _ _ Hr) as HI.
  pose proof (exec_outcome _ _ _ HI Hv) as H. rewrite E in H.
  destruct H as ((bs' & l' & HR' & _) & HF & _).
  pose proof (L_brk _ _ (R_layout _ _ _ HR')) as Hb.
  destruct HF as [F1 F2 F3 F4 F5].
  split; [exact F1|]. split; [exact F2|]. split; [exact F3|].
  split; [lia|]. split.
  { intros a Ha. apply F5. left. unfold DSIZE in Ha. exact Ha. }
  destruct c as [size | ptr | ptr size | nmemb size]; try exact I.
  cbn [exec valid_call] in *.
  destruct HI as (bs & l & HR & Hg & Hna & Hlive).
  apply bind_inv in E. destruct E as ([] & st1 & E1 & E2).
  injection E2 as _ <-.
  destruct Hv as [-> | Hp].
  - cbn in E1. injection E1 as <-. reflexivity.
  - apply Hlive in Hp. destruct Hp as (c & Hin).
    refine (wp_elim _ _ _ _ _ _
              (mm_free_spec st bs l ptr c
                 (fun _ s => mem_brk s = mem_brk st) HR Hg Hna Hin _) E1).
    intros s _ _ _ _ _ _ _ H _. exact H.
Qed.

Lemma heap_only_grows_witness :
  reachable demo_init [] /\ valid_call [] (Malloc 1) /\
  exec (Malloc 1) demo_init = Ok 4144 demo_one /\
  mem_heap demo_one = mem_heap demo_init /\
  mem_max_addr demo_one = mem_max_addr demo_init /\
  heap_listp demo_one = heap_listp demo_init /\
  mem_brk demo_init <= mem_brk demo_one <= mem_max_addr demo_init /\
  (forall a, a < heap_listp demo_init + DSIZE ->
             mem demo_one a = mem demo_init a) /\
  True.
Proof.
  split; [exact demo_init_reachable|]. split; [exact demo_one_valid|].
  split; [exact demo_one_run|].
  exact (heap_only_grows demo_init [] (Malloc 1) 4144 demo_one
           demo_init_reachable demo_one_valid demo_one_run).
Defined.

(** ** Initialisation and heap extension *)



Lemma coalesced_last pre b sz l bs' l' r :
  coalesced pre b sz [] l = (bs', l', r) ->
  (exists t, l' = r :: t) /\ exists xs s, bs' = xs ++ [(r, s, KFree)].
Proof.
  unfold coalesced, next_block. cbv zeta. cbn [hd tl].
  change (is_free (bkind (b + sz, 0, KAlloc))) with false.
  destruct (is_free (bkind (prev_block pre b))); intros E;
    injection E as <- <- <-; split; eauto.
Qed.

(** X11.  Heap extension in a reachable state returns.  It asks the
    provider for the word count rounded up to an even number of words, at
    least MINIMUM bytes.  When the provider has not that much room, the
    result is [NULL] and the state is unchanged.  Otherwise the break
    moves by exactly that amount and the result is a free block, at least
    that long, which is the last block of the heap and the head of the
    free list. *)
Theorem extend_heap_outcome st live words :
  reachable st live ->
  MINIMUM <= extend_size words /\ extend_size words mod 8 = 0 /\
  exists r st',
    extend_heap words st = Ok r st' /\
    (mem_max_addr st < mem_brk st + extend_size words ->
     r = NULL /\ st' = st) /\
    (mem_brk st + extend_size words <= mem_max_addr st ->
     mem_brk st' = mem_brk st + extend_size words /\
     free_block st' r /\ free_listp st' = r /\
     extend_size words <= hdr_size st' r /\
     r + hdr_size st' r = mem_brk st').
Proof.
  intros Hr. destruct (reachable_inv _ _ Hr) as (bs & l & HR & Hg & Hna & _).
  destruct (extend_size_range words) as (S1 & S2).
  split; [lia|]. split; [exact S2|].
  apply wp_inv.
  eapply (extend_heap_spec st bs l words (extend_size words));
    [exact HR | exact Hg | exact Hna | exact S1 | exact S2 | reflexivity | |].
  - intros Hno. split; [intros _; split; reflexivity | intros C; lia].
  - intros Hyes st' bs' l' r Hco HR' Hg' _ _ (s' & Hin & Hs') _ _ Hb.
    split; [intros C; lia|]. intros _.
    pose proof (R_layout _ _ _ HR') as HL'.
    destruct (coalesced_last _ _ _ _ _ _ _ Hco) as ((t & ->) & xs & s & ->).
    assert (Hin2 : In (r, s, KFree) (xs ++ [(r, s, KFree)]))
      by (apply in_or_app; right; left; reflexivity).
    pose proof (block_size_fun _ _ _ _ _ _ _ HL' Hin Hin2). subst s'.
    destruct (layout_hdr_size _ _ _ _ _ HL' Hin2) as (E1 & _ & E3 & _);
      [discriminate|].
    pose proof (layout_in _ _ _ _ _ HL' Hin2) as (_ & _ & A3 & _).
    assert (Hk : forall y sy k, In (y, sy, k) (xs ++ [(r, s, KFree)]) ->
                                k <> KRaw)
      by (intros y sy k H; apply (Hg' _ _ _ H)).
    unfold free_block, hdr_size, hdr_alloc, HDRP, WSIZE. rewrite E1, E3.
    split; [exact Hb|]. split.
    { split; [exact (heap_block_complete _ _ _ _ HL' Hk)|].
      unfold MINIMUM in A3. split; [lia | reflexivity]. }
    split; [exact (K_head _ _ (R_links _ _ _ HR'))|].
    split; [exact Hs'|].
    destruct (layout_next _ _ _ _ _ _ HL') as [(_ & Hn) | (C & _)];
      [exact Hn | discriminate].
Qed.

Lemma extend_heap_outcome_witness :
  reachable demo_pair [4168; 4144] /\
  MINIMUM <= extend_size 3 /\ extend_size 3 mod 8 = 0 /\
  exists r st',
    extend_heap 3 demo_pair = Ok r st' /\
    (mem_max_addr demo_pair < mem_brk demo_pair + extend_size 3 ->
     r = NULL /\ st' = demo_pair) /\
    (mem_brk demo_pair + extend_size 3 <= mem_max_addr demo_pair ->
     mem_brk st' = mem_brk demo_pair + extend_size 3 /\
     free_block st' r /\ free_listp st' = r /\
     extend_size 3 <= hdr_size st' r /\
     r + hdr_size st' r = mem_brk st').
Proof.
  split; [exact demo_pair_reachable|].
  exact (extend_heap_outcome demo_pair [4168; 4144] 3 demo_pair_reachable).
Defined.

(* ================================================================== *)
(** * Part VI: what a call does to the blocks in use *)
(* ================================================================== *)

(** ** The other live blocks *)

(** A valid call changes no byte of an allocated block, the block of the
    pointer it is given apart. *)
Lemma call_keeps st bs l live c r st' :
  R st bs l -> good bs l -> no_adj bs ->
  (forall p, In p live <-> allocated bs p) ->
  valid_call live c -> exec c st = Ok r st' ->
  kept bs (match c with
           | Free ptr => [ptr]
           | Realloc ptr _ => [ptr]
           | _ => []
           end) st st'.
Proof.
  intros HR Hg Hna Hlive Hv E.
  destruct c as [size | ptr | ptr size | nmemb size];
    cbn [exec valid_call] in *.
  - refine (wp_elim _ _ _ _ _ _
              (mm_malloc_spec st bs l size (fun _ s => kept bs [] st s)
                              HR Hg Hna Hv _) E).
    intros s _ _ _ _ _ _ _ _ _ W. exact W.
  - apply bind_inv in E. destruct E as ([] & st1 & E1 & E2).
    injection E2 as _ <-.
    destruct Hv as [-> | Hp].
    + cbn in E1. injection E1 as <-. apply kept_refl.
    + apply Hlive in Hp. destruct Hp as (c & Hin).
      refine (wp_elim _ _ _ _ _ _
                (mm_free_spec st bs l ptr c (fun _ s => kept bs [ptr] st s)
                              HR Hg Hna Hin _) E1).
      intros s _ _ _ _ _ _ _ _ W. exact W.
  - destruct Hv as (Hs & Hp).
    assert (Hp' : ptr = NULL \/ allocated bs ptr)
      by (destruct Hp as [-> | Hp];
          [left; reflexivity | right; apply Hlive; exact Hp]).
    refine (wp_elim _ _ _ _ _ _
              (mm_realloc_spec st bs l ptr size
                               (fun _ s => kept bs [ptr] st s)
                               HR Hg Hna Hs Hp' _) E).
    intros s _ _ _ _ _ _ _ _ _ _ W _ _. exact W.
  - destruct (mm_calloc_inv _ _ _ _ _ _ _ HR Hg Hna E)
      as (bs' & l' & _ & _ & _ & _ & _ & _ & _ & W).
    exact W.
Qed.

Lemma kept_hdr_size bs l st st' q c :
  kept bs l st st' -> In (q, c, KAlloc) bs -> ~ In q l -> MINIMUM <= c ->
  hdr_size st' q = hdr_size st q.
Proof.
  intros W Hin Hl Hc. unfold hdr_size, HDRP, WSIZE. f_equal.
  apply load_ext. intros a Ha. apply (W q c a Hin Hl).
  unfold WSIZE, MINIMUM in *. lia.
Qed.

(** X12.  A valid call in a reachable state leaves every other live block
    as it is: a live pointer [q] that is not the pointer given to free or
    resize is still live after the call, and every byte of its block, from
    the header to the footer, is what it was; so is the size in its
    header. *)
Theorem live_blocks_kept st live c r st' q :
  reachable st live -> valid_call live c -> exec c st = Ok r st' ->
  In q live ->
  match c with Free ptr => q <> ptr | Realloc ptr _ => q <> ptr | _ => True end ->
  In q (live_after c r live) /\
  hdr_size st' q = hdr_size st q /\
  forall a, q - WSIZE <= a < q + hdr_size st q - WSIZE ->
            mem st' a = mem st a.
Proof.
  intros Hr Hv E Hq Hne.
  destruct (reachable_inv _ _ Hr) as (bs & l & HR & Hg & Hna & Hlive).
  pose proof (R_layout _ _ _ HR) as HL.
  pose proof (call_keeps _ _ _ _ _ _ _ HR Hg Hna Hlive Hv E) as W.
  destruct (proj1 (Hlive q) Hq) as (cq & Hin).
  pose proof (layout_in _ _ _ _ _ HL Hin) as (_ & _ & A3 & _).
  destruct (layout_hdr_size _ _ _ _ _ HL Hin) as (Eq & _); [discriminate|].
  assert (Hsz : hdr_size st q = cq)
    by (unfold hdr_size, HDRP, WSIZE; exact Eq).
  assert (Hl : ~ In q (match c with
                       | Free ptr => [ptr]
                       | Realloc ptr _ => [ptr]
                       | _ => []
                       end)).
  { destruct c; cbn [In]; intros C; try contradiction;
      destruct C as [C | []]; apply Hne; symmetry; exact C. }
  split; [|split].
  - destruct c as [size | ptr | ptr size | nmemb size]; cbn [live_after].
    + unfold add_live. destruct (r =? NULL); [exact Hq | right; exact Hq].
    + apply in_remove_iff. split; [exact Hq | exact Hne].
    + assert (Hrm : In q (remove Z.eq_dec ptr live))
        by (apply in_remove_iff; split; [exact Hq | exact Hne]).
      destruct (size =? 0); [exact Hrm|].
      destruct (r =? NULL); [exact Hq | right; exact Hrm].
    + unfold add_live. destruct (r =? NULL); [exact Hq | right; exact Hq].
  - exact (kept_hdr_size _ _ _ _ _ _ W Hin Hl A3).
  - intros a Ha. rewrite Hsz in Ha. exact (W q cq a Hin Hl Ha).
Qed.

Lemma demo_free_run :
  exec (Free 4144) demo_pair = Ok 0 (after (exec (Free 4144)) demo_pair).
Proof. vm_compute. reflexivity. Qed.

Lemma demo_free_valid : valid_call [4168; 4144] (Free 4144).
Proof. right. right. left. reflexivity. Qed.

Lemma live_blocks_kept_witness :
  reachable demo_pair [4168; 4144] /\ valid_call [4168; 4144] (Free 4144) /\
  exec (Free 4144) demo_pair = Ok 0 (after (exec (Free 4144)) demo_pair) /\
  In 4168 [4168; 4144] /\ 4168 <> 4144 /\
  In 4168 (live_after (Free 4144) 0 [4168; 4144]) /\
  hdr_size (after (exec (Free 4144)) demo_pair) 4168 =
    hdr_size demo_pair 4168 /\
  forall a, 4168 - WSIZE <= a < 4168 + hdr_size demo_pair 4168 - WSIZE ->
            mem (after (exec (Free 4144)) demo_pair) a = mem demo_pair a.
Proof.
  assert (A : In 4168 [4168; 4144]) by (left; reflexivity).
  assert (B : 4168 <> 4144) by discriminate.
  split; [exact demo_pair_reachable|]. split; [exact demo_free_valid|].
  split; [exact demo_free_run|]. split; [exact A|]. split; [exact B|].
  exact (live_blocks_kept demo_pair [4168; 4144] (Free 4144) 0 _ 4168
           demo_pair_reachable demo_free_valid demo_free_run A B).
Defined.

(** ** The block allocate hands out *)

(** X13.  A pointer other than [NULL] that allocate returns in a reachable
    state was not live before the call; the header of its block has the
    allocated bit set, and the size in it is at least the adjusted size of
    the request and less than MINIMUM bytes above it. *)
Theorem malloc_block st live size p st' :
  reachable st live -> 0 <= size < 2 ^ 64 ->
  mm_malloc size st = Ok p st' -> p <> NULL ->
  ~ In p live /\
  hdr_alloc st' p = 1 /\
  asize_of size <= hdr_size st' p < asize_of size + MINIMUM.
Proof.
  intros Hr Hs E Hp.
  destruct (reachable_inv _ _ Hr) as (bs & l & HR & Hg & Hna & Hlive).
  refine (wp_elim _ _ _ _ _ _
            (mm_malloc_spec st bs l size
               (fun p st' =>
                  p <> NULL ->
                  ~ In p live /\ hdr_alloc st' p = 1 /\
                  asize_of size <= hdr_size st' p < asize_of size + MINIMUM)
               HR Hg Hna Hs _) E Hp).
  intros st1 bs1 l1 r HR1 _ _ _ [(-> & _) | (_ & _ & c & Hin & Hc & _)]
         Hfresh _ Hr1;
    [congruence|].
  destruct (layout_hdr_size _ _ _ _ _ (R_layout _ _ _ HR1) Hin)
    as (E1 & _ & E2 & _); [discriminate|].
  split; [intros C; apply Hfresh; apply Hlive; exact C|].
  unfold hdr_alloc, hdr_size, HDRP, WSIZE. rewrite E1, E2.
  split; [reflexivity | exact Hc].
Qed.

Lemma demo_one_malloc : mm_malloc 1 demo_init = Ok 4144 demo_one.
Proof. vm_compute. reflexivity. Qed.

Lemma malloc_block_witness :
  reachable demo_init [] /\ 0 <= 1 < 2 ^ 64 /\
  mm_malloc 1 demo_init = Ok 4144 demo_one /\ 4144 <> NULL /\
  ~ In 4144 [] /\
  hdr_alloc demo_one 4144 = 1 /\
  asize_of 1 <= hdr_size demo_one 4144 < asize_of 1 + MINIMUM.
Proof.
  assert (A : 0 <= 1 < 2 ^ 64) by lia.
  assert (B : 4144 <> NULL) by discriminate.
  split; [exact demo_init_reachable|]. split; [exact A|].
  split; [exact demo_one_malloc|]. split; [exact B|].
  exact (malloc_block demo_init [] 1 4144 demo_one
           demo_init_reachable A demo_one_malloc B).
Defined.

(** ** Resize *)

(** Resize to a size the block already holds returns the pointer it was
    given, and writes nothing when the block has at most MINIMUM bytes
    above the adjusted size. *)
Lemma realloc_in_place st bs ptr c size r st' :
  layout st bs -> In (ptr, c, KAlloc) bs -> 0 < size ->
  asize_of size <= c ->
  mm_realloc ptr size st = Ok r st' ->
  r = ptr /\ (c <= asize_of size + MINIMUM -> st' = st).
Proof.
  intros HL Hin Hs Hc E.
  pose proof (layout_in _ _ _ _ _ HL Hin) as (A1 & A2 & A3 & A4 & A5 & A6).
  pose proof (layout_bounds _ _ HL) as (G1 & G2 & G3 & G4).
  destruct (layout_hdr_size _ _ _ _ _ HL Hin) as (E1 & _); [discriminate|].
  unfold MINIMUM in A3.
  unfold mm_realloc in E. fold (asize_of size) in E.
  replace (size <=? 0) with false in E by (symmetry; apply Z.leb_gt; lia).
  replace (ptr =? NULL) with false in E
    by (symmetry; apply Z.eqb_neq; unfold NULL; lia).
  unfold HDRP, WSIZE in E.
  erewrite bind_run in E by (apply run_GET_SIZE; lia).
  rewrite E1 in E.
  destruct (Z.eqb_spec c (asize_of size)) as [Ec | Ec];
    [injection E as <- <-; split; [reflexivity | intros _; reflexivity]|].
  replace (asize_of size <? c) with true in E
    by (symmetry; apply Z.ltb_lt; lia).
  assert (Ha : MINIMUM <= asize_of size)
    by (unfold asize_of; rewrite MAX_eq; lia).
  unfold MINIMUM in Ha.
  rewrite (u64_small (c - asize_of size)) in E by lia.
  destruct (Z.leb_spec (c - asize_of size) MINIMUM) as [Hle | Hgt];
    [injection E as <- <-; split; [reflexivity | intros _; reflexivity]|].
  repeat (apply bind_inv in E; destruct E as (? & ? & _ & E)).
  injection E as <- _. split; [reflexivity | intros C; exfalso; lia].
Qed.

(** X14.  Resize of a live pointer to a size other than 0, in a reachable
    state, returns.  When the block already holds the adjusted size the
    result is the pointer itself.  A result of [NULL] leaves the state as
    it was.  Otherwise the block of the result holds the adjusted size and
    at most MINIMUM bytes more, and, for a size of at most 2^64 - 16, the
    bytes of the old payload, up to the smaller of the requested size and
    the old payload's length, are found at the result. *)
Theorem realloc_outcome st live p size :
  reachable st live -> In p live -> 0 < size < 2 ^ 64 ->
  exists r st',
    mm_realloc p size st = Ok r st' /\
    (asize_of size <= hdr_size st p -> r = p) /\
    (r = NULL -> st' = st) /\
    (r <> NULL ->
     asize_of size <= hdr_size st' r <= asize_of size + MINIMUM /\
     (size <= 2 ^ 64 - 16 ->
      forall i, 0 <= i < Z.min size (hdr_size st p - DSIZE) ->
                mem st' (r + i) = mem st (p + i))).
Proof.
  intros Hr Hp Hs.
  destruct (reachable_inv _ _ Hr) as (bs & l & HR & Hg & Hna & Hlive).
  pose proof (R_layout _ _ _ HR) as HL.
  destruct (proj1 (Hlive p) Hp) as (c & Hin).
  destruct (layout_hdr_size _ _ _ _ _ HL Hin) as (E1 & _); [discriminate|].
  assert (Hsz : hdr_size st p = c)
    by (unfold hdr_size, HDRP, WSIZE; exact E1).
  assert (Hs' : 0 <= size < 2 ^ 64) by lia.
  assert (Hp' : p = NULL \/ allocated bs p) by (right; exists c; exact Hin).
  pose proof (mm_realloc_spec st bs l p size
    (fun r st' =>
       (r = NULL -> st' = st) /\
       (r <> NULL ->
        asize_of size <= hdr_size st' r <= asize_of size + MINIMUM /\
        (size <= 2 ^ 64 - 16 ->
         forall i, 0 <= i < Z.min size (c - DSIZE) ->
                   mem st' (r + i) = mem st (p + i))))
    HR Hg Hna Hs' Hp') as H.
  apply wp_inv in H.
  - destruct H as (r & st' & E & H1 & H2). exists r, st'.
    split; [exact E|]. rewrite Hsz. split; [|split; [exact H1 | exact H2]].
    intros Hc.
    exact (proj1 (realloc_in_place _ _ _ _ _ _ _ HL Hin (proj1 Hs) Hc E)).
  - intros st' bs' l' r HR' _ _ _ _ _ _ _ Hd Hn.
    assert (Hnz : size <> 0) by lia.
    split; [intros Er; exact (Hn Hnz Er)|].
    intros Er. destruct (Hd c Hin Hnz Er) as (_ & (c' & Hin' & Hc') & Hcp).
    destruct (layout_hdr_size _ _ _ _ _ (R_layout _ _ _ HR') Hin')
      as (E2 & _); [discriminate|].
    unfold hdr_size, HDRP, WSIZE. rewrite E2. split; [exact Hc' | exact Hcp].
Qed.

Lemma realloc_outcome_witness :
  reachable demo_pair [4168; 4144] /\ In 4144 [4168; 4144] /\
  0 < 100 < 2 ^ 64 /\
  exists r st',
    mm_realloc 4144 100 demo_pair = Ok r st' /\
    (asize_of 100 <= hdr_size demo_pair 4144 -> r = 4144) /\
    (r = NULL -> st' = demo_pair) /\
    (r <> NULL ->
     asize_of 100 <= hdr_size st' r <= asize_of 100 + MINIMUM /\
     (100 <= 2 ^ 64 - 16 ->
      forall i, 0 <= i < Z.min 100 (hdr_size demo_pair 4144 - DSIZE) ->
                mem st' (r + i) = mem demo_pair (4144 + i))).
Proof.
  assert (A : In 4144 [4168; 4144]) by (right; left; reflexivity).
  assert (B : 0 < 100 < 2 ^ 64) by lia.
  split; [exact demo_pair_reachable|]. split; [exact A|]. split; [exact B|].
  exact (realloc_outcome demo_pair [4168; 4144] 4144 100
           demo_pair_reachable A B).
Defined.

(** X15.  Resize of a live pointer [p], in a reachable state, to a size
    other than 0 whose adjusted size the block of [p] holds returns [p].
    When the block has at most MINIMUM bytes above the adjusted size, the
    state is left as it was.  Otherwise the block is cut down to the
    adjusted size and stays allocated, and what is cut off is freed: it
    is a free block right after the block of [p], at least as long as the
    bytes cut off, and the head of the free list. *)
Theorem realloc_shrink st live p size :
  reachable st live -> In p live -> 0 < size < 2 ^ 64 ->
  asize_of size <= hdr_size st p ->
  exists st',
    mm_realloc p size st = Ok p st' /\
    (hdr_size st p <= asize_of size + MINIMUM -> st' = st) /\
    (asize_of size + MINIMUM < hdr_size st p ->
     hdr_size st' p = asize_of size /\ hdr_alloc st' p = 1 /\
     free_listp st' = p + asize_of size /\
     hdr_alloc st' (p + asize_of size) = 0 /\
     hdr_size st p - asize_of size <= hdr_size st' (p + asize_of size)).
Proof.
  intros Hr Hp Hs Hc.
  destruct (reachable_inv _ _ Hr) as (bs & l & HR & Hg & Hna & Hlive).
  pose proof (R_layout _ _ _ HR) as HL.
  destruct (proj1 (Hlive p) Hp) as (c & Hin).
  destruct (layout_hdr_size _ _ _ _ _ HL Hin) as (E1 & _); [discriminate|].
  assert (Hsz : hdr_size st p = c)
    by (unfold hdr_size, HDRP, WSIZE; exact E1).
  rewrite Hsz in *.
  assert (Hs' : 0 <= size < 2 ^ 64) by lia.
  assert (Hp' : p = NULL \/ allocated bs p) by (right; exists c; exact Hin).
  assert (Hpn : p <> NULL).
  { pose proof (allocated_pos _ _ _ HL (ex_intro _ c Hin)).
    unfold NULL. lia. }
  pose proof (mm_realloc_spec st bs l p size
    (fun r st' =>
       r = p -> asize_of size + MINIMUM < c ->
       hdr_size st' p = asize_of size /\ hdr_alloc st' p = 1 /\
       free_listp st' = p + asize_of size /\
       hdr_alloc st' (p + asize_of size) = 0 /\
       c - asize_of size <= hdr_size st' (p + asize_of size))
    HR Hg Hna Hs' Hp') as H.
  apply wp_inv in H.
  - destruct H as (r & st' & E & H).
    destruct (realloc_in_place _ _ _ _ _ _ _ HL Hin (proj1 Hs) Hc E)
      as (-> & Hst).
    exists st'. split; [exact E|]. split; [exact Hst | exact (H eq_refl)].
  - intros st' bs' l' r HR' _ _ _ _ _ _ _ Hd _ Er Hbig. subst r.
    assert (Hnz : size <> 0) by lia.
    destruct (Hd c Hin Hnz Hpn) as (Hd1 & _).
    destruct (Hd1 Hc) as (_ & Hd2).
    destruct (Hd2 Hbig) as (Hp3 & s & t & Htl & Hs3 & El).
    pose proof (R_layout _ _ _ HR') as HL'.
    destruct (layout_hdr_size _ _ _ _ _ HL' Hp3) as (A1 & _ & A2 & _);
      [discriminate|].
    destruct (layout_hdr_size _ _ _ _ _ HL' Htl) as (A3 & _ & A4 & _);
      [discriminate|].
    pose proof (K_head _ _ (R_links _ _ _ HR')) as Eh.
    rewrite El in Eh. cbn [hd] in Eh.
    unfold hdr_alloc, hdr_size, HDRP, WSIZE. rewrite A1, A2, A3, A4.
    split; [reflexivity|]. split; [reflexivity|]. split; [exact Eh|].
    split; [reflexivity | exact Hs3].
Qed.

Lemma demo_big_run :
  exec (Malloc 100) demo_pair = Ok 4192 (after (mm_malloc 100) demo_pair).
Proof. vm_compute. reflexivity. Qed.

Lemma demo_big_valid : valid_call [4168; 4144] (Malloc 100).
Proof. cbn. unfold is_size. lia. Qed.

Lemma demo_big_reachable :
  reachable (after (mm_malloc 100) demo_pair) [4192; 4168; 4144].
Proof.
  exact (reach_call demo_pair [4168; 4144] (Malloc 100) 4192
           (after (mm_malloc 100) demo_pair)
           demo_pair_reachable demo_big_valid demo_big_run).
Qed.

Lemma realloc_shrink_witness :
  reachable (after (mm_malloc 100) demo_pair) [4192; 4168; 4144] /\
  In 4192 [4192; 4168; 4144] /\ 0 < 8 < 2 ^ 64 /\
  asize_of 8 <= hdr_size (after (mm_malloc 100) demo_pair) 4192 /\
  exists st',
    mm_realloc 4192 8 (after (mm_malloc 100) demo_pair) = Ok 4192 st' /\
    (hdr_size (after (mm_malloc 100) demo_pair) 4192
       <= asize_of 8 + MINIMUM ->
     st' = after (mm_malloc 100) demo_pair) /\
    (asize_of 8 + MINIMUM
       < hdr_size (after (mm_malloc 100) demo_pair) 4192 ->
     hdr_size st' 4192 = asize_of 8 /\ hdr_alloc st' 4192 = 1 /\
     free_listp st' = 4192 + asize_of 8 /\
     hdr_alloc st' (4192 + asize_of 8) = 0 /\
     hdr_size (after (mm_malloc 100) demo_pair) 4192 - asize_of 8
       <= hdr_size st' (4192 + asize_of 8)).
Proof.
  assert (A : In 4192 [4192; 4168; 4144]) by (left; reflexivity).
  assert (B : 0 < 8 < 2 ^ 64) by lia.
  assert (C : asize_of 8 <= hdr_size (after (mm_malloc 100) demo_pair) 4192)
    by (apply Z.leb_le; vm_compute; reflexivity).
  split; [exact demo_big_reachable|]. split; [exact A|]. split; [exact B|].
  split; [exact C|].
  exact (realloc_shrink (after (mm_malloc 100) demo_pair)
           [4192; 4168; 4144] 4192 8 demo_big_reachable A B C).
Defined.

(** ** Coalescing, in terms of the free list *)

Lemma filter_all (f : Z -> bool) l :
  (forall x, In x l -> f x = true) -> filter f l = l.
Proof.
  induction l as [|a l IH]; intros H; [reflexivity|]. cbn [filter].
  rewrite (H a (or_introl eq_refl)). f_equal. apply IH.
  intros x Hx. apply H. right. exact Hx.
Qed.

Lemma remove_filter (f : Z -> bool) a l :
  (forall x, In x l -> f x = negb (x =? a)) ->
  remove Z.eq_dec a l = filter f l.
Proof.
  induction l as [|y l IH]; intros H; [reflexivity|].
  cbn [remove filter]. rewrite (H y (or_introl eq_refl)).
  pose proof (IH (fun x Hx => H x (or_intror Hx))) as IH'.
  destruct (Z.eq_dec a y) as [E | E].
  - subst y. rewrite Z.eqb_refl. exact IH'.
  - replace (y =? a) with false by (symmetry; apply Z.eqb_neq; congruence).
    cbn [negb]. f_equal. exact IH'.
Qed.

Lemma remove2_filter (f : Z -> bool) a b l :
  (forall x, In x l -> f x = negb (x =? a) && negb (x =? b)) ->
  remove Z.eq_dec b (remove Z.eq_dec a l) = filter f l.
Proof.
  induction l as [|y l IH]; intros H; [reflexivity|].
  cbn [remove filter]. rewrite (H y (or_introl eq_refl)).
  pose proof (IH (fun x Hx => H x (or_intror Hx))) as IH'.
  destruct (Z.eq_dec a y) as [E | E].
  - subst y. rewrite Z.eqb_refl. exact IH'.
  - replace (y =? a) with false by (symmetry; apply Z.eqb_neq; congruence).
    cbn [negb andb remove].
    destruct (Z.eq_dec b y) as [E' | E'].
    + subst y. rewrite Z.eqb_refl. exact IH'.
    + replace (y =? b) with false
        by (symmetry; apply Z.eqb_neq; congruence).
      cbn [negb]. f_equal. exact IH'.
Qed.

Ltac bools :=
  repeat match goal with
         | |- context [?a <? ?b] => destruct (Z.ltb_spec a b)
         | |- context [?a <=? ?b] => destruct (Z.leb_spec a b)
         | |- context [?a =? ?b] => destruct (Z.eqb_spec a b)
         end;
  cbn [negb andb orb]; first [reflexivity | exfalso; lia].

(** [coalesce] on the block [(b, sz)] just freed: the merged block starts
    at the result, covers the block, and becomes the head of the free
    list, before the nodes of the old list that lie outside of it. *)
Lemma coalesced_list st pre b sz post l bs' l' r :
  layout st (pre ++ (b, sz, KAlloc) :: post) ->
  nodes l (pre ++ (b, sz, KAlloc) :: post) ->
  good (pre ++ (b, sz, KAlloc) :: post) l ->
  coalesced pre b sz post l = (bs', l', r) ->
  exists s',
    In (r, s', KFree) bs' /\ r <= b /\ b + sz <= r + s' /\
    l' = r :: filter (fun x => (x <? r) || (r + s' <=? x)) l /\
    (alloc_of_word (load 4 (mem st) (b - 8)) = 1 -> r = b) /\
    (alloc_of_word (load 4 (mem st) (b + sz - 4)) = 1 -> r + s' = b + sz).
Proof.
  intros HL HN Hg Hco.
  remember (pre ++ (b, sz, KAlloc) :: post) as bs eqn:Ebs.
  assert (Hb : In (b, sz, KAlloc) bs)
    by (subst bs; apply in_or_app; right; left; reflexivity).
  pose proof (layout_in _ _ _ _ _ HL Hb) as (B1 & B2 & B3 & _).
  assert (Hx : forall x, In x l ->
             exists sx, In (x, sx, KFree) bs /\ MINIMUM <= sx /\
                        (x + sx <= b \/ b + sz <= x)).
  { intros x Hx. destruct (HN x Hx) as (sx & k & Hin).
    assert (k = KFree) by (apply (Hg _ _ _ Hin); exact Hx). subst k.
    exists sx. split; [exact Hin|].
    pose proof (layout_in _ _ _ _ _ HL Hin) as (_ & _ & X3 & _).
    split; [exact X3|].
    destruct (layout_sep _ _ _ _ _ _ _ _ HL Hin Hb) as [(_ & _ & C) | C];
      [discriminate | exact C]. }
  assert (Hpv : is_free (bkind (prev_block pre b)) = true ->
            exists pa ps,
              prev_block pre b = (pa, ps, KFree) /\ In (pa, ps, KFree) bs /\
              pa + ps = b /\ MINIMUM <= ps /\
              alloc_of_word (load 4 (mem st) (b - 8)) = 0).
  { intros Hf. destruct (prev_cases pre b) as [(_ & E) | (Hne & _)].
    - rewrite E in Hf. discriminate.
    - rewrite Ebs in HL.
      destruct (layout_prev _ _ _ _ _ _ HL Hne) as (Hin & Ea).
      rewrite <- Ebs in HL, Hin. clear Hco.
      destruct (prev_block pre b) as ((pa, ps), pk).
      cbn [baddr bsize bkind fst snd] in *.
      destruct pk; try discriminate. exists pa, ps.
      split; [reflexivity|]. split; [exact Hin|]. split; [exact Ea|].
      pose proof (layout_in _ _ _ _ _ HL Hin) as (_ & _ & P3 & _).
      split; [exact P3|].
      destruct (layout_hdr_size _ _ _ _ _ HL Hin) as (_ & _ & _ & E4);
        [discriminate|].
      replace (b - 8) with (pa + ps - 8) by lia. exact E4. }
  assert (Hnx : is_free (bkind (next_block b sz post)) = true ->
            exists ns,
              next_block b sz post = (b + sz, ns, KFree) /\
              In (b + sz, ns, KFree) bs /\ MINIMUM <= ns /\
              alloc_of_word (load 4 (mem st) (b + sz - 4)) = 0).
  { intros Hf. rewrite Ebs in HL.
    destruct (layout_next _ _ _ _ _ _ HL) as [(E & _) | (_ & Hin & Ea)].
    - rewrite E in Hf. discriminate.
    - rewrite <- Ebs in HL, Hin. clear Hco.
      destruct (next_block b sz post) as ((na, ns), nk).
      cbn [baddr bsize bkind fst snd] in *.
      destruct nk; try discriminate. subst na. exists ns.
      split; [reflexivity|]. split; [exact Hin|].
      pose proof (layout_in _ _ _ _ _ HL Hin) as (_ & _ & N3 & _).
      split; [exact N3|].
      destruct (layout_hdr_size _ _ _ _ _ HL Hin) as (_ & _ & E3 & _);
        [discriminate|].
      exact E3. }
  unfold coalesced in Hco. cbv zeta in Hco.
  destruct (is_free (bkind (prev_block pre b))) eqn:Ep;
    destruct (is_free (bkind (next_block b sz post))) eqn:En.
  - destruct (Hpv eq_refl) as (pa & ps & Epv & Hpin & Epa & Hps & Hbit).
    destruct (Hnx eq_refl) as (ns & Enx & Hnin & Hns & Hbit').
    rewrite Epv, Enx in Hco. cbn [baddr bsize fst snd] in Hco.
    injection Hco as <- <- <-.
    exists (ps + sz + ns).
    split; [apply in_or_app; right; left; reflexivity|].
    unfold MINIMUM in *.
    split; [lia|]. split; [lia|]. split; [|split].
    + f_equal. apply remove2_filter. intros x Hxl.
      destruct (Hx x Hxl) as (sx & Hin & X3 & Hsep).
      destruct (layout_sep _ _ _ _ _ _ _ _ HL Hin Hpin) as [(C1 & _) | C1];
        destruct (layout_sep _ _ _ _ _ _ _ _ HL Hin Hnin) as [(C2 & _) | C2];
        bools.
    + intros C. rewrite Hbit in C. discriminate.
    + intros C. rewrite Hbit' in C. discriminate.
  - destruct (Hpv eq_refl) as (pa & ps & Epv & Hpin & Epa & Hps & Hbit).
    rewrite Epv in Hco. cbn [baddr bsize fst snd] in Hco.
    injection Hco as <- <- <-.
    exists (ps + sz).
    split; [apply in_or_app; right; left; reflexivity|].
    unfold MINIMUM in *.
    split; [lia|]. split; [lia|]. split; [|split].
    + f_equal. apply remove_filter. intros x Hxl.
      destruct (Hx x Hxl) as (sx & Hin & X3 & Hsep).
      destruct (layout_sep _ _ _ _ _ _ _ _ HL Hin Hpin) as [(C1 & _) | C1];
        bools.
    + intros C. rewrite Hbit in C. discriminate.
    + intros _. lia.
  - destruct (Hnx eq_refl) as (ns & Enx & Hnin & Hns & Hbit').
    rewrite Enx in Hco. cbn [baddr bsize fst snd] in Hco.
    injection Hco as <- <- <-.
    exists (sz + ns).
    split; [apply in_or_app; right; left; reflexivity|].
    unfold MINIMUM in *.
    split; [lia|]. split; [lia|]. split; [|split].
    + f_equal. apply remove_filter. intros x Hxl.
      destruct (Hx x Hxl) as (sx & Hin & X3 & Hsep).
      destruct (layout_sep _ _ _ _ _ _ _ _ HL Hin Hnin) as [(C1 & _) | C1];
        bools.
    + intros _. reflexivity.
    + intros C. rewrite Hbit' in C. discriminate.
  - injection Hco as <- <- <-.
    exists sz.
    split; [apply in_or_app; right; left; reflexivity|].
    unfold MINIMUM in *.
    split; [lia|]. split; [lia|]. split; [|split].
    + f_equal. symmetry. apply filter_all. intros x Hxl.
      destruct (Hx x Hxl) as (sx & Hin & X3 & Hsep). bools.
    + intros _. reflexivity.
    + intros _. reflexivity.
Qed.

(** Free of an allocated block returns, and what it leaves behind. *)
Lemma free_run st bs l p c :
  R st bs l -> good bs l -> no_adj bs -> In (p, c, KAlloc) bs ->
  exists st' bs' h t c',
    mm_free p st = Ok tt st' /\
    R st' bs' (h :: t) /\ good bs' (h :: t) /\ no_adj bs' /\
    In (h, c', KFree) bs' /\ h <= p /\ p + c <= h + c' /\
    t = filter (fun x => (x <? h) || (h + c' <=? x)) l /\
    mem_brk st' = mem_brk st /\
    (alloc_of_word (load 4 (mem st) (p - 8)) = 1 -> h = p) /\
    (alloc_of_word (load 4 (mem st) (p + c - 4)) = 1 -> h + c' = p + c).
Proof.
  intros HR Hg Hna Hin. pose proof (R_layout _ _ _ HR) as HL.
  destruct (in_split _ _ Hin) as (pre & post & Ebs). subst bs.
  destruct (layout_hdr_size _ _ _ _ _ HL Hin) as (E1 & _); [discriminate|].
  assert (Hnp : ~ In p l).
  { intros H. apply (Hg _ _ _ Hin) in H. discriminate. }
  pose proof (free_core_kept st pre p c KAlloc post l
    (fun _ st' =>
       exists bs' h t c',
         R st' bs' (h :: t) /\ good bs' (h :: t) /\ no_adj bs' /\
         In (h, c', KFree) bs' /\ h <= p /\ p + c <= h + c' /\
         t = filter (fun x => (x <? h) || (h + c' <=? x)) l /\
         mem_brk st' = mem_brk st /\
         (alloc_of_word (load 4 (mem st) (p - 8)) = 1 -> h = p) /\
         (alloc_of_word (load 4 (mem st) (p + c - 4)) = 1 ->
          h + c' = p + c))
    HR E1 (good_good_but _ _ _ Hg) Hnp Hna) as H.
  apply wp_inv in H.
  - destruct H as ([] & st' & E & bs' & h & t & c' & H).
    exists st', bs', h, t, c'. split; [exact E | exact H].
  - intros st' bs' l' r Hco HR' Hg' Hna' _ _ Hb _.
    destruct (coalesced_list _ _ _ _ _ _ _ _ _ HL (R_nodes _ _ _ HR) Hg Hco)
      as (s' & Hin' & H1 & H2 & El & Hb1 & Hb2).
    subst l'.
    exists bs', r, (filter (fun x => (x <? r) || (r + s' <=? x)) l), s'.
    split; [exact HR'|]. split; [exact Hg'|]. split; [exact Hna'|].
    split; [exact Hin'|]. split; [exact H1|]. split; [exact H2|].
    split; [reflexivity|]. split; [exact Hb|].
    split; [exact Hb1 | exact Hb2].
Qed.

(** X16.  Free of a live pointer [p] in a reachable state returns.  The
    block of [p] is merged with the free blocks next to it: the merged
    block is free, covers the block of [p], starts at [p] when the word
    below the header of [p] (the footer of the block before) has the
    allocated bit set, and ends with the block of [p] when the header after
    it has.  The merged block becomes the head of the free list, and the
    rest of the list are the nodes of the old list outside of it, in
    their old order. *)
Theorem free_outcome st live l p :
  reachable st live -> In p live -> free_list_is st (free_listp st) l ->
  exists st',
    mm_free p st = Ok tt st' /\
    hdr_alloc st' (free_listp st') = 0 /\
    free_listp st' <= p /\
    p + hdr_size st p <= free_listp st' + hdr_size st' (free_listp st') /\
    (alloc_of_word (load 4 (mem st) (p - DSIZE)) = 1 ->
     free_listp st' = p) /\
    (hdr_alloc st (p + hdr_size st p) = 1 ->
     free_listp st' + hdr_size st' (free_listp st') = p + hdr_size st p) /\
    free_list_is st' (free_listp st')
      (free_listp st' ::
       filter (fun x =>
                 (x <? free_listp st') ||
                 (free_listp st' + hdr_size st' (free_listp st') <=? x)) l).
Proof.
  intros Hr Hp Hl.
  destruct (free_list_inv _ _ _ Hr Hl) as (bs & HR & Hg & Hna & Hlive).
  pose proof (R_layout _ _ _ HR) as HL.
  destruct (proj1 (Hlive p) Hp) as (c & Hin).
  destruct (layout_hdr_size _ _ _ _ _ HL Hin) as (E1 & _); [discriminate|].
  assert (Hsz : hdr_size st p = c)
    by (unfold hdr_size, HDRP, WSIZE; exact E1).
  destruct (free_run _ _ _ _ _ HR Hg Hna Hin)
    as (st' & bs' & h & t & c' & E & HR' & Hg' & _ & Hin' & H1 & H2 & Et &
        _ & Hb1 & Hb2).
  exists st'. split; [exact E|].
  assert (Eh : free_listp st' = h)
    by exact (K_head _ _ (R_links _ _ _ HR')).
  destruct (layout_hdr_size _ _ _ _ _ (R_layout _ _ _ HR') Hin')
    as (E2 & _ & E3 & _); [discriminate|].
  assert (Hsz' : hdr_size st' h = c')
    by (unfold hdr_size, HDRP, WSIZE; exact E2).
  pose proof (free_list_of_R _ _ _ HR' Hg') as Hl'.
  rewrite Eh in *. rewrite Hsz, Hsz'.
  split; [unfold hdr_alloc, HDRP, WSIZE; exact E3|].
  split; [exact H1|]. split; [exact H2|].
  split; [exact Hb1|]. split.
  - intros C. apply Hb2. unfold hdr_alloc, HDRP, WSIZE in C. exact C.
  - rewrite <- Et. exact Hl'.
Qed.

Lemma free_outcome_witness :
  reachable demo_pair [4168; 4144] /\ In 4144 [4168; 4144] /\
  free_list_is demo_pair (free_listp demo_pair) [4192] /\
  exists st',
    mm_free 4144 demo_pair = Ok tt st' /\
    hdr_alloc st' (free_listp st') = 0 /\
    free_listp st' <= 4144 /\
    4144 + hdr_size demo_pair 4144
      <= free_listp st' + hdr_size st' (free_listp st') /\
    (alloc_of_word (load 4 (mem demo_pair) (4144 - DSIZE)) = 1 ->
     free_listp st' = 4144) /\
    (hdr_alloc demo_pair (4144 + hdr_size demo_pair 4144) = 1 ->
     free_listp st' + hdr_size st' (free_listp st') =
       4144 + hdr_size demo_pair 4144) /\
    free_list_is st' (free_listp st')
      (free_listp st' ::
       filter (fun x =>
                 (x <? free_listp st') ||
                 (free_listp st' + hdr_size st' (free_listp st') <=? x))
              [4192]).
Proof.
  assert (A : In 4144 [4168; 4144]) by (right; left; reflexivity).
  split; [exact demo_pair_reachable|]. split; [exact A|].
  split; [exact demo_pair_list|].
  exact (free_outcome demo_pair [4168; 4144] [4192] 4144
           demo_pair_reachable A demo_pair_list).
Defined.

(** ** Placing *)

(** The blocks and the free list after [place], the block after the one
    placed in being allocated. *)
Lemma placed_split pre b c post (l : list Z) asize :
  no_adj (pre ++ (b, c, KFree) :: post) ->
  placed pre b c post l asize =
    if c - asize >=? MINIMUM then
      (pre ++ (b, asize, KAlloc) :: (b + asize, c - asize, KFree) :: post,
       (b + asize) :: remove Z.eq_dec b l)
    else (pre ++ (b, c, KAlloc) :: post, remove Z.eq_dec b l).
Proof.
  intros Hna. unfold placed.
  destruct (c - asize >=? MINIMUM); [|reflexivity].
  unfold coalesced. cbv zeta. rewrite prev_block_last.
  change (is_free (bkind (b, asize, KAlloc))) with false. cbv iota.
  destruct (no_adj_split _ _ _ Hna) as (_ & _ & _ & N).
  assert (En : is_free (bkind (next_block (b + asize) (c - asize) post))
               = false).
  { destruct post as [|n post']; [reflexivity|].
    cbn [next_block hd].
    destruct (bkind n) eqn:Ek; try reflexivity.
    exfalso. apply N; [discriminate|]. cbn [hd bkind snd].
    split; [reflexivity | exact Ek]. }
  rewrite En. cbn [fst]. rewrite <- app_assoc. reflexivity.
Qed.

Lemma first_fit_head st asize h t :
  asize <= hdr_size st h -> first_fit st asize (h :: t) = h.
Proof.
  intros H. unfold first_fit. cbn [find].
  replace (asize <=? hdr_size st h) with true
    by (symmetry; apply Z.leb_le; exact H).
  reflexivity.
Qed.

(** Allocation when some node of the free list is large enough: the first
    such node is placed and returned, and the break stays. *)
Lemma malloc_fit st bs l size (Q : Z -> state -> Prop) :
  R st bs l -> good bs l -> no_adj bs -> 0 < size < 2 ^ 64 ->
  first_fit st (asize_of size) l <> NULL ->
  (forall r pre c post st' bs' l',
      r = first_fit st (asize_of size) l ->
      bs = pre ++ (r, c, KFree) :: post ->
      asize_of size <= c ->
      placed pre r c post l (asize_of size) = (bs', l') ->
      R st' bs' l' -> good bs' l' -> no_adj bs' ->
      mem_brk st' = mem_brk st ->
      Q r st') ->
  wp (mm_malloc size) Q st.
Proof.
  intros HR Hg Hna Hs Hfit HQ. pose proof (R_layout _ _ _ HR) as HL.
  pose proof (layout_bounds _ _ HL) as (G1 & G2 & _).
  destruct (asize_facts size ltac:(lia)) as (F1 & F2 & _).
  unfold mm_malloc. fold (asize_of size).
  replace (size <=? 0) with false by (symmetry; apply Z.leb_gt; lia).
  remember (asize_of size) as asize eqn:Ea.
  apply wp_bind. eapply find_fit_spec; [exact HR | exact Hg |].
  intros r Hf. pose proof (fit_result_first _ _ _ _ _ HR Hg Hf) as Er.
  destruct Hf as [(E0 & Hno) | (l1 & l2 & c & El & Hin & Hle & _)].
  { exfalso. apply Hfit. rewrite <- Er. exact E0. }
  pose proof (layout_in _ _ _ _ _ HL Hin) as (I1 & _).
  replace (r =? NULL) with false
    by (symmetry; apply Z.eqb_neq; unfold NULL; lia).
  cbn [negb].
  destruct (in_split _ _ Hin) as (pre & post & Ebs).
  rewrite Ebs in HR, Hg, Hna.
  apply wp_bind.
  eapply place_spec; [exact HR | exact Hg | exact Hna | lia | exact F2 |].
  intros st2 bs2 l2' Hpl HR2 Hg2 Hna2 _ _ Hb2 _. apply wp_ret.
  exact (HQ r pre c post st2 bs2 l2' Er Ebs Hle Hpl HR2 Hg2 Hna2 Hb2).
Qed.

(** X17.  In a reachable state, when the first node of the free list that
    holds the adjusted size is [r], allocate returns [r] with the
    allocated bit set.  When the block of [r] has less than MINIMUM bytes
    above the adjusted size it is handed out whole and leaves the free
    list.  Otherwise it is split: [r] keeps the adjusted size, and the
    rest becomes a free block of its own, which takes the head of the free
    list, before the other nodes in their old order. *)
Theorem malloc_split st live l size r :
  reachable st live -> free_list_is st (free_listp st) l ->
  0 < size < 2 ^ 64 ->
  first_fit st (asize_of size) l = r -> r <> NULL ->
  exists st',
    mm_malloc size st = Ok r st' /\
    hdr_alloc st' r = 1 /\
    (hdr_size st r - asize_of size < MINIMUM ->
     hdr_size st' r = hdr_size st r /\
     free_list_is st' (free_listp st') (remove Z.eq_dec r l)) /\
    (MINIMUM <= hdr_size st r - asize_of size ->
     hdr_size st' r = asize_of size /\
     hdr_alloc st' (r + asize_of size) = 0 /\
     hdr_size st' (r + asize_of size) = hdr_size st r - asize_of size /\
     free_list_is st' (free_listp st')
       (r + asize_of size :: remove Z.eq_dec r l)).
Proof.
  intros Hr Hl Hs Er Hrn. subst r.
  destruct (free_list_inv _ _ _ Hr Hl) as (bs & HR & Hg & Hna & _).
  pose proof (R_layout _ _ _ HR) as HL.
  remember (asize_of size) as asize eqn:Ea.
  pose proof (malloc_fit st bs l size
    (fun r st' =>
       r = first_fit st asize l /\
       hdr_alloc st' r = 1 /\
       (hdr_size st r - asize < MINIMUM ->
        hdr_size st' r = hdr_size st r /\
        free_list_is st' (free_listp st') (remove Z.eq_dec r l)) /\
       (MINIMUM <= hdr_size st r - asize ->
        hdr_size st' r = asize /\
        hdr_alloc st' (r + asize) = 0 /\
        hdr_size st' (r + asize) = hdr_size st r - asize /\
        free_list_is st' (free_listp st')
          (r + asize :: remove Z.eq_dec r l)))
    HR Hg Hna Hs) as H.
  rewrite <- Ea in H. specialize (H Hrn).
  apply wp_inv in H.
  - destruct H as (r & st' & E & Er & H). subst r.
    exists st'. split; [exact E | exact H].
  - intros r pre c post st' bs' l' Er Ebs Hc Hpl HR' Hg' _ _.
    split; [exact Er|]. clear Er.
    assert (Hin : In (r, c, KFree) bs)
      by (rewrite Ebs; apply in_or_app; right; left; reflexivity).
    destruct (layout_hdr_size _ _ _ _ _ HL Hin) as (E1 & _); [discriminate|].
    assert (Hsz : hdr_size st r = c)
      by (unfold hdr_size, HDRP, WSIZE; exact E1).
    rewrite Hsz. rewrite Ebs in Hna.
    rewrite (placed_split _ _ _ _ _ _ Hna) in Hpl.
    pose proof (free_list_of_R _ _ _ HR' Hg') as Hl'.
    pose proof (R_layout _ _ _ HR') as HL'.
    rewrite Z.geb_leb in Hpl.
    destruct (Z.leb_spec MINIMUM (c - asize)) as [Hge | Hlt];
      injection Hpl as <- <-.
    + assert (I1 : In (r, asize, KAlloc)
                      (pre ++ (r, asize, KAlloc) ::
                           (r + asize, c - asize, KFree) :: post))
        by (apply in_or_app; right; left; reflexivity).
      assert (I2 : In (r + asize, c - asize, KFree)
                      (pre ++ (r, asize, KAlloc) ::
                           (r + asize, c - asize, KFree) :: post))
        by (apply in_or_app; right; right; left; reflexivity).
      destruct (layout_hdr_size _ _ _ _ _ HL' I1) as (A1 & _ & A2 & _);
        [discriminate|].
      destruct (layout_hdr_size _ _ _ _ _ HL' I2) as (A3 & _ & A4 & _);
        [discriminate|].
      unfold hdr_alloc, hdr_size, HDRP, WSIZE.
      split; [exact A2|]. split; [intros C; lia|]. intros _.
      split; [exact A1|]. split; [exact A4|]. split; [exact A3 | exact Hl'].
    + assert (I1 : In (r, c, KAlloc) (pre ++ (r, c, KAlloc) :: post))
        by (apply in_or_app; right; left; reflexivity).
      destruct (layout_hdr_size _ _ _ _ _ HL' I1) as (A1 & _ & A2 & _);
        [discriminate|].
      unfold hdr_alloc, hdr_size, HDRP, WSIZE.
      split; [exact A2|]. split; [|intros C; lia]. intros _.
      split; [exact A1 | exact Hl'].
Qed.

Lemma demo_pair_fit : first_fit demo_pair (asize_of 100) [4192] = 4192.
Proof. vm_compute. reflexivity. Qed.

Lemma malloc_split_witness :
  reachable demo_pair [4168; 4144] /\
  free_list_is demo_pair (free_listp demo_pair) [4192] /\
  0 < 100 < 2 ^ 64 /\
  first_fit demo_pair (asize_of 100) [4192] = 4192 /\ 4192 <> NULL /\
  exists st',
    mm_malloc 100 demo_pair = Ok 4192 st' /\
    hdr_alloc st' 4192 = 1 /\
    (hdr_size demo_pair 4192 - asize_of 100 < MINIMUM ->
     hdr_size st' 4192 = hdr_size demo_pair 4192 /\
     free_list_is st' (free_listp st') (remove Z.eq_dec 4192 [4192])) /\
    (MINIMUM <= hdr_size demo_pair 4192 - asize_of 100 ->
     hdr_size st' 4192 = asize_of 100 /\
     hdr_alloc st' (4192 + asize_of 100) = 0 /\
     hdr_size st' (4192 + asize_of 100) =
       hdr_size demo_pair 4192 - asize_of 100 /\
     free_list_is st' (free_listp st')
       (4192 + asize_of 100 :: remove Z.eq_dec 4192 [4192])).
Proof.
  assert (A : 0 < 100 < 2 ^ 64) by lia.
  assert (B : 4192 <> NULL) by discriminate.
  split; [exact demo_pair_reachable|]. split; [exact demo_pair_list|].
  split; [exact A|]. split; [exact demo_pair_fit|]. split; [exact B|].
  exact (malloc_split demo_pair [4168; 4144] [4192] 100 4192
           demo_pair_reachable demo_pair_list A demo_pair_fit B).
Defined.

(** ** Free, then allocate *)

(** X18.  In a reachable state, free of a live pointer [p] followed by
    allocate of a size other than 0 whose adjusted size the block of [p]
    holds: both calls return, the result of allocate is the head of the
    free list that free left, which is [p] itself when the word below the
    header of [p] has the allocated bit set and is never above [p], and
    the break is where it was. *)
Theorem freed_block_served st live p size :
  reachable st live -> In p live -> 0 < size < 2 ^ 64 ->
  asize_of size <= hdr_size st p ->
  exists st1 r st2,
    mm_free p st = Ok tt st1 /\ mm_malloc size st1 = Ok r st2 /\
    r = free_listp st1 /\ r <= p /\
    (alloc_of_word (load 4 (mem st) (p - DSIZE)) = 1 -> r = p) /\
    mem_brk st2 = mem_brk st.
Proof.
  intros Hr Hp Hs Hc.
  destruct (reachable_inv _ _ Hr) as (bs & l & HR & Hg & Hna & Hlive).
  pose proof (R_layout _ _ _ HR) as HL.
  destruct (proj1 (Hlive p) Hp) as (c & Hin).
  destruct (layout_hdr_size _ _ _ _ _ HL Hin) as (E1 & _); [discriminate|].
  assert (Hsz : hdr_size st p = c)
    by (unfold hdr_size, HDRP, WSIZE; exact E1).
  rewrite Hsz in Hc.
  destruct (free_run _ _ _ _ _ HR Hg Hna Hin)
    as (st1 & bs' & h & t & c' & E & HR' & Hg' & Hna' & Hin' & H1 & H2 & _ &
        Hb & Hb1 & _).
  assert (Eh : free_listp st1 = h)
    by exact (K_head _ _ (R_links _ _ _ HR')).
  pose proof (R_layout _ _ _ HR') as HL'.
  destruct (layout_hdr_size _ _ _ _ _ HL' Hin') as (E2 & _); [discriminate|].
  assert (Hsz' : hdr_size st1 h = c')
    by (unfold hdr_size, HDRP, WSIZE; exact E2).
  pose proof (layout_in _ _ _ _ _ HL' Hin') as (I1 & _).
  pose proof (layout_bounds _ _ HL') as (G1 & G2 & _).
  assert (Hff : first_fit st1 (asize_of size) (h :: t) = h)
    by (apply first_fit_head; rewrite Hsz'; lia).
  assert (Hfit : first_fit st1 (asize_of size) (h :: t) <> NULL)
    by (rewrite Hff; unfold NULL; lia).
  pose proof (malloc_fit st1 bs' (h :: t) size
    (fun r st2 => r = h /\ mem_brk st2 = mem_brk st1)
    HR' Hg' Hna' Hs Hfit) as H.
  apply wp_inv in H.
  - destruct H as (r & st2 & E' & -> & Hb').
    exists st1, h, st2. split; [exact E|]. split; [exact E'|].
    split; [symmetry; exact Eh|]. split; [exact H1|].
    split; [exact Hb1 | congruence].
  - intros r pre c0 post st2 bs2 l2 Er _ _ _ _ _ _ Hb2.
    split; [rewrite Er; exact Hff | exact Hb2].
Qed.

Lemma freed_block_served_witness :
  reachable demo_pair [4168; 4144] /\ In 4144 [4168; 4144] /\
  0 < 1 < 2 ^ 64 /\ asize_of 1 <= hdr_size demo_pair 4144 /\
  exists st1 r st2,
    mm_free 4144 demo_pair = Ok tt st1 /\ mm_malloc 1 st1 = Ok r st2 /\
    r = free_listp st1 /\ r <= 4144 /\
    (alloc_of_word (load 4 (mem demo_pair) (4144 - DSIZE)) = 1 -> r = 4144) /\
    mem_brk st2 = mem_brk demo_pair.
Proof.
  assert (A : In 4144 [4168; 4144]) by (right; left; reflexivity).
  assert (B : 0 < 1 < 2 ^ 64) by lia.
  assert (C : asize_of 1 <= hdr_size demo_pair 4144)
    by (apply Z.leb_le; vm_compute; reflexivity).
  split; [exact demo_pair_reachable|]. split; [exact A|]. split; [exact B|].
  split; [exact C|].
  exact (freed_block_served demo_pair [4168; 4144] 4144 1
           demo_pair_reachable A B C).
Defined.

(** ** Zero-allocate when allocate fails *)

(** X19.  Zero-allocate of a count other than 0 (the product of its
    arguments modulo 2^64), in a reachable state, calls allocate, which
    returns, and does not look at the result.  When allocate returns
    [NULL], or the count is above 2^64 - 16, for which allocate hands out
    a block that is too short, the zeroing stores outside the provider's
    region and the call faults; otherwise the call returns the pointer,
    the bytes of the count zeroed in the state allocate left. *)
Theorem calloc_outcome st live nmemb size :
  reachable st live -> 0 < u64 (nmemb * size) ->
  exists p st1,
    mm_malloc (u64 (nmemb * size)) st = Ok p st1 /\
    mm_calloc nmemb size st =
      if (p =? NULL) || (2 ^ 64 - 16 <? u64 (nmemb * size)) then Fault
      else Ok p (with_mem st1
                   (mem_fill (mem st1) p 0 (u64 (nmemb * size)))).
Proof.
  intros Hr Hpos.
  destruct (reachable_inv _ _ Hr) as (bs & l & HR & Hg & Hna & _).
  pose proof (R_layout _ _ _ HR) as HL.
  pose proof (layout_bounds _ _ HL) as (G1 & G2 & G3 & G4).
  pose proof (u64_range (nmemb * size)) as Hn.
  remember (u64 (nmemb * size)) as n eqn:En.
  pose proof (mm_malloc_spec st bs l n
    (fun p st1 =>
       0 < mem_heap st1 /\ mem_brk st1 < 2 ^ 64 - 1 /\
       (p <> NULL ->
        mem_heap st1 + 48 <= p /\
        (n <= 2 ^ 64 - 16 -> p + n <= mem_brk st1)))
    HR Hg Hna Hn) as Hm.
  apply wp_inv in Hm.
  2:{ intros st1 bs1 l1 r1 HR1 _ _ _ Hcase _ _.
      pose proof (layout_bounds _ _ (R_layout _ _ _ HR1))
        as (G5 & G6 & G7 & G8).
      split; [exact G5|]. split; [exact G8|]. intros Hr1.
      destruct Hcase as [(C & _) | (_ & _ & c & Hin & Hc & _)];
        [contradiction|].
      pose proof (layout_in _ _ _ _ _ (R_layout _ _ _ HR1) Hin)
        as (B1 & B2 & _).
      split; [lia|]. intros Hle.
      destruct (asize_facts n Hn) as (_ & _ & _ & F4).
      specialize (F4 Hle). lia. }
  destruct Hm as (p & st1 & E1 & H1 & H2 & H3).
  exists p, st1. split; [exact E1|].
  unfold mm_calloc. rewrite <- En.
  erewrite bind_run by reflexivity.
  replace (heap_listp st =? 0) with false
    by (symmetry; apply Z.eqb_neq; lia).
  erewrite bind_run by reflexivity.
  erewrite bind_run by exact E1.
  unfold bind, memset, ret.
  replace (n =? 0) with false by (symmetry; apply Z.eqb_neq; lia).
  destruct (Z.eqb_spec p NULL) as [Ep | Ep].
  - subst p. cbn [orb]. unfold valid.
    replace (mem_heap st1 <=? NULL) with false
      by (symmetry; apply Z.leb_gt; unfold NULL; lia).
    reflexivity.
  - destruct (H3 Ep) as (H4 & H5). cbn [orb].
    destruct (Z.ltb_spec (2 ^ 64 - 16) n) as [Hbig | Hsmall].
    + rewrite valid_false by lia. reflexivity.
    + rewrite valid_true by lia. reflexivity.
Qed.

Lemma calloc_outcome_witness :
  reachable demo_one [4144] /\ 0 < u64 (3 * 5) /\
  exists p st1,
    mm_malloc (u64 (3 * 5)) demo_one = Ok p st1 /\
    mm_calloc 3 5 demo_one =
      if (p =? NULL) || (2 ^ 64 - 16 <? u64 (3 * 5)) then Fault
      else Ok p (with_mem st1 (mem_fill (mem st1) p 0 (u64 (3 * 5)))).
Proof.
  assert (A : 0 < u64 (3 * 5)) by reflexivity.
  split; [exact demo_one_reachable|]. split; [exact A|].
  exact (calloc_outcome demo_one [4144] 3 5 demo_one_reachable A).
Defined.
